(** * Dependency-closure relinking of prebuilt Pythons (build_binary.py)

    A shallow embedding of the link inspectors ([_linux_linked],
    [_darwin_linked]), the relinkers ([_linux_relink], [_darwin_relink])
    and the closure walk ([_relink_1]) of [build_binary.py], together with
    the properties the specification states about them.

    Text is modelled as [string] whose characters stand for code points
    below 256; the file system is a finite map from path strings to nodes;
    external programs are oracles collected in an environment record. *)

From Stdlib Require Import String Ascii List Arith Lia Bool.
From stdpp Require Import base option list gmap strings sets.

Local Open Scope string_scope.
Local Open Scope list_scope.

(* ===================================================================== *)
(** ** Python [str] operations used by the program                        *)
(* ===================================================================== *)

Module Str.

Definition chr (n : nat) : ascii := ascii_of_nat n.
Definition ord (c : ascii) : nat := nat_of_ascii c.

Definition TAB : string := String (chr 9) "".
Definition LF : string := String (chr 10) "".

(** Line boundaries of [str.splitlines] among code points below 256:
    LF, VT, FF, CR, FS, GS, RS and NEL. *)
Definition is_linebreak (c : ascii) : bool :=
  let n := ord c in
  (Nat.leb 10 n && Nat.leb n 13) || (Nat.leb 28 n && Nat.leb n 30)
  || Nat.eqb n 133.

(** [str.isspace] on one character; also the class [\s] of [re]. *)
Definition is_space (c : ascii) : bool :=
  let n := ord c in
  (Nat.leb 9 n && Nat.leb n 13) || (Nat.leb 28 n && Nat.leb n 32)
  || Nat.eqb n 133 || Nat.eqb n 160.

Definition snoc (s : string) (c : ascii) : string := s +:+ String c "".

(** [s.splitlines()]: CR LF is one boundary, and a final boundary opens
    no further line. *)
Fixpoint splitlines_from (s cur : string) : list string :=
  match s with
  | EmptyString => if String.eqb cur "" then [] else [cur]
  | String c s' =>
      if is_linebreak c then
        cur :: match s' with
               | String d s'' =>
                   if Nat.eqb (ord c) 13 && Nat.eqb (ord d) 10
                   then splitlines_from s'' ""
                   else splitlines_from s' ""
               | EmptyString => splitlines_from s' ""
               end
      else splitlines_from s' (snoc cur c)
  end.

Definition splitlines (s : string) : list string := splitlines_from s "".

Fixpoint lstrip (s : string) : string :=
  match s with
  | String c s' => if is_space c then lstrip s' else s
  | EmptyString => ""
  end.

Fixpoint rstrip (s : string) : string :=
  match s with
  | String c s' =>
      let r := rstrip s' in
      if String.eqb r "" && is_space c then "" else String c r
  | EmptyString => ""
  end.

(** [s.strip()] *)
Definition strip (s : string) : string := rstrip (lstrip s).

(** [s.startswith(p)] *)
Fixpoint startswith (s p : string) : bool :=
  match p with
  | EmptyString => true
  | String c p' =>
      match s with
      | String d s' => Ascii.eqb c d && startswith s' p'
      | EmptyString => false
      end
  end.

(** [s.startswith((p1, p2, ...))] *)
Definition startswith_any (s : string) (ps : list string) : bool :=
  existsb (startswith s) ps.

(** [sub in s] *)
Fixpoint contains (sub s : string) : bool :=
  startswith s sub ||
  match s with
  | String _ s' => contains sub s'
  | EmptyString => false
  end.

End Str.

(* ===================================================================== *)
(** ** The fragment of [re] the two patterns need                         *)
(* ===================================================================== *)

Module Re.

(** A pattern is a sequence of atoms, matched from the start of the
    subject as [Pattern.match] does; repetitions are greedy and give
    back characters one at a time. *)
Inductive atom : Type :=
| Lit (c : ascii)                  (* one literal character *)
| Plus (cls : ascii -> bool)       (* [cls+] *)
| Star (cls : ascii -> bool)       (* [cls*] *)
| GroupPlus (cls : ascii -> bool)  (* [(cls+)], the capture group 1 *)
| Dollar.                          (* [$] *)

Fixpoint lits (s : string) : list atom :=
  match s with
  | String c s' => Lit c :: lits s'
  | EmptyString => []
  end.

(** Longest run of [cls] first, then shorter ones, until [k] accepts. *)
Fixpoint greedy (cls : ascii -> bool) (k : string -> option string)
    (s : string) : option string :=
  match s with
  | String d s' =>
      if cls d then
        match greedy cls k s' with
        | Some g => Some g
        | None => k s
        end
      else k s
  | EmptyString => k s
  end.

(** The same for the capturing repetition: [acc] is what the group has
    taken so far, and is the result when the rest of the pattern
    accepts. *)
Fixpoint greedy_cap (cls : ascii -> bool) (k : string -> option string)
    (s acc : string) : option string :=
  match s with
  | String d s' =>
      if cls d then
        match greedy_cap cls k s' (Str.snoc acc d) with
        | Some g => Some g
        | None => match k s with Some _ => Some acc | None => None end
        end
      else match k s with Some _ => Some acc | None => None end
  | EmptyString => match k s with Some _ => Some acc | None => None end
  end.

(** [rmatch r s] is [Some g] when [r] matches at the start of [s], with
    [g] the text of group 1 (empty when the rest has no group). *)
Fixpoint rmatch (r : list atom) (s : string) {struct r} : option string :=
  match r with
  | [] => Some ""
  | Lit c :: r' =>
      match s with
      | String d s' => if Ascii.eqb c d then rmatch r' s' else None
      | EmptyString => None
      end
  | Plus cls :: r' =>
      match s with
      | String d s' => if cls d then greedy cls (rmatch r') s' else None
      | EmptyString => None
      end
  | Star cls :: r' => greedy cls (rmatch r') s
  | GroupPlus cls :: r' =>
      match s with
      | String d s' =>
          if cls d then greedy_cap cls (rmatch r') s' (String d "")
          else None
      | EmptyString => None
      end
  | Dollar :: r' =>
      if String.eqb s "" || String.eqb s Str.LF then rmatch r' s else None
  end.

Definition not_space (c : ascii) : bool := negb (Ascii.eqb c " ").
Definition not_lparen (c : ascii) : bool := negb (Ascii.eqb c "(").
(** [.] without DOTALL: anything but LF. *)
Definition dot (c : ascii) : bool := negb (Nat.eqb (Str.ord c) 10).

End Re.

(* ===================================================================== *)
(** ** Exceptions and results                                             *)
(* ===================================================================== *)

Inductive exn : Type :=
| AssertionError (msg : string)
| CalledProcessError (cmd : list string)
| IndexError
| OSError (path : string)
| SameFileError (path : string).

Inductive result (A : Type) : Type :=
| Ok (a : A)
| Raise (e : exn).

Arguments Ok {A} a.
Arguments Raise {A} e.

Definition bind {A B : Type} (r : result A) (k : A -> result B) : result B :=
  match r with
  | Ok a => k a
  | Raise e => Raise e
  end.

Notation "'let*' x := r 'in' k" := (bind r (fun x => k))
  (at level 10, x name, r at level 100, k at level 200).

Definition raised {A : Type} (r : result A) : Prop :=
  match r with
  | Ok _ => False
  | Raise _ => True
  end.

(* ===================================================================== *)
(** ** Paths and the file system                                          *)
(* ===================================================================== *)

Module OsPath.

Definition is_slash (c : ascii) : bool := Ascii.eqb c "/".

(** [os.path.basename]: what follows the last slash. *)
Fixpoint basename_from (p cur : string) : string :=
  match p with
  | String c p' =>
      if is_slash c then basename_from p' ""
      else basename_from p' (Str.snoc cur c)
  | EmptyString => cur
  end.

Definition basename (p : string) : string := basename_from p "".

(** The head of [os.path.split] before its trailing slashes are
    removed: everything up to and including the last slash. *)
Fixpoint head_from (p head cur : string) : string :=
  match p with
  | String c p' =>
      if is_slash c then head_from p' (head +:+ Str.snoc cur c) ""
      else head_from p' head (Str.snoc cur c)
  | EmptyString => head
  end.

Fixpoint all_slashes (s : string) : bool :=
  match s with
  | String c s' => is_slash c && all_slashes s'
  | EmptyString => true
  end.

Fixpoint rstrip_slash (s : string) : string :=
  match s with
  | String c s' =>
      let r := rstrip_slash s' in
      if String.eqb r "" && is_slash c then "" else String c r
  | EmptyString => ""
  end.

(** [os.path.dirname] *)
Definition dirname (p : string) : string :=
  let head := head_from p "" "" in
  if all_slashes head then head else rstrip_slash head.

(** [os.path.split] *)
Definition split (p : string) : string * string := (dirname p, basename p).

(** [s.endswith('/')] *)
Fixpoint ends_with_slash (s : string) : bool :=
  match s with
  | EmptyString => false
  | String c EmptyString => is_slash c
  | String _ s' => ends_with_slash s'
  end.

(** [os.path.join] of two components. *)
Definition join (a b : string) : string :=
  if Str.startswith b "/" then b
  else if String.eqb a "" || ends_with_slash a then a +:+ b
  else a +:+ "/" +:+ b.

End OsPath.

(** A node of the file system: a directory, or a regular file with its
    bytes. *)
Inductive node : Type :=
| Dir
| File (bytes : string).

Abbreviation filesystem := (gmap string node).

(** The state the program runs in: the file system, the commands run so
    far through [subprocess.check_call], and the [shutil.copy] calls made
    so far as pairs of the source and of the path written, oldest first. *)
Record world : Type := World {
  fs : filesystem;
  calls : list (list string);
  copied : list (string * string)
}.

Module Os.

(** Paths are looked up as written: no normalisation, no symbolic
    links, no working directory. *)
Definition exists_ (m : filesystem) (p : string) : bool :=
  match m !! p with
  | Some _ => true
  | None => false
  end.

Definition isdir (m : filesystem) (p : string) : bool :=
  match m !! p with
  | Some Dir => true
  | _ => false
  end.

(** The bytes of a regular file.  A path with an empty last component
    (empty, or ending in a slash) names no regular file. *)
Definition read_file (m : filesystem) (p : string) : option string :=
  if String.eqb (OsPath.basename p) "" then None
  else match m !! p with
       | Some (File c) => Some c
       | _ => None
       end.

Definition isfile (m : filesystem) (p : string) : bool :=
  match read_file m p with
  | Some _ => true
  | None => false
  end.

(** Where [shutil.copy(src, dst)] writes. *)
Definition copy_target (m : filesystem) (src dst : string) : string :=
  if isdir m dst then OsPath.join dst (OsPath.basename src) else dst.

(** [shutil.copy(src, dst)].  The parent directory of the target is not
    looked up. *)
Definition copy (src dst : string) (m : filesystem) : result filesystem :=
  let target := copy_target m src dst in
  match read_file m src with
  | None => Raise (OSError src)
  | Some c =>
      if String.eqb src target then Raise (SameFileError src)
      else if isdir m target || String.eqb (OsPath.basename target) ""
      then Raise (OSError target)
      else Ok (<[target := File c]> m)
  end.

End Os.

(* ===================================================================== *)
(** ** External programs                                                  *)
(* ===================================================================== *)

(** What the program does not decide itself: the answer of a command run
    for its output ([None]: non-zero exit status), the effect of a command
    run for its effect, [os.path.relpath], and what [dpkg -L libc6]
    prints.  [_libc6_links] is wrapped in [functools.lru_cache(maxsize=1)],
    so the last is one value for the whole run. *)
Record env : Type := Env {
  tool_output : list string -> filesystem -> option string;
  tool_call : list string -> filesystem -> option filesystem;
  relpath : string -> string -> string;
  dpkg_L_libc6 : option string
}.

(** [subprocess.check_output(cmd).decode()] *)
Definition check_output (E : env) (cmd : list string) (w : world)
    : result string :=
  match tool_output E cmd (fs w) with
  | Some out => Ok out
  | None => Raise (CalledProcessError cmd)
  end.

(** [subprocess.check_call(cmd)] *)
Definition check_call (E : env) (cmd : list string) (w : world)
    : result world :=
  match tool_call E cmd (fs w) with
  | Some m => Ok (World m (calls w ++ [cmd]) (copied w))
  | None => Raise (CalledProcessError cmd)
  end.

(* ===================================================================== *)
(** ** Linux: [ldd] and [patchelf]                                        *)
(* ===================================================================== *)

(** [_libc6_links]: the lines of [dpkg -L libc6] that start with [/lib/]
    and contain [.so]. *)
Definition libc6_filter (out : string) : gset string :=
  list_to_set
    (List.filter
       (fun line => Str.startswith line "/lib/" && Str.contains ".so" line)
       (Str.splitlines out)).

Definition _libc6_links (E : env) : result (gset string) :=
  match dpkg_L_libc6 E with
  | Some out => Ok (libc6_filter out)
  | None => Raise (CalledProcessError ["dpkg"; "-L"; "libc6"])
  end.

(** [LDD_LINE = re.compile(r'^[^ ]+ => ([^ ]+) \([^(]+\)$')] *)
Definition LDD_LINE : list Re.atom :=
  [Re.Plus Re.not_space] ++ Re.lits " => " ++ [Re.GroupPlus Re.not_space]
  ++ Re.lits " (" ++ [Re.Plus Re.not_lparen] ++ Re.lits ")" ++ [Re.Dollar].

Definition ldd_skipped_prefixes : list string :=
  ["linux-vdso.so.1 "; "/lib/ld-linux-"; "/lib64/ld-linux-"].

(** The loop of [_linux_linked] over the lines of the [ldd] output. *)
Fixpoint linux_lines (ignored : gset string) (lines ret : list string)
    : result (list string) :=
  match lines with
  | [] => Ok ret
  | line0 :: rest =>
      let line := Str.strip line0 in
      match Re.rmatch LDD_LINE line with
      | None =>
          if String.eqb line "statically linked"
          then linux_lines ignored rest ret
          else if Str.startswith_any line ldd_skipped_prefixes
          then linux_lines ignored rest ret
          else Raise (AssertionError
                        ("unexpected ldd line:" +:+ Str.LF +:+ Str.LF +:+ line))
      | Some m =>
          if bool_decide (m ∉ ignored)
          then linux_lines ignored rest (ret ++ [m])
          else linux_lines ignored rest ret
      end
  end.

Definition _linux_linked (E : env) (w : world) (filename : string)
    : result (list string) :=
  let* ignored := _libc6_links E in
  let* out := check_output E ["ldd"; filename] w in
  linux_lines ignored (Str.splitlines out) [].

Definition _linux_relink (E : env) (filename libdir : string)
    (set_name : bool) (w : world) : result world :=
  let origin :=
    "$ORIGIN/" +:+ relpath E libdir (OsPath.dirname filename) in
  check_call E ["patchelf"; "--force-rpath"; "--set-rpath"; origin; filename] w.

(* ===================================================================== *)
(** ** Darwin: [otool], [install_name_tool] and [codesign]                *)
(* ===================================================================== *)

(** [OTOOL_L_LINE = re.compile(r'\s+(.+) \(compatibility .*, current .*\)$')] *)
Definition OTOOL_L_LINE : list Re.atom :=
  [Re.Plus Str.is_space; Re.GroupPlus Re.dot] ++ Re.lits " (compatibility "
  ++ [Re.Star Re.dot] ++ Re.lits ", current " ++ [Re.Star Re.dot]
  ++ Re.lits ")" ++ [Re.Dollar].

(** The loop of [_darwin_linked] over the lines after the first. *)
Fixpoint darwin_lines (m : filesystem) (filename : string)
    (lines ret : list string) : result (list string) :=
  match lines with
  | [] => Ok ret
  | line :: rest =>
      match Re.rmatch OTOOL_L_LINE line with
      | None =>
          Raise (AssertionError
                   ("unexpected otool output:" +:+ Str.LF +:+ Str.LF +:+ line))
      | Some l =>
          if String.eqb l filename then darwin_lines m filename rest ret
          else if Os.isfile m l
          then darwin_lines m filename rest (ret ++ [l])
          else darwin_lines m filename rest ret
      end
  end.

(** What [_darwin_linked] does with the text [otool -L] printed. *)
Definition darwin_parse (m : filesystem) (filename out : string)
    : result (list string) :=
  match Str.splitlines out with
  | [] => Raise IndexError
  | first :: rest =>
      if negb (String.eqb first (filename +:+ ":"))
      then Raise (AssertionError
                    ("unexpected otool output:" +:+ Str.LF +:+ Str.LF +:+ out))
      else darwin_lines m filename rest []
  end.

Definition _darwin_linked (E : env) (w : world) (filename : string)
    : result (list string) :=
  let* out := check_output E ["otool"; "-L"; filename] w in
  darwin_parse (fs w) filename out.

(** The [for link in _darwin_linked(filename)] loop of [_darwin_relink]. *)
Fixpoint darwin_change_all (E : env) (filename libdir dirname : string)
    (links : list string) (w : world) : result world :=
  match links with
  | [] => Ok w
  | link :: rest =>
      let soname := OsPath.basename link in
      let libdir_so := OsPath.join libdir soname in
      let new := "@loader_path/" +:+ relpath E libdir_so dirname in
      let* w' :=
        check_call E ["install_name_tool"; "-change"; link; new; filename] w in
      darwin_change_all E filename libdir dirname rest w'
  end.

Definition _darwin_relink (E : env) (filename libdir : string)
    (set_name : bool) (w : world) : result world :=
  let '(dirname, basename) := OsPath.split filename in
  let* w1 :=
    (if set_name
     then check_call E
            ["install_name_tool"; "-id"; "@loader_path/" +:+ basename; filename]
            w
     else Ok w) in
  let* links := _darwin_linked E w1 filename in
  let* w2 := darwin_change_all E filename libdir dirname links w1 in
  check_call E ["codesign"; "--force"; "--sign"; "-"; filename] w2.

(* ===================================================================== *)
(** ** The platform table and the closure walk                            *)
(* ===================================================================== *)

(** The two members of [Platform] the walk uses. *)
Record Platform : Type := MkPlatform {
  linked : world -> string -> result (list string);
  relink : string -> string -> bool -> world -> result world
}.

Definition linux (E : env) : Platform :=
  MkPlatform (_linux_linked E) (_linux_relink E).

Definition darwin (E : env) : Platform :=
  MkPlatform (_darwin_linked E) (_darwin_relink E).

(** The first loop of [_relink_1]: copy what is not yet in [libdir] and
    remember it in [to_link]. *)
Fixpoint copy_missing (libdir : string) (links : list string) (w : world)
    (to_link : list string) : result (world * list string) :=
  match links with
  | [] => Ok (w, to_link)
  | link :: rest =>
      let soname := OsPath.basename link in
      let libdir_so := OsPath.join libdir soname in
      if negb (Os.exists_ (fs w) libdir_so) then
        let* m := Os.copy link libdir (fs w) in
        copy_missing libdir rest
          (World m (calls w)
             (copied w ++ [(link, Os.copy_target (fs w) link libdir)]))
          (to_link ++ [libdir_so])
      else copy_missing libdir rest w to_link
  end.

(** The second loop of [_relink_1], over a walk [rec] for one file.
    [None] means that [rec] did not return. *)
Fixpoint relink_each (rec : world -> string -> option (result world))
    (to_link : list string) (w : world) : option (result world) :=
  match to_link with
  | [] => Some (Ok w)
  | libdir_so :: rest =>
      match rec w libdir_so with
      | None => None
      | Some (Raise e) => Some (Raise e)
      | Some (Ok w') => relink_each rec rest w'
      end
  end.

(** [_relink_1(filename, libdir, set_name=...)], with a bound [fuel] on
    the depth of the recursion; [None] when the bound is reached. *)
Fixpoint _relink_1 (plat : Platform) (fuel : nat) (libdir : string)
    (set_name : bool) (w : world) (filename : string)
    : option (result world) :=
  match fuel with
  | 0 => None
  | S fuel' =>
      match linked plat w filename with
      | Raise e => Some (Raise e)
      | Ok links =>
          match relink plat filename libdir set_name w with
          | Raise e => Some (Raise e)
          | Ok w1 =>
              match copy_missing libdir links w1 [] with
              | Raise e => Some (Raise e)
              | Ok (w2, to_link) =>
                  relink_each (_relink_1 plat fuel' libdir true) to_link w2
              end
          end
      end
  end.

(* ===================================================================== *)
(** ** What the proofs assume of the external programs                    *)
(* ===================================================================== *)

Inductive kind : Type := KNone | KDir | KFile.

Definition kind_of (n : option node) : kind :=
  match n with
  | None => KNone
  | Some Dir => KDir
  | Some (File _) => KFile
  end.

(** A platform whose relinker rewrites the named file in place and copies
    nothing, and whose inspector answers only for regular files. *)
Class PlatformLaws (plat : Platform) : Prop := {
  relink_frame : forall f d b w w' p,
    relink plat f d b w = Ok w' -> p <> f -> fs w' !! p = fs w !! p;
  relink_kind : forall f d b w w',
    relink plat f d b w = Ok w' -> kind_of (fs w' !! f) = kind_of (fs w !! f);
  relink_copied : forall f d b w w',
    relink plat f d b w = Ok w' -> copied w' = copied w;
  linked_isfile : forall w f l,
    linked plat w f = Ok l -> Os.isfile (fs w) f = true
}.

(** The same for the programs themselves: a command run for its effect
    rewrites in place the file named by its last argument, and [ldd] and
    [otool -L] fail on what is not a regular file. *)
Class EnvLaws (E : env) : Prop := {
  call_frame : forall cmd m m' p,
    tool_call E cmd m = Some m' -> List.last cmd "" <> p -> m' !! p = m !! p;
  call_kind : forall cmd m m',
    tool_call E cmd m = Some m' ->
    kind_of (m' !! List.last cmd "") = kind_of (m !! List.last cmd "");
  ldd_isfile : forall f m out,
    tool_output E ["ldd"; f] m = Some out -> Os.isfile m f = true;
  otool_isfile : forall f m out,
    tool_output E ["otool"; "-L"; f] m = Some out -> Os.isfile m f = true
}.

(** The base names of the regular files of a file system, and those of
    them that [libdir] does not hold yet: the walk can still copy only
    these. *)
Definition file_names (m : filesystem) : gset string :=
  list_to_set
    (omap (fun kn : string * node =>
             match kn.2 with
             | File _ => Some (OsPath.basename kn.1)
             | Dir => None
             end)
          (map_to_list m)).

Definition missing (libdir : string) (m : filesystem) : gset string :=
  filter (fun s => m !! OsPath.join libdir s = None) (file_names m).

Fixpoint no_slash (s : string) : bool :=
  match s with
  | String c s' => negb (OsPath.is_slash c) && no_slash s'
  | EmptyString => true
  end.

(* ===================================================================== *)
(** ** Reading the inspectors' loops                                      *)
(* ===================================================================== *)

Arguments Re.rmatch : simpl never.
Arguments Str.strip : simpl never.
Arguments Str.splitlines : simpl never.
Arguments Str.startswith_any : simpl never.
Arguments OsPath.basename : simpl never.
Arguments OsPath.join : simpl never.
Arguments OsPath.dirname : simpl never.

(** What one line of [ldd] output adds to the result. *)
Definition arrow_target (ignored : gset string) (line0 : string)
    : list string :=
  match Re.rmatch LDD_LINE (Str.strip line0) with
  | Some m => if bool_decide (m ∉ ignored) then [m] else []
  | None => []
  end.

(** A stripped line that [_linux_linked] has no branch for. *)
Definition linux_unrecognized (line : string) : bool :=
  match Re.rmatch LDD_LINE line with
  | Some _ => false
  | None =>
      negb (String.eqb line "statically linked")
      && negb (Str.startswith_any line ldd_skipped_prefixes)
  end.


(** What one line of [otool -L] output adds to the result. *)
Definition darwin_target (m : filesystem) (filename line : string)
    : list string :=
  match Re.rmatch OTOOL_L_LINE line with
  | Some l =>
      if String.eqb l filename then []
      else if Os.isfile m l then [l] else []
  | None => []
  end.

(** Output of [otool -L] that [_darwin_linked] has no branch for: no first
    line, a first line other than [<filename>:], or a later line that
    [OTOOL_L_LINE] does not match. *)
Definition darwin_unrecognized (filename out : string) : Prop :=
  match Str.splitlines out with
  | [] => True
  | first :: rest =>
      first <> filename +:+ ":" \/
      exists line, line ∈ rest /\ Re.rmatch OTOOL_L_LINE line = None
  end.

(** The two exclusions as the specification words them, for one run of the
    Linux inspector: nothing of the exclusion set is returned, and the
    path of a line that starts as a vdso or loader line is not returned
    either. *)
Definition excludes_base_system (E : env) (w : world) (f : string)
    (l : list string) : Prop :=
  forall ignored, _libc6_links E = Ok ignored ->
  forall p, p ∈ ignored -> p ∉ l.

Definition excludes_loader_lines (E : env) (w : world) (f : string)
    (l : list string) : Prop :=
  forall out line0 p,
    tool_output E ["ldd"; f] (fs w) = Some out ->
    line0 ∈ Str.splitlines out ->
    Str.startswith_any (Str.strip line0) ldd_skipped_prefixes = true ->
    Re.rmatch LDD_LINE (Str.strip line0) = Some p ->
    p ∉ l.

(** Every returned path is a regular file on disk. *)
Definition returns_files_on_disk (plat : Platform) : Prop :=
  forall w f l p,
    linked plat w f = Ok l -> p ∈ l -> Os.isfile (fs w) p = true.

(** [w'] differs from [w] at most in the bytes of the file [f]. *)
Definition inplace (f : string) (m m' : filesystem) : Prop :=
  (forall p, p <> f -> m' !! p = m !! p) /\
  kind_of (m' !! f) = kind_of (m !! f).

(** The commands [_darwin_relink] runs for the references [links]. *)
Definition darwin_change_cmd (E : env) (filename libdir : string)
    (link : string) : list string :=
  ["install_name_tool"; "-change"; link;
   "@loader_path/"
   +:+ relpath E (OsPath.join libdir (OsPath.basename link))
         (OsPath.dirname filename);
   filename].

Definition darwin_id_cmd (filename : string) : list string :=
  ["install_name_tool"; "-id";
   "@loader_path/" +:+ OsPath.basename filename; filename].

Definition codesign_cmd (filename : string) : list string :=
  ["codesign"; "--force"; "--sign"; "-"; filename].

Definition patchelf_cmd (E : env) (filename libdir : string) : list string :=
  ["patchelf"; "--force-rpath"; "--set-rpath";
   "$ORIGIN/" +:+ relpath E libdir (OsPath.dirname filename); filename].

(** Commands of the rewrite tools, as opposed to [codesign]. *)
Definition is_rewrite (cmd : list string) : bool :=
  match cmd with
  | tool :: _ =>
      String.eqb tool "patchelf" || String.eqb tool "install_name_tool"
  | [] => false
  end.

(** The rewrite-tool contract as the specification words it: one command
    per reference the inspector reports, and one more for the identity
    when it is asked for. *)
Definition one_rewrite_per_reference (plat : Platform) : Prop :=
  forall w f libdir set_name links w',
    linked plat w f = Ok links ->
    relink plat f libdir set_name w = Ok w' ->
    exists new,
      calls w' = calls w ++ new /\
      length (List.filter is_rewrite new)
      = length links + (if set_name : bool then 1 else 0).

(** The walk from [filename] returns: from some bound on, every bound
    gives the same result, a world or an exception. *)
Definition walk_returns (plat : Platform) (libdir : string)
    (set_name : bool) (w : world) (filename : string) : Prop :=
  exists fuel r,
    forall fuel', fuel <= fuel' ->
      _relink_1 plat fuel' libdir set_name w filename = Some r.

(** The names of the entries directly inside the directory [d]. *)
Definition listdir (m : filesystem) (d : string) : gset string :=
  list_to_set
    (omap (fun kn : string * node =>
             let s := OsPath.basename kn.1 in
             if negb (String.eqb s "") && String.eqb (OsPath.join d s) kn.1
             then Some s else None)
          (map_to_list m)).

(** The dependency graph of [root] as the inspector sees it in [w]: the
    libraries [root] refers to, directly or through other libraries. *)
Inductive reach (plat : Platform) (w : world) (root : string)
    : string -> Prop :=
| reach_direct l q :
    linked plat w root = Ok l -> q ∈ l -> reach plat w root q
| reach_step p l q :
    reach plat w root p -> linked plat w p = Ok l -> q ∈ l ->
    reach plat w root q.

(** [names] is the set of the distinct base names of that graph. *)
Definition graph_names (plat : Platform) (w : world) (root : string)
    (names : gset string) : Prop :=
  forall s, s ∈ names <->
            exists q, reach plat w root q /\ OsPath.basename q = s.

(** The files relinked so far, in order: the last argument of each
    command of the rewrite tools. *)
Definition relinked (w : world) : list string :=
  map (fun cmd => List.last cmd "") (List.filter is_rewrite (calls w)).

(** Every path of [m] is still a path of [m']. *)
Definition grows (m m' : filesystem) : Prop :=
  forall p, is_Some (m !! p) -> is_Some (m' !! p).

(** The copies [new], made between [m] and [m'], each wrote a library
    under its base name in [libdir], where [m] had nothing, and no two of
    them wrote the same path. *)
Definition fresh_copies (libdir : string) (m m' : filesystem)
    (new : list (string * string)) : Prop :=
  NoDup (map snd new) /\
  Forall (fun st : string * string =>
            st.2 = OsPath.join libdir (OsPath.basename st.1) /\
            m !! st.2 = None /\ is_Some (m' !! st.2)) new.

(** What a walk from [f] that took [w] to [w'] leaves as it was: every
    path that existed, but for the bytes of [f] itself. *)
Definition walk_frame (libdir f : string) (w w' : world) : Prop :=
  Os.isdir (fs w') libdir = true /\
  (forall p, p <> f -> is_Some (fs w !! p) -> fs w' !! p = fs w !! p) /\
  kind_of (fs w' !! f) = kind_of (fs w !! f) /\
  exists new, copied w' = copied w ++ new
              /\ fresh_copies libdir (fs w) (fs w') new.

(** The second loop of a walk, read off the log: the queued libraries
    [to_link] are walked one after the other, the walk of each taking
    the world the one before left, and [segs] holds, for each, the files
    its walk relinked. *)
Inductive segments (rec : world -> string -> option (result world))
    : list string -> world -> list (list string) -> world -> Prop :=
| segments_nil w : segments rec [] w [] w
| segments_cons x rest w w1 w' seg segs :
    rec w x = Some (Ok w1) ->
    relinked w1 = relinked w ++ seg ->
    segments rec rest w1 segs w' ->
    segments rec (x :: rest) w (seg :: segs) w'.

(** Closure completeness as the specification words it: after a walk
    into an empty directory, the directory has as many entries as the
    dependency graph has base names. *)
Definition closure_complete (plat : Platform) : Prop :=
  forall libdir root w fuel w' names,
    Os.isdir (fs w) libdir = true ->
    listdir (fs w) libdir = ∅ ->
    graph_names plat w root names ->
    _relink_1 plat fuel libdir false w root = Some (Ok w') ->
    size (listdir (fs w') libdir) = size names.

(** An inspector whose report for a file depends on the bytes of the file
    alone, and is the same after the file has been relinked. *)
Class StableInspector (plat : Platform) : Prop := {
  linked_bytes : forall w w' f f' c,
    Os.read_file (fs w) f = Some c -> Os.read_file (fs w') f' = Some c ->
    linked plat w f = linked plat w' f';
  linked_relink : forall f d b w w',
    relink plat f d b w = Ok w' -> linked plat w' f = linked plat w f
}.

(** The state of a walk that began in [w0], seen from the dependency
    graph of [root]: the files of [w0] are inspected as in [w0], and
    every entry of [libdir] is a copy of a library of the graph, under
    its base name and inspected as that library was. *)
Definition walk_inv (plat : Platform) (libdir root : string) (w0 w : world)
    : Prop :=
  Os.isdir (fs w) libdir = true /\
  (forall p, Os.isfile (fs w0) p = true ->
             Os.isfile (fs w) p = true /\ linked plat w p = linked plat w0 p) /\
  (forall s, s ∈ listdir (fs w) libdir ->
             Os.isfile (fs w) (OsPath.join libdir s) = true /\
             exists q, reach plat w0 root q /\ OsPath.basename q = s /\
                       linked plat w (OsPath.join libdir s)
                       = linked plat w0 q).

(** [libdir] holds in [w] the base names of all references of [q]. *)
Definition covered (plat : Platform) (libdir : string) (w0 w : world)
    (q : string) : Prop :=
  forall l q', linked plat w0 q = Ok l -> q' ∈ l ->
               OsPath.basename q' ∈ listdir (fs w) libdir.

(** What a walk from [w] to [w'] for the library [q0] has achieved. *)
Definition walk_post (plat : Platform) (libdir root : string)
    (w0 w : world) (q0 : string) (w' : world) : Prop :=
  walk_inv plat libdir root w0 w' /\
  listdir (fs w) libdir ⊆ listdir (fs w') libdir /\
  covered plat libdir w0 w' q0 /\
  forall s, s ∈ listdir (fs w') libdir -> s ∉ listdir (fs w) libdir ->
            forall q, reach plat w0 root q -> OsPath.basename q = s ->
                      covered plat libdir w0 w' q.

(* ===================================================================== *)
(** ** A small simulated tool set, to run the program on examples         *)
(* ===================================================================== *)

Module Sim.

(** A simulated binary is a header line, which the rewrite tools
    replace, and the text the introspection tool prints for it. *)
Fixpoint split_header (s : string) : string * string :=
  match s with
  | String c s' =>
      if Nat.eqb (Str.ord c) 10 then ("", s')
      else let '(h, b) := split_header s' in (String c h, b)
  | EmptyString => ("", "")
  end.

Definition body (bytes : string) : string := (split_header bytes).2.

Fixpoint unwords (ws : list string) : string :=
  match ws with
  | [] => ""
  | [w] => w
  | w :: ws' => w +:+ " " +:+ unwords ws'
  end.

Definition output (cmd : list string) (m : filesystem) : option string :=
  match cmd with
  | ["ldd"; f] =>
      match Os.read_file m f with
      | Some c => Some (body c)
      | None => None
      end
  | ["otool"; "-L"; f] =>
      match Os.read_file m f with
      | Some c => Some (f +:+ ":" +:+ Str.LF +:+ body c)
      | None => None
      end
  | _ => None
  end.

Fixpoint one_line (s : string) : string :=
  match s with
  | String c s' =>
      if Nat.eqb (Str.ord c) 10 then one_line s' else String c (one_line s')
  | EmptyString => ""
  end.

(** A rewrite tool puts its command line in the header and leaves the
    rest of the file as it is. *)
Definition rewrite (cmd : list string) (bytes : string) : string :=
  one_line (unwords cmd) +:+ Str.LF +:+ body bytes.

Definition call (cmd : list string) (m : filesystem) : option filesystem :=
  let f := List.last cmd "" in
  match Os.read_file m f with
  | Some c => Some (<[f := File (rewrite cmd c)]> m)
  | None => None
  end.

Definition dpkg_out : string :=
  "/lib/x86_64-linux-gnu" +:+ Str.LF +:+
  "/lib/x86_64-linux-gnu/libc.so.6" +:+ Str.LF +:+
  "/lib/x86_64-linux-gnu/libm.so.6" +:+ Str.LF +:+
  "/lib/x86_64-linux-gnu/ld-linux-x86-64.so.2" +:+ Str.LF +:+
  "/usr/share/doc/libc6/NEWS.gz" +:+ Str.LF.

Definition tools : env :=
  Env output call (fun path start => path) (Some dpkg_out).

(** One line of [ldd] output, and one of [otool -L]. *)
Definition ldd_line (name path : string) : string :=
  Str.TAB +:+ name +:+ " => " +:+ path +:+ " (0x00007f0a)" +:+ Str.LF.

Definition otool_line (path : string) : string :=
  Str.TAB +:+ path
  +:+ " (compatibility version 1.0.0, current version 1.0.0)" +:+ Str.LF.

Fixpoint concat (ss : list string) : string :=
  match ss with
  | [] => ""
  | s :: ss' => s +:+ concat ss'
  end.

(** A binary that has not been rewritten, printing [lines]. *)
Definition binary (lines : list string) : node :=
  File (Str.LF +:+ concat lines).

Definition start (m : filesystem) : world := World m [] [].

End Sim.

(** Example file systems. *)
Module Ex.

Definition tool : string := "/opt/app/bin/tool".

(** A binary whose [ldd] output names the loader in arrow form, as on
    systems where [/lib64] is a link into [/usr]. *)
Definition loader_arrow : world :=
  Sim.start
    {[ tool :=
         Sim.binary
           [Sim.ldd_line "libc.so.6" "/lib/x86_64-linux-gnu/libc.so.6";
            Sim.ldd_line "/lib64/ld-linux-x86-64.so.2"
              "/usr/lib64/ld-linux-x86-64.so.2"] ]}.

(** A binary with one system and one other library, the latter not on
    disk. *)
Definition libz_absent : world :=
  Sim.start
    {[ tool :=
         Sim.binary
           [Str.TAB +:+ "linux-vdso.so.1 (0x00007ffc)" +:+ Str.LF;
            Sim.ldd_line "libz.so.1" "/usr/local/lib/libz.so.1";
            Sim.ldd_line "libc.so.6" "/lib/x86_64-linux-gnu/libc.so.6";
            Str.TAB +:+ "/lib64/ld-linux-x86-64.so.2 (0x00007f0b)"
            +:+ Str.LF] ]}.

(** A binary with a library that the loader did not find. *)
Definition libz_not_found : world :=
  Sim.start
    {[ tool := Sim.binary [Str.TAB +:+ "libz.so.1 => not found" +:+ Str.LF] ]}.

Definition libssl : string := "/opt/homebrew/lib/libssl.1.1.dylib".
Definition libcrypto : string := "/opt/homebrew/lib/libcrypto.1.1.dylib".

(** A dylib that [otool -L] lists under its own path, with a library on
    disk and a system library that is not. *)
Definition self_linked : world :=
  Sim.start
    (<[ libssl :=
          Sim.binary
            [Sim.otool_line libssl; Sim.otool_line libcrypto;
             Sim.otool_line "/usr/lib/libSystem.B.dylib"] ]>
     {[ libcrypto := Sim.binary [Sim.otool_line "/usr/lib/libSystem.B.dylib"] ]}).

(** A Mach-O file followed by a line that is no load command. *)
Definition otool_garbage : world :=
  Sim.start
    {[ libssl := Sim.binary [Sim.otool_line libcrypto;
                             "Archive : libssl.a" +:+ Str.LF] ]}.

(** A Linux binary with two libraries outside the base system. *)
Definition two_libs : world :=
  Sim.start
    (<[ tool :=
          Sim.binary
            [Sim.ldd_line "libz.so.1" "/usr/local/lib/libz.so.1";
             Sim.ldd_line "libffi.so.8" "/usr/local/lib/libffi.so.8";
             Sim.ldd_line "libc.so.6" "/lib/x86_64-linux-gnu/libc.so.6"] ]>
     (<[ "/usr/local/lib/libz.so.1" := Sim.binary [] ]>
      {[ "/usr/local/lib/libffi.so.8" := Sim.binary [] ]})).

(** Linux binaries for the walk: a binary with the references [deps],
    each printed by [ldd] under its base name. *)
Definition elf (deps : list string) : node :=
  Sim.binary (map (fun p => Sim.ldd_line (OsPath.basename p) p) deps).

Definition libdir : string := "/opt/app/lib".
Definition liba : string := "/usr/local/lib/liba.so".
Definition libb : string := "/usr/local/lib/libb.so".
Definition libc : string := "/usr/local/lib/libc++.so".

Definition install (files : list (string * list string)) : world :=
  Sim.start
    (foldr (fun f m => <[f.1 := elf f.2]> m) {[ libdir := Dir ]} files).

(** Two libraries that refer to each other. *)
Definition cyclic : world :=
  install [(tool, [liba]); (liba, [libb]); (libb, [liba])].

(** The first reference has a reference of its own. *)
Definition nested : world :=
  install [(tool, [liba; libb]); (liba, [libc]); (libb, []); (libc, [])].

(** Both the binary and its first reference refer to [libb]. *)
Definition diamond : world :=
  install [(tool, [liba; libb]); (liba, [libb]); (libb, [])].

(** The same, with a file of the name of [libb] in [libdir] before the
    walk. *)
Definition prefilled : world :=
  Sim.start (<["/opt/app/lib/libb.so" := File "kept"]> (fs diamond)).

(** Two libraries with one base name and different references. *)
Definition libx1 : string := "/opt/one/lib/libx.so".
Definition libx2 : string := "/opt/two/lib/libx.so".
Definition liby : string := "/opt/one/lib/liby.so".
Definition libz : string := "/opt/two/lib/libz.so".

Definition collision : world :=
  install [(tool, [libx1; libx2]); (libx1, [liby]); (libx2, [libz]);
           (liby, []); (libz, [])].

End Ex.

(* ===================================================================== *)
(** ** Versions and archive names                                         *)
(* ===================================================================== *)

From Stdlib Require DecimalString DecimalZ DecimalPos.

(** The exceptions of the code below, and its results. *)
Inductive pyerr : Type :=
| ValueError
| FileNotFoundError (path : string)
| NotADirectoryError (path : string)
| ProcessError (cmd : list string)
| WalkError (e : exn).

Inductive answer (A : Type) : Type :=
| Returns (a : A)
| Throws (e : pyerr).

Arguments Returns {A} a.
Arguments Throws {A} e.

Module Py.

(** [str(n)] for an [int], which is also what an f-string prints. *)
Definition str (n : Z) : string :=
  DecimalString.NilZero.string_of_int (Z.to_int n).

Definition is_digit (c : ascii) : bool :=
  Nat.leb 48 (Str.ord c) && Nat.leb (Str.ord c) 57.

Definition is_underscore (c : ascii) : bool := Ascii.eqb c "_".

(** The digits of an [int] literal given as text: at least one digit, and
    single underscores between digits only. *)
Fixpoint digits_ok (s : string) (after_digit : bool) : bool :=
  match s with
  | String c s' =>
      if is_digit c then digits_ok s' true
      else if is_underscore c then after_digit && digits_ok s' false
      else false
  | EmptyString => after_digit
  end.

Fixpoint without_underscores (s : string) : string :=
  match s with
  | String c s' =>
      if is_underscore c then without_underscores s'
      else String c (without_underscores s')
  | EmptyString => ""
  end.

Definition digits_value (s : string) : option Z :=
  if digits_ok s false then
    match DecimalString.NilEmpty.uint_of_string (without_underscores s) with
    | Some d => Some (Z.of_uint d)
    | None => None
    end
  else None.

(** [int(s)] for a [str], base ten: white space around, a sign, digits;
    [None] is [ValueError]. *)
Definition int (s : string) : option Z :=
  match Str.strip s with
  | String c r =>
      if Ascii.eqb c "-" then option_map Z.opp (digits_value r)
      else if Ascii.eqb c "+" then digits_value r
      else digits_value (String c r)
  | EmptyString => None
  end.

(** [s.split(sep)] for a separator of one character. *)
Fixpoint split_from (sep : ascii) (s cur : string) : list string :=
  match s with
  | String c s' =>
      if Ascii.eqb c sep then cur :: split_from sep s' ""
      else split_from sep s' (Str.snoc cur c)
  | EmptyString => [cur]
  end.

Definition split (sep : ascii) (s : string) : list string :=
  split_from sep s "".

(** [s.replace(a, b)] for single characters. *)
Fixpoint replace (a b : ascii) (s : string) : string :=
  match s with
  | String c s' => String (if Ascii.eqb c a then b else c) (replace a b s')
  | EmptyString => ""
  end.

(** [sep.join(parts)] *)
Fixpoint join (sep : string) (parts : list string) : string :=
  match parts with
  | [] => ""
  | [p] => p
  | p :: rest => p +:+ sep +:+ join sep rest
  end.

End Py.

(** [class Version(NamedTuple)] *)
Record Version : Type := MkVersion {
  major : Z;
  minor : Z;
  patch : Z
}.

(** [Version.py_minor] *)
Definition py_minor (v : Version) : string :=
  "python" +:+ Py.str (major v) +:+ "." +:+ Py.str (minor v).

(** [Version.s] *)
Definition Version_s (v : Version) : string :=
  Py.str (major v) +:+ "." +:+ Py.str (minor v) +:+ "." +:+ Py.str (patch v).

(** [Version.parse] *)
Definition Version_parse (s : string) : answer Version :=
  match Py.split "." s with
  | [major_s; minor_s; patch_s] =>
      match Py.int major_s, Py.int minor_s, Py.int patch_s with
      | Some a, Some b, Some c => Returns (MkVersion a b c)
      | _, _, _ => Throws ValueError
      end
  | _ => Throws ValueError
  end.

(** [_linux_archive_name], given the second component of
    [platform.libc_ver()] and [platform.machine()]. *)
Definition _linux_archive_name (libc machine : string) (version : Version)
    : string :=
  let libc := Py.replace "." "_" libc in
  "python-" +:+ Version_s version +:+ "-manylinux_" +:+ libc +:+ "_"
  +:+ machine +:+ ".tgz".

(** [_darwin_archive_name], given the first component of
    [platform.mac_ver()] and [platform.machine()]. *)
Definition _darwin_archive_name (macos machine : string) (version : Version)
    : answer string :=
  match Py.split "." macos with
  | major :: minor :: _ =>
      match Py.int major with
      | None => Throws ValueError
      | Some n =>
          let minor := if Z.leb 11 n then "0" else minor in
          let macos := major +:+ "_" +:+ minor in
          Returns ("python-" +:+ Version_s version +:+ "-macosx_" +:+ macos
                   +:+ "_" +:+ machine +:+ ".tgz")
      end
  | _ => Throws ValueError
  end.

(** Every character of [s] satisfies [P]. *)
Fixpoint all_chars (P : ascii -> bool) (s : string) : bool :=
  match s with
  | String c s' => P c && all_chars P s'
  | EmptyString => true
  end.

(** The number of occurrences of the character [a] in [s]. *)
Fixpoint count_char (a : ascii) (s : string) : nat :=
  match s with
  | String c s' => (if Ascii.eqb c a then 1 else 0) + count_char a s'
  | EmptyString => 0
  end.

(** Lines of the shape that [LDD_LINE] describes:
    [<name> => <path> (<address>)], possibly with a final line feed. *)
Definition ldd_arrow_line (line path : string) : Prop :=
  exists name addr tail,
    line = name +:+ " => " +:+ path +:+ " (" +:+ addr +:+ ")" +:+ tail /\
    (tail = "" \/ tail = Str.LF) /\
    name <> "" /\ all_chars Re.not_space name = true /\
    path <> "" /\ all_chars Re.not_space path = true /\
    addr <> "" /\ all_chars Re.not_lparen addr = true.

(** [s] does not begin with a character of the class [cls]. *)
Definition stops (cls : ascii -> bool) (s : string) : Prop :=
  match s with
  | String c _ => cls c = false
  | EmptyString => True
  end.

(** Lines of the shape that [OTOOL_L_LINE] describes: white space, a
    path, and the two versions in brackets at the end of the line. *)
Definition otool_load_line (line path : string) : Prop :=
  exists ws compat current tail,
    line = ws +:+ path +:+ " (compatibility " +:+ compat +:+ ", current "
           +:+ current +:+ ")" +:+ tail /\
    (tail = "" \/ tail = Str.LF) /\
    ws <> "" /\ all_chars Str.is_space ws = true /\
    path <> "" /\ all_chars Re.dot path = true /\
    all_chars Re.dot compat = true /\ all_chars Re.dot current = true.

(* ===================================================================== *)
(** ** The result of a walk                                               *)
(* ===================================================================== *)

(** In [w], [libdir] has an entry of the base name of every reference
    the inspector reports for [x]. *)
Definition references_present (plat : Platform) (libdir : string)
    (w : world) (x : string) : Prop :=
  forall l link,
    linked plat w x = Ok l -> link ∈ l ->
    Os.exists_ (fs w) (OsPath.join libdir (OsPath.basename link)) = true.

(** Every regular file of [w] is one in [w'], and the inspector reports
    for it in [w'] what it reported in [w]. *)
Definition inspection_kept (plat : Platform) (w w' : world) : Prop :=
  forall p, Os.isfile (fs w) p = true ->
            Os.isfile (fs w') p = true /\ linked plat w' p = linked plat w p.

(* ===================================================================== *)
(** ** [_relink]: the interpreter and its extension modules               *)
(* ===================================================================== *)

(** [os.listdir(d)].  The order is that of the model's sets, where
    Python leaves it to the system. *)
Definition os_listdir (m : filesystem) (d : string) : answer (list string) :=
  match m !! d with
  | Some Dir => Returns (elements (listdir m d))
  | Some (File _) => Throws (NotADirectoryError d)
  | None => Throws (FileNotFoundError d)
  end.

Definition interpreter (prefix : string) (version : Version) : string :=
  OsPath.join (OsPath.join prefix "bin") (py_minor version).

Definition dyn_dir (prefix : string) (version : Version) : string :=
  OsPath.join (OsPath.join (OsPath.join prefix "lib") (py_minor version))
    "lib-dynload".

(** [_relink(prefix, version)], every walk with the bound [fuel]. *)
Definition _relink (plat : Platform) (fuel : nat) (prefix : string)
    (version : Version) (w : world) : option (answer world) :=
  let libdir := OsPath.join prefix "lib" in
  match _relink_1 plat fuel libdir false w (interpreter prefix version) with
  | None => None
  | Some (Raise e) => Some (Throws (WalkError e))
  | Some (Ok w1) =>
      match os_listdir (fs w1) (dyn_dir prefix version) with
      | Throws e => Some (Throws e)
      | Returns sos =>
          match relink_each
                  (fun w0 so =>
                     _relink_1 plat fuel libdir false w0
                       (OsPath.join (dyn_dir prefix version) so))
                  sos w1
          with
          | None => None
          | Some (Raise e) => Some (Throws (WalkError e))
          | Some (Ok w') => Some (Returns w')
          end
      end
  end.

(** An install prefix: the interpreter refers to [liba], the extension
    module [_ssl] to [liba] and [libb], and [liba] to [libb]. *)
Module Prefix.

Definition prefix : string := "/tmp/prefix".
Definition version : Version := MkVersion 3 8 13.

Definition installed : world :=
  Sim.start
    (<["/tmp/prefix/bin/python3.8" := Ex.elf [Ex.liba]]>
     (<["/tmp/prefix/lib/python3.8/lib-dynload/_ssl.so" :=
          Ex.elf [Ex.liba; Ex.libb]]>
      (<["/tmp/prefix/lib/python3.8/lib-dynload" := Dir]>
       (<["/tmp/prefix/lib/python3.8" := Dir]>
       (<["/tmp/prefix/lib" := Dir]>
        (<[Ex.liba := Ex.elf [Ex.libb]]> {[ Ex.libb := Ex.elf [] ]})))))).

End Prefix.

(* ===================================================================== *)
(** ** The environment of the build                                       *)
(* ===================================================================== *)

From stdpp Require Import sorting.

(** The variables that [_sanitize_environ] removes or sets. *)
Definition sanitized_variables : list string :=
  ["CFLAGS"; "CPPFLAGS"; "LDFLAGS"; "PKG_CONFIG_PATH";
   "HOMEBREW_NO_AUTO_UPDATE"; "PATH"].

(** [_sanitize_environ(environ)]; the dictionary that the code mutates is
    passed in and handed back. *)
Definition _sanitize_environ (environ : gmap string string)
    : gmap string string :=
  let environ :=
    foldl (fun environ k => delete k environ) environ
      ["CFLAGS"; "CPPFLAGS"; "LDFLAGS"; "PKG_CONFIG_PATH"] in
  let environ := <["HOMEBREW_NO_AUTO_UPDATE" := "1"]> environ in
  <["PATH" := "/usr/bin:/bin:/usr/sbin:/sbin"]> environ.

Definition BREW_LIBS : list string := ["ncurses"; "sqlite"; "xz"].

(** [_brew], given [platform.machine()]. *)
Definition _brew (machine : string) : string :=
  if String.eqb machine "arm64" then "/opt/homebrew/bin/brew"
  else "/usr/local/bin/brew".

(** [os.path.join(path, *parts)] *)
Definition joins (path : string) (parts : list string) : string :=
  foldl OsPath.join path parts.

Section Brew.

(** What a command prints when it is run in an environment; [None] is a
    non-zero exit status.  The child process inherits [os.environ]. *)
Variable run : list string -> gmap string string -> option string.
Variable machine : string.

(** [_brew_paths] for the packages [pkgs], run in [environ]. *)
Definition _brew_paths (pkgs : list string) (environ : gmap string string)
    : answer (list string) :=
  let cmd := _brew machine :: "--prefix" :: pkgs in
  match run cmd environ with
  | Some out => Returns (Str.splitlines out)
  | None => Throws (ProcessError cmd)
  end.

(** [_darwin_modify_env(environ)] *)
Definition _darwin_modify_env (environ : gmap string string)
    : answer (gmap string string) :=
  match _brew_paths BREW_LIBS environ with
  | Throws e => Throws e
  | Returns brew_paths =>
      let _paths parts := List.map (fun path => joins path parts) brew_paths in
      let environ :=
        <["CPPFLAGS" :=
            Py.join " " (List.map (fun path => "-I" +:+ path)
                           (_paths ["include"]))]> environ in
      let environ :=
        <["LDFLAGS" :=
            Py.join " " (List.map (fun path => "-L" +:+ path)
                           (_paths ["lib"]))]> environ in
      Returns (<["PKG_CONFIG_PATH" :=
                   Py.join ":" (_paths ["lib"; "pkgconfig"])]> environ)
  end.

End Brew.

(** [_linux_modify_env] *)
Definition _linux_modify_env (environ : gmap string string)
    : answer (gmap string string) :=
  Returns environ.

(** The two steps of [main] on the environment:
    [_sanitize_environ(os.environ)], then [plat.modify_env(os.environ)]. *)
Definition build_environ
    (modify_env : gmap string string -> answer (gmap string string))
    (environ : gmap string string) : answer (gmap string string) :=
  modify_env (_sanitize_environ environ).

(* ===================================================================== *)
(** ** [_clean]: the modules that are not shipped                         *)
(* ===================================================================== *)

(** [k] is [path] or a path below it. *)
Definition below (path k : string) : bool :=
  String.eqb k path || Str.startswith k (OsPath.join path "").

(** [shutil.rmtree(path)]: the directory goes with everything below it.
    A path that does not exist, or that is a regular file, raises. *)
Definition rmtree (path : string) (m : filesystem) : answer filesystem :=
  match m !! path with
  | Some Dir =>
      Returns (filter (fun kn : string * node => below path kn.1 = false) m)
  | Some (File _) => Throws (NotADirectoryError path)
  | None => Throws (FileNotFoundError path)
  end.

Definition clean_mod_paths : list (list string) :=
  [["idlelib"]; ["tkinter"]; ["test"]; ["ctypes"; "test"];
   ["distutils"; "tests"]; ["lib2to3"; "tests"]; ["unittest"; "test"];
   ["sqlite3"; "test"]].

(** [os.path.join(prefix, 'lib', version.py_minor, *mod_path)] *)
Definition mod_dir (prefix : string) (version : Version)
    (mod_path : list string) : string :=
  joins prefix ("lib" :: py_minor version :: mod_path).

(** The loop of [_clean]. *)
Fixpoint rmtrees (paths : list string) (m : filesystem)
    : answer filesystem :=
  match paths with
  | [] => Returns m
  | path :: rest =>
      match rmtree path m with
      | Returns m' => rmtrees rest m'
      | Throws e => Throws e
      end
  end.

Definition find_pyc_delete (prefix : string) : list string :=
  ["find"; prefix; "-name"; "*.pyc"; "-delete"].

(** [_clean(prefix, version)] *)
Definition _clean (E : env) (prefix : string) (version : Version)
    (w : world) : answer world :=
  match rmtrees (List.map (mod_dir prefix version) clean_mod_paths) (fs w) with
  | Throws e => Throws e
  | Returns m =>
      match check_call E (find_pyc_delete prefix)
              (World m (calls w) (copied w)) with
      | Ok w' => Returns w'
      | Raise _ => Throws (ProcessError (find_pyc_delete prefix))
      end
  end.

(* ===================================================================== *)
(** ** [_archive]: the members of the archive and their order             *)
(* ===================================================================== *)

Module PosixPath.

(** [s.rfind(c)] for a character [c], as a count from the left plus one:
    [0] when [c] does not occur. *)
Fixpoint rfind (c : ascii) (s : string) : nat :=
  match s with
  | String a s' =>
      match rfind c s' with
      | 0 => if Ascii.eqb a c then 1 else 0
      | S i => S (S i)
      end
  | EmptyString => 0
  end.

(** The loop of [genericpath._splitext] that skips leading dots: is there
    a character other than a dot among the [n] characters of [p] from
    index [i] on? *)
Fixpoint other_than_dot (p : string) (i n : nat) : bool :=
  match n with
  | 0 => false
  | S n' =>
      match String.get i p with
      | Some c => if Ascii.eqb c "." then other_than_dot p (S i) n' else true
      | None => true
      end
  end.

(** [os.path.splitext].  With [rfind] counting from one, [sepIndex + 1]
    and [dotIndex + 1] of the code are [rfind "/" p] and [rfind "." p]. *)
Definition splitext (p : string) : string * string :=
  let sep := rfind "/" p in
  let dot := rfind "." p in
  if Nat.ltb sep dot then
    if other_than_dot p sep (dot - 1 - sep)
    then (String.substring 0 (dot - 1) p,
          String.substring (dot - 1) (String.length p - (dot - 1)) p)
    else (p, "")
  else (p, "").

(** [s.partition('/')]: the text before the first slash, the slash if
    there is one, and the text after it. *)
Fixpoint partition_slash (s : string) : string * string * string :=
  match s with
  | String c s' =>
      if OsPath.is_slash c then ("", "/", s')
      else let '(a, sep, b) := partition_slash s' in (String c a, sep, b)
  | EmptyString => ("", "", "")
  end.

End PosixPath.

(** The order of Python on [str], by code point, and on tuples of two
    [str]. *)
Definition str_le (a b : string) : Prop := String.leb a b = true.

Definition arc_leb (x y : string * string) : bool :=
  match String.compare x.1 y.1 with
  | Lt => true
  | Eq => String.leb x.2 y.2
  | Gt => false
  end.

Definition arc_le (x y : string * string) : Prop := arc_leb x y = true.

Definition arc_le_dec (x y : string * string) : Decision (arc_le x y) :=
  decide (arc_leb x y = true).

#[global] Existing Instance arc_le_dec.

(** One triple of [os.walk]: a directory, the directories in it and the
    other entries in it. *)
Definition walk_triple : Type := string * list string * list string.

(** The pairs of a directory and an entry of it that [_archive] visits. *)
Definition walk_entries (walk : list walk_triple) : list (string * string) :=
  flat_map (fun t : walk_triple =>
              let '(root, dirs, filenames) := t in
              List.map (fun filename => (root, filename)) (dirs ++ filenames))
           walk.

Section Archive.

(** [os.path.abspath], and what [os.walk(src)] yields, in its order. *)
Variable os_abspath : string -> string.
Variable E : env.
Variable walk : list walk_triple.

(** The list [arcs] of [_archive(src, dest)] before it is sorted. *)
Definition archive_found (name src : string) : list (string * string) :=
  (name, src) ::
  flat_map (fun t : walk_triple =>
              let '(root, dirs, filenames) := t in
              List.map (fun filename =>
                          let abspath :=
                            os_abspath (OsPath.join root filename) in
                          let relpath := relpath E abspath src in
                          (OsPath.join name relpath, abspath))
                       (dirs ++ filenames))
           walk.

(** The members that [_archive(src, dest)] adds, as pairs of the name in
    the archive and the file added, in the order it adds them.
    [list.sort] is a stable sort; on a total order in which two elements
    that compare equal are the same, every sort gives the same list. *)
Definition archive_arcs (src dest : string) : list (string * string) :=
  let name := (PosixPath.splitext (OsPath.basename dest)).1 in
  merge_sort arc_le (archive_found name src).

End Archive.

(** [_extract_strip_1]: the path under which a member is extracted. *)
Definition strip_1 (path : string) : string :=
  (PosixPath.partition_slash path).2.

(* ===================================================================== *)
(** ** The commands of a walk on macOS                                    *)
(* ===================================================================== *)

(** The commands of one [_darwin_relink(filename, libdir, set_name)] that
    finds the references [links]: the identity when asked for, one change
    per reference, the signature. *)
Definition darwin_commands (E : env) (libdir : string)
    (job : string * bool * list string) : list (list string) :=
  let '(filename, set_name, links) := job in
  (if set_name : bool then [darwin_id_cmd filename] else [])
  ++ List.map (darwin_change_cmd E filename libdir) links
  ++ [codesign_cmd filename].

(** A build to run the steps around the walk on: [brew] as it answers for
    three packages, an installed tree with the modules that [_clean]
    removes, and what [os.walk] yields for a small prefix in two orders
    of its entries. *)
Module Build.

Definition brew (cmd : list string) (environ : gmap string string)
    : option string :=
  Some ("/opt/homebrew/opt/ncurses" +:+ Str.LF +:+
        "/opt/homebrew/opt/sqlite" +:+ Str.LF +:+
        "/opt/homebrew/opt/xz" +:+ Str.LF).

Definition caller : gmap string string :=
  {["CFLAGS" := "-O0"; "HOME" := "/root"]}.

Definition other_caller : gmap string string :=
  {["LDFLAGS" := "-L/usr/local/lib"; "HOME" := "/root"]}.

Definition lib : string := "/tmp/prefix/lib/python3.8".

Definition built : world :=
  World
    (list_to_map
       [(lib +:+ "/idlelib", Dir); (lib +:+ "/tkinter", Dir);
        (lib +:+ "/test", Dir); (lib +:+ "/ctypes/test", Dir);
        (lib +:+ "/distutils/tests", Dir); (lib +:+ "/lib2to3/tests", Dir);
        (lib +:+ "/unittest/test", Dir); (lib +:+ "/sqlite3/test", Dir);
        (lib +:+ "/test/test_os.py", File "import os");
        (lib +:+ "/testing", Dir);
        (lib +:+ "/os.py", File "import sys")])
    [] [].

(** Paths that are absolute and normal already. *)
Definition abspath (path : string) : string := path.

(** [os.path.relpath(path, start)] for a [path] below [start]. *)
Definition tools : env :=
  Env (tool_output Sim.tools) (tool_call Sim.tools)
      (fun path start =>
         String.substring (S (String.length start)) (String.length path) path)
      (dpkg_L_libc6 Sim.tools).

Definition walk : list walk_triple :=
  [("/tmp/prefix", ["bin"; "lib"], []);
   ("/tmp/prefix/bin", [], ["python3.8"]);
   ("/tmp/prefix/lib", [], ["libz.so.1"])].

Definition other_walk : list walk_triple :=
  [("/tmp/prefix", ["lib"; "bin"], []);
   ("/tmp/prefix/lib", [], ["libz.so.1"]);
   ("/tmp/prefix/bin", [], ["python3.8"])].

(** Mach-O files for the walk: a binary with the references [deps]. *)
Definition macho (deps : list string) : node :=
  Sim.binary (List.map Sim.otool_line deps).

(** A tool that refers to [libssl], which lists itself, [libcrypto] and
    a system library that is not on disk. *)
Definition mac_installed : world :=
  Sim.start
    (<[Ex.tool := macho [Ex.libssl]]>
     (<[Ex.libssl :=
          macho [Ex.libssl; Ex.libcrypto; "/usr/lib/libSystem.B.dylib"]]>
      (<[Ex.libcrypto := macho ["/usr/lib/libSystem.B.dylib"]]>
       {[ Ex.libdir := Dir ]}))).

Definition dest : string :=
  "/tmp/tmpdir/python-3.8.13-manylinux_2_28_x86_64.tgz".

End Build.

(* ===================================================================== *)
(** ** Paths                                                              *)
(* ===================================================================== *)

Section Paths.

Lemma append_cons (x : ascii) (a b : string) :
  String x a +:+ b = String x (a +:+ b).
Proof. reflexivity. Qed.

Lemma append_nil_l (b : string) : "" +:+ b = b.
Proof. reflexivity. Qed.

Lemma append_assoc (a b c : string) : (a +:+ b) +:+ c = a +:+ (b +:+ c).
Proof.
  induction a as [|x a IH]; [reflexivity|].
  rewrite !append_cons. now rewrite IH.
Qed.

Lemma append_empty_r (a : string) : a +:+ "" = a.
Proof.
  induction a as [|x a IH]; [reflexivity|].
  rewrite append_cons. now rewrite IH.
Qed.

Lemma length_append (a b : string) :
  String.length (a +:+ b) = String.length a + String.length b.
Proof.
  induction a as [|x a IH]; [reflexivity|].
  rewrite append_cons. simpl. now rewrite IH.
Qed.

Lemma basename_from_append (a b cur : string) :
  OsPath.basename_from (a +:+ b) cur
  = OsPath.basename_from b (OsPath.basename_from a cur).
Proof.
  revert cur. induction a as [|x a IH]; intros cur; [reflexivity|].
  rewrite append_cons. simpl. destruct (OsPath.is_slash x); apply IH.
Qed.

Lemma basename_from_no_slash (s cur : string) :
  no_slash s = true -> OsPath.basename_from s cur = cur +:+ s.
Proof.
  revert cur. induction s as [|x s IH]; intros cur H; simpl in *.
  - now rewrite append_empty_r.
  - apply andb_prop in H as [Hx Hs].
    destruct (OsPath.is_slash x); [discriminate|].
    rewrite IH by assumption. unfold Str.snoc. now rewrite append_assoc.
Qed.

Lemma no_slash_append (a b : string) :
  no_slash (a +:+ b) = no_slash a && no_slash b.
Proof.
  induction a as [|x a IH]; [reflexivity|].
  rewrite append_cons. simpl. rewrite IH. now rewrite andb_assoc.
Qed.

Lemma basename_from_is_no_slash (p cur : string) :
  no_slash cur = true -> no_slash (OsPath.basename_from p cur) = true.
Proof.
  revert cur. induction p as [|x p IH]; intros cur H; simpl; [assumption|].
  destruct (OsPath.is_slash x) eqn:Hx; apply IH; [reflexivity|].
  unfold Str.snoc. rewrite no_slash_append, H. simpl. now rewrite Hx.
Qed.

Lemma basename_no_slash (p : string) : no_slash (OsPath.basename p) = true.
Proof. now apply basename_from_is_no_slash. Qed.

Lemma ends_with_slash_basename (d : string) :
  OsPath.ends_with_slash d = true -> OsPath.basename d = "".
Proof.
  unfold OsPath.basename. generalize "" at 1 as cur.
  induction d as [|x d IH]; intros cur H; [discriminate|].
  simpl in *. destruct d as [|y d].
  - rewrite H. reflexivity.
  - destruct (OsPath.is_slash x); now apply IH.
Qed.

Lemma no_slash_not_absolute (s : string) :
  no_slash s = true -> Str.startswith s "/" = false.
Proof.
  destruct s as [|x s]; [reflexivity|]. intros H.
  change (no_slash (String x s))
    with (negb (OsPath.is_slash x) && no_slash s) in H.
  apply andb_prop in H as [Hx _]. unfold OsPath.is_slash in Hx.
  change (Str.startswith (String x s) "/")
    with (Ascii.eqb "/" x && Str.startswith s "").
  rewrite Ascii.eqb_sym.
  destruct (Ascii.eqb x "/"); [discriminate|reflexivity].
Qed.

(** Joining a directory and a slash-free name, then taking the base
    name, gives the name back. *)
Lemma basename_join (d s : string) :
  no_slash s = true -> OsPath.basename (OsPath.join d s) = s.
Proof.
  intros Hs. unfold OsPath.join. rewrite (no_slash_not_absolute s Hs).
  unfold OsPath.basename.
  destruct (String.eqb d "") eqn:Hd; simpl.
  - apply String.eqb_eq in Hd. subst d. simpl.
    now rewrite basename_from_no_slash.
  - destruct (OsPath.ends_with_slash d) eqn:He.
    + rewrite basename_from_append.
      apply ends_with_slash_basename in He. unfold OsPath.basename in He.
      rewrite He. now rewrite basename_from_no_slash.
    + rewrite !basename_from_append. simpl.
      now rewrite basename_from_no_slash.
Qed.

Lemma join_longer (d s : string) :
  no_slash s = true -> s <> "" ->
  String.length d < String.length (OsPath.join d s).
Proof.
  intros Hs Hne. unfold OsPath.join. rewrite (no_slash_not_absolute s Hs).
  assert (0 < String.length s) by (destruct s; [congruence | simpl; lia]).
  destruct (String.eqb d "" || OsPath.ends_with_slash d);
    rewrite ?length_append; simpl; lia.
Qed.

Lemma join_basename_neq (d link : string) :
  OsPath.basename link <> "" ->
  OsPath.join d (OsPath.basename link) <> d.
Proof.
  intros Hne Heq.
  pose proof (join_longer d _ (basename_no_slash link) Hne) as H.
  rewrite Heq in H. lia.
Qed.

End Paths.

(* ===================================================================== *)
(** ** The link inspectors                                                *)
(* ===================================================================== *)

Section Inspectors.

Lemma linux_lines_ok ignored lines ret l :
  linux_lines ignored lines ret = Ok l ->
  l = ret ++ flat_map (arrow_target ignored) lines.
Proof.
  revert ret. induction lines as [|line0 rest IH]; intros ret H; simpl in H.
  - injection H as <-. simpl. now rewrite app_nil_r.
  - simpl. unfold arrow_target at 1.
    destruct (Re.rmatch LDD_LINE (Str.strip line0)) as [m|].
    + destruct (bool_decide (m ∉ ignored)).
      * apply IH in H. now rewrite H, <- app_assoc.
      * now apply IH in H.
    + destruct (String.eqb (Str.strip line0) "statically linked");
        [now apply IH in H|].
      destruct (Str.startswith_any (Str.strip line0) ldd_skipped_prefixes);
        [now apply IH in H | discriminate].
Qed.

Lemma linux_lines_unrecognized ignored lines ret line0 :
  line0 ∈ lines ->
  linux_unrecognized (Str.strip line0) = true ->
  raised (linux_lines ignored lines ret).
Proof.
  intros Hin Hbad. revert ret.
  induction Hin as [line0 rest | line0 other rest Hin IH]; intros ret.
  - simpl. unfold linux_unrecognized in Hbad.
    destruct (Re.rmatch LDD_LINE (Str.strip line0)); [discriminate|].
    apply andb_prop in Hbad as [H1 H2].
    apply negb_true_iff in H1, H2. rewrite H1, H2. exact I.
  - simpl.
    destruct (Re.rmatch LDD_LINE (Str.strip other)) as [m|].
    + destruct (bool_decide (m ∉ ignored)); apply IH; assumption.
    + destruct (String.eqb (Str.strip other) "statically linked");
        [now apply IH|].
      destruct (Str.startswith_any (Str.strip other) ldd_skipped_prefixes);
        [now apply IH | exact I].
Qed.

Lemma arrow_target_elem ignored line0 p :
  p ∈ arrow_target ignored line0 ->
  Re.rmatch LDD_LINE (Str.strip line0) = Some p /\ p ∉ ignored.
Proof.
  unfold arrow_target.
  destruct (Re.rmatch LDD_LINE (Str.strip line0)) as [m|];
    [|intros H; inversion H].
  destruct (bool_decide (m ∉ ignored)) eqn:Hd; [|intros H; inversion H].
  intros H. apply list_elem_of_singleton in H. subst p.
  split; [reflexivity|]. now apply bool_decide_eq_true in Hd.
Qed.

Lemma _linux_linked_ok E w f l :
  _linux_linked E w f = Ok l ->
  exists out,
    dpkg_L_libc6 E = Some out /\
    exists ldd_out,
      tool_output E ["ldd"; f] (fs w) = Some ldd_out /\
      l = flat_map (arrow_target (libc6_filter out)) (Str.splitlines ldd_out).
Proof.
  unfold _linux_linked, _libc6_links, check_output, bind.
  destruct (dpkg_L_libc6 E) as [out|]; [|discriminate].
  destruct (tool_output E ["ldd"; f] (fs w)) as [ldd_out|]; [|discriminate].
  intros H. apply linux_lines_ok in H.
  exists out. split; [reflexivity|]. exists ldd_out. split; [reflexivity|].
  exact H.
Qed.

Lemma elem_of_libc6_filter out p :
  p ∈ libc6_filter out <->
  p ∈ Str.splitlines out /\ Str.startswith p "/lib/" = true
  /\ Str.contains ".so" p = true.
Proof.
  unfold libc6_filter. rewrite elem_of_list_to_set.
  rewrite list_elem_of_In, filter_In, <- list_elem_of_In.
  now rewrite andb_true_iff.
Qed.

Lemma darwin_lines_ok m f lines ret l :
  darwin_lines m f lines ret = Ok l ->
  l = ret ++ flat_map (darwin_target m f) lines.
Proof.
  revert ret. induction lines as [|line rest IH]; intros ret H; simpl in H.
  - injection H as <-. simpl. now rewrite app_nil_r.
  - simpl. unfold darwin_target at 1.
    destruct (Re.rmatch OTOOL_L_LINE line) as [p|]; [|discriminate].
    destruct (String.eqb p f); [now apply IH in H|].
    destruct (Os.isfile m p).
    + apply IH in H. now rewrite H, <- app_assoc.
    + now apply IH in H.
Qed.

Lemma darwin_lines_unrecognized m f lines ret line :
  line ∈ lines ->
  Re.rmatch OTOOL_L_LINE line = None ->
  raised (darwin_lines m f lines ret).
Proof.
  intros Hin Hbad. revert ret.
  induction Hin as [line rest | line other rest Hin IH]; intros ret; simpl.
  - now rewrite Hbad.
  - destruct (Re.rmatch OTOOL_L_LINE other) as [p|]; [|exact I].
    destruct (String.eqb p f); [now apply IH|].
    destruct (Os.isfile m p); now apply IH.
Qed.

Lemma darwin_target_elem m f line p :
  p ∈ darwin_target m f line ->
  Re.rmatch OTOOL_L_LINE line = Some p /\ p <> f /\ Os.isfile m p = true.
Proof.
  unfold darwin_target.
  destruct (Re.rmatch OTOOL_L_LINE line) as [q|]; [|intros H; inversion H].
  destruct (String.eqb_spec q f) as [->|Hne]; [intros H; inversion H|].
  destruct (Os.isfile m q) eqn:Hf; [|intros H; inversion H].
  intros H. apply list_elem_of_singleton in H. now subst p.
Qed.

Lemma _darwin_linked_ok E w f l :
  _darwin_linked E w f = Ok l ->
  exists out rest,
    tool_output E ["otool"; "-L"; f] (fs w) = Some out /\
    Str.splitlines out = (f +:+ ":") :: rest /\
    l = flat_map (darwin_target (fs w) f) rest.
Proof.
  unfold _darwin_linked, check_output.
  destruct (tool_output E ["otool"; "-L"; f] (fs w)) as [out|] eqn:Ho;
    [|discriminate].
  unfold bind, darwin_parse.
  destruct (Str.splitlines out) as [|first rest] eqn:Hs; [discriminate|].
  destruct (String.eqb_spec first (f +:+ ":")) as [->|Hne];
    [|discriminate].
  cbn [negb]. intros H. apply darwin_lines_ok in H.
  exists out, rest. split; [reflexivity|]. split; [|exact H].
  exact Hs.
Qed.

Lemma elem_of_flat_map {A B : Type} (g : A -> list B) (xs : list A) (y : B) :
  y ∈ flat_map g xs <-> exists x, x ∈ xs /\ y ∈ g x.
Proof.
  rewrite list_elem_of_In, in_flat_map.
  split; intros (x & H1 & H2); exists x;
    now rewrite ?list_elem_of_In in *.
Qed.

End Inspectors.

(* ===================================================================== *)
(** ** Properties of the link inspectors                                  *)
(* ===================================================================== *)






(** C7: [_darwin_linked] never returns the inspected file's own path. *)
Theorem darwin_linked_excludes_self :
  forall E w filename l,
    _darwin_linked E w filename = Ok l -> filename ∉ l.
Proof.
  intros E w f l H Hin.
  apply _darwin_linked_ok in H as (out & rest & _ & _ & ->).
  apply elem_of_flat_map in Hin as (line & _ & Hin).
  apply darwin_target_elem in Hin as (_ & Hne & _). now apply Hne.
Qed.

Lemma darwin_linked_excludes_self_witness :
  _darwin_linked Sim.tools Ex.self_linked Ex.libssl = Ok [Ex.libcrypto] /\
  Ex.libssl ∉ [Ex.libcrypto].
Proof.
  split; [vm_compute; reflexivity|].
  apply (darwin_linked_excludes_self Sim.tools Ex.self_linked).
  vm_compute. reflexivity.
Defined.




(* ===================================================================== *)
(** ** Rewriting in place                                                 *)
(* ===================================================================== *)

Section InPlace.

Lemma inplace_refl f m : inplace f m m.
Proof. split; reflexivity. Qed.

Lemma inplace_trans f m1 m2 m3 :
  inplace f m1 m2 -> inplace f m2 m3 -> inplace f m1 m3.
Proof.
  intros [H1 K1] [H2 K2]. split.
  - intros p Hp. now rewrite H2, H1.
  - now rewrite K2, K1.
Qed.

Lemma inplace_kind f m m' p :
  inplace f m m' -> kind_of (m' !! p) = kind_of (m !! p).
Proof.
  intros [H K]. destruct (decide (p = f)) as [->|Hne]; [exact K|].
  now rewrite H.
Qed.

Lemma check_call_calls (E : env) cmd w w' :
  check_call E cmd w = Ok w' -> calls w' = calls w ++ [cmd].
Proof.
  unfold check_call. destruct (tool_call E cmd (fs w)); [|discriminate].
  now intros [= <-].
Qed.

Lemma check_call_copied (E : env) cmd w w' :
  check_call E cmd w = Ok w' -> copied w' = copied w.
Proof.
  unfold check_call. destruct (tool_call E cmd (fs w)); [|discriminate].
  now intros [= <-].
Qed.

Lemma darwin_change_all_copied (E : env) f libdir dn links w w' :
  darwin_change_all E f libdir dn links w = Ok w' -> copied w' = copied w.
Proof.
  revert w. induction links as [|link rest IH]; intros w H; simpl in H.
  - now injection H as <-.
  - unfold bind in H.
    destruct (check_call E _ w) as [w1|] eqn:Hc; [|discriminate].
    apply check_call_copied in Hc. apply IH in H. congruence.
Qed.

Lemma darwin_change_all_calls (E : env) f libdir links w w' :
  darwin_change_all E f libdir (OsPath.dirname f) links w = Ok w' ->
  calls w' = calls w ++ map (darwin_change_cmd E f libdir) links.
Proof.
  revert w. induction links as [|link rest IH]; intros w H; simpl in H.
  - injection H as <-. simpl. now rewrite app_nil_r.
  - unfold bind in H.
    destruct (check_call E _ w) as [w1|] eqn:Hc; [|discriminate].
    apply check_call_calls in Hc. apply IH in H.
    rewrite H, Hc. simpl. now rewrite <- app_assoc.
Qed.

Lemma _linux_relink_calls (E : env) f libdir b w w' :
  _linux_relink E f libdir b w = Ok w' ->
  calls w' = calls w ++ [patchelf_cmd E f libdir].
Proof. intros H. now apply check_call_calls in H. Qed.

(** The steps of a successful [_darwin_relink]. *)
Lemma _darwin_relink_steps (E : env) f libdir b w w' :
  _darwin_relink E f libdir b w = Ok w' ->
  exists w1 links w2,
    (if b then check_call E (darwin_id_cmd f) w else Ok w) = Ok w1 /\
    _darwin_linked E w1 f = Ok links /\
    darwin_change_all E f libdir (OsPath.dirname f) links w1 = Ok w2 /\
    check_call E (codesign_cmd f) w2 = Ok w'.
Proof.
  unfold _darwin_relink, OsPath.split. fold (darwin_id_cmd f).
  unfold bind at 1.
  destruct (if b then check_call E (darwin_id_cmd f) w else Ok w)
    as [w1|] eqn:H1; [|discriminate].
  unfold bind at 1.
  destruct (_darwin_linked E w1 f) as [links|] eqn:Hl; [|discriminate].
  unfold bind at 1.
  destruct (darwin_change_all E f libdir (OsPath.dirname f) links w1)
    as [w2|] eqn:H2; [|discriminate].
  intros H3. now exists w1, links, w2.
Qed.

(** What a successful [_darwin_relink] has run: the identity change when
    asked for, one change per reference the inspector then reports, and
    the signature. *)
Lemma _darwin_relink_calls (E : env) f libdir b w w' :
  _darwin_relink E f libdir b w = Ok w' ->
  exists w1 links,
    (if b then check_call E (darwin_id_cmd f) w else Ok w) = Ok w1 /\
    _darwin_linked E w1 f = Ok links /\
    calls w' = calls w ++ (if b then [darwin_id_cmd f] else [])
               ++ map (darwin_change_cmd E f libdir) links
               ++ [codesign_cmd f].
Proof.
  intros H. apply _darwin_relink_steps in H as (w1 & links & w2 & H1 & Hl & H2 & H3).
  exists w1, links. split; [assumption|]. split; [assumption|].
  apply check_call_calls in H3. apply darwin_change_all_calls in H2.
  rewrite H3, H2.
  destruct b.
  - apply check_call_calls in H1. rewrite H1. now rewrite <- !app_assoc.
  - injection H1 as <-. simpl. now rewrite <- !app_assoc.
Qed.

Context (E : env) `{!EnvLaws E}.

Lemma check_call_inplace cmd w w' :
  check_call E cmd w = Ok w' -> inplace (List.last cmd "") (fs w) (fs w').
Proof.
  unfold check_call.
  destruct (tool_call E cmd (fs w)) as [m|] eqn:Hc; [|discriminate].
  intros [= <-]. simpl. split.
  - intros p Hp. eapply call_frame; [eassumption | congruence].
  - eapply call_kind; eassumption.
Qed.

Lemma darwin_change_all_inplace f libdir dn links w w' :
  darwin_change_all E f libdir dn links w = Ok w' ->
  inplace f (fs w) (fs w').
Proof.
  revert w. induction links as [|link rest IH]; intros w H; simpl in H.
  - injection H as <-. apply inplace_refl.
  - unfold bind in H.
    destruct (check_call E _ w) as [w1|] eqn:Hc; [|discriminate].
    apply check_call_inplace in Hc. simpl in Hc.
    apply IH in H. eapply inplace_trans; eassumption.
Qed.

Lemma _linux_relink_inplace f libdir b w w' :
  _linux_relink E f libdir b w = Ok w' -> inplace f (fs w) (fs w').
Proof. intros H. now apply check_call_inplace in H. Qed.

Lemma _darwin_relink_inplace f libdir b w w' :
  _darwin_relink E f libdir b w = Ok w' -> inplace f (fs w) (fs w').
Proof.
  intros H.
  apply _darwin_relink_steps in H as (w1 & links & w2 & H1 & _ & H2 & H3).
  apply check_call_inplace in H3. simpl in H3.
  apply darwin_change_all_inplace in H2.
  eapply inplace_trans; [|eassumption].
  eapply inplace_trans; [|eassumption].
  destruct b.
  - now apply check_call_inplace in H1.
  - injection H1 as <-. apply inplace_refl.
Qed.

Global Instance linux_laws : PlatformLaws (linux E).
Proof.
  split; simpl.
  - intros f d b w w' p H Hp. apply _linux_relink_inplace in H as [H _].
    now apply H.
  - intros f d b w w' H. apply _linux_relink_inplace in H as [_ H].
    exact H.
  - intros f d b w w' H. now apply check_call_copied in H.
  - intros w f l H. apply _linux_linked_ok in H as (_ & _ & out & Ho & _).
    eapply ldd_isfile; eassumption.
Qed.

Global Instance darwin_laws : PlatformLaws (darwin E).
Proof.
  split; simpl.
  - intros f d b w w' p H Hp. apply _darwin_relink_inplace in H as [H _].
    now apply H.
  - intros f d b w w' H. apply _darwin_relink_inplace in H as [_ H].
    exact H.
  - intros f d b w w' H.
    apply _darwin_relink_steps in H as (w1 & links & w2 & H1 & _ & H2 & H3).
    apply check_call_copied in H3. apply darwin_change_all_copied in H2.
    destruct b.
    + apply check_call_copied in H1. congruence.
    + injection H1 as <-. congruence.
  - intros w f l H. apply _darwin_linked_ok in H as (out & _ & Ho & _).
    eapply otool_isfile; eassumption.
Qed.

End InPlace.

Section SimLaws.

Lemma read_file_lookup m p c :
  Os.read_file m p = Some c <->
  OsPath.basename p <> "" /\ m !! p = Some (File c).
Proof.
  unfold Os.read_file.
  destruct (String.eqb_spec (OsPath.basename p) "") as [He|Hne].
  - split; [discriminate | intros [H _]; contradiction].
  - destruct (m !! p) as [[|c']|]; split; try discriminate;
      try (intros [_ H]; discriminate).
    + intros [= ->]. now split.
    + intros [_ [= ->]]. reflexivity.
Qed.

Lemma isfile_read m p :
  Os.isfile m p = true <-> exists c, Os.read_file m p = Some c.
Proof.
  unfold Os.isfile. destruct (Os.read_file m p) as [c|].
  - split; [now exists c | reflexivity].
  - split; [discriminate | intros [c H]; discriminate].
Qed.

Global Instance sim_laws : EnvLaws Sim.tools.
Proof.
  split; simpl.
  - intros cmd m m' p H Hp. unfold Sim.call in H.
    destruct (Os.read_file m (List.last cmd "")); [|discriminate].
    injection H as <-. now rewrite lookup_insert_ne.
  - intros cmd m m' H. unfold Sim.call in H.
    destruct (Os.read_file m (List.last cmd "")) as [c|] eqn:Hr;
      [|discriminate].
    injection H as <-. rewrite lookup_insert_eq.
    apply read_file_lookup in Hr as [_ ->]. reflexivity.
  - intros f m out H. apply isfile_read.
    destruct (Os.read_file m f) as [c|]; [now exists c | discriminate].
  - intros f m out H. apply isfile_read.
    destruct (Os.read_file m f) as [c|]; [now exists c | discriminate].
Qed.

End SimLaws.

(* ===================================================================== *)
(** ** Properties of the relinkers                                        *)
(* ===================================================================== *)

Lemma filter_rewrite_changes E f libdir links :
  List.filter is_rewrite (map (darwin_change_cmd E f libdir) links)
  = map (darwin_change_cmd E f libdir) links.
Proof.
  induction links as [|link rest IH]; [reflexivity|].
  simpl map. unfold List.filter at 1. fold (List.filter is_rewrite).
  change (is_rewrite (darwin_change_cmd E f libdir link)) with true.
  cbv iota. now rewrite IH.
Qed.

(** C9, as the specification words it, fails on Linux: [_linux_relink]
    runs [patchelf] once, to set the run path, however many references
    the binary has. *)
Lemma linux_relink_runs_one_command :
  ~ (forall E, one_rewrite_per_reference (linux E)
               /\ one_rewrite_per_reference (darwin E)).
Proof.
  intros H. destruct (H Sim.tools) as [Hl _].
  destruct (relink (linux Sim.tools) Ex.tool "/opt/app/lib" false Ex.two_libs)
    as [w'|e] eqn:Hr; [|vm_compute in Hr; discriminate].
  assert (linked (linux Sim.tools) Ex.two_libs Ex.tool
          = Ok ["/usr/local/lib/libz.so.1"; "/usr/local/lib/libffi.so.8"])
    as Hk by (vm_compute; reflexivity).
  destruct (Hl _ _ _ _ _ _ Hk Hr) as (new & Hc & Hn).
  apply (_linux_relink_calls Sim.tools Ex.tool "/opt/app/lib" false) in Hr.
  rewrite Hr in Hc. apply app_inv_head in Hc. subst new.
  vm_compute in Hn. discriminate.
Qed.

(** C9, amended: a successful [_linux_relink] runs exactly one command,
    [patchelf --force-rpath --set-rpath], whatever the number of
    references and whatever [set_name]; a successful [_darwin_relink]
    runs [install_name_tool -id] when [set_name] is true, then one
    [install_name_tool -change] for each reference the inspector reports
    at that point, in their order, then [codesign]. *)
Theorem relinker_invocations :
  forall E f libdir set_name w w',
    (_linux_relink E f libdir set_name w = Ok w' ->
     calls w' = calls w ++ [patchelf_cmd E f libdir]) /\
    (_darwin_relink E f libdir set_name w = Ok w' ->
     exists w1 links,
       (if set_name then check_call E (darwin_id_cmd f) w else Ok w) = Ok w1 /\
       _darwin_linked E w1 f = Ok links /\
       let new := (if set_name then [darwin_id_cmd f] else [])
                  ++ map (darwin_change_cmd E f libdir) links
                  ++ [codesign_cmd f] in
       calls w' = calls w ++ new /\
       length (List.filter is_rewrite new)
       = length links + (if set_name then 1 else 0)).
Proof.
  intros E f libdir b w w'. split.
  - apply _linux_relink_calls.
  - intros H. apply _darwin_relink_calls in H as (w1 & links & H1 & Hl & Hc).
    exists w1, links. split; [assumption|]. split; [assumption|].
    split; [exact Hc|].
    rewrite !List.filter_app, filter_rewrite_changes.
    rewrite !length_app, length_map.
    destruct b; simpl; lia.
Qed.

Lemma relinker_invocations_witness :
  (exists w', _linux_relink Sim.tools Ex.tool "/opt/app/lib" false Ex.two_libs
              = Ok w' /\ length (calls w') = 1) /\
  (exists w' (links : list string),
     _darwin_relink Sim.tools Ex.libssl "/opt/py/lib" true Ex.self_linked
     = Ok w' /\
     length (List.filter is_rewrite (calls w')) = length links + 1).
Proof.
  split.
  - destruct (_linux_relink Sim.tools Ex.tool "/opt/app/lib" false Ex.two_libs)
      as [w'|e] eqn:Hr; [|vm_compute in Hr; discriminate].
    exists w'. split; [reflexivity|].
    rewrite (proj1 (relinker_invocations Sim.tools Ex.tool "/opt/app/lib"
                      false Ex.two_libs w') Hr).
    reflexivity.
  - destruct (_darwin_relink Sim.tools Ex.libssl "/opt/py/lib" true
                Ex.self_linked) as [w'|e] eqn:Hr;
      [|vm_compute in Hr; discriminate].
    destruct (proj2 (relinker_invocations Sim.tools Ex.libssl "/opt/py/lib"
                       true Ex.self_linked w') Hr)
      as (w1 & links & H1 & Hl & Hc & Hn).
    exists w', links. split; [reflexivity|].
    rewrite Hc. exact Hn.
Defined.

(* ===================================================================== *)
(** ** The file system during the walk                                    *)
(* ===================================================================== *)

Section FileSystem.

Lemma elem_of_file_names (m : filesystem) s :
  s ∈ file_names m <->
  exists k c, m !! k = Some (File c) /\ OsPath.basename k = s.
Proof.
  unfold file_names. rewrite elem_of_list_to_set, list_elem_of_omap.
  split.
  - intros ([k n] & Hin & Hs). apply elem_of_map_to_list in Hin.
    simpl in Hs. destruct n as [|c]; [discriminate|].
    injection Hs as <-. now exists k, c.
  - intros (k & c & Hk & <-). exists (k, File c).
    split; [now apply elem_of_map_to_list | reflexivity].
Qed.

Lemma elem_of_missing libdir (m : filesystem) s :
  s ∈ missing libdir m <->
  s ∈ file_names m /\ m !! OsPath.join libdir s = None.
Proof. unfold missing. rewrite elem_of_filter. tauto. Qed.

Lemma kind_file (m : filesystem) k :
  kind_of (m !! k) = KFile <-> exists c, m !! k = Some (File c).
Proof.
  destruct (m !! k) as [[|c]|]; simpl; split;
    try discriminate; try (intros [c' H]; discriminate).
  - now exists c.
  - reflexivity.
Qed.

Lemma kind_none (m : filesystem) k :
  kind_of (m !! k) = KNone <-> m !! k = None.
Proof. destruct (m !! k) as [[|c]|]; simpl; split; congruence. Qed.

Lemma missing_kinds libdir (m m' : filesystem) :
  (forall p, kind_of (m' !! p) = kind_of (m !! p)) ->
  missing libdir m' = missing libdir m.
Proof.
  intros Hk. apply set_eq. intros s. rewrite !elem_of_missing.
  rewrite !elem_of_file_names, <- !kind_none, Hk.
  split; intros [(k & c & Hl & Hb) Hn]; (split; [|assumption]);
    exists k.
  - assert (kind_of (m !! k) = KFile) as Hf
        by (rewrite <- Hk; apply kind_file; eauto).
    apply kind_file in Hf as [c' Hf]. eauto.
  - assert (kind_of (m' !! k) = KFile) as Hf
        by (rewrite Hk; apply kind_file; eauto).
    apply kind_file in Hf as [c' Hf]. eauto.
Qed.

Lemma isdir_kind (m : filesystem) p :
  Os.isdir m p = true <-> kind_of (m !! p) = KDir.
Proof.
  unfold Os.isdir. destruct (m !! p) as [[|c]|]; simpl; split; congruence.
Qed.

Lemma isdir_kinds (m m' : filesystem) p :
  kind_of (m' !! p) = kind_of (m !! p) -> Os.isdir m' p = Os.isdir m p.
Proof.
  unfold Os.isdir. destruct (m' !! p) as [[|c]|], (m !! p) as [[|c']|];
    simpl; congruence.
Qed.

Lemma exists_lookup (m : filesystem) p :
  Os.exists_ m p = false <-> m !! p = None.
Proof. unfold Os.exists_. destruct (m !! p); split; congruence. Qed.

Lemma copy_ok src dst (m m' : filesystem) :
  Os.copy src dst m = Ok m' ->
  exists c,
    Os.read_file m src = Some c /\
    m' = <[Os.copy_target m src dst := File c]> m /\
    src <> Os.copy_target m src dst /\
    Os.isdir m (Os.copy_target m src dst) = false.
Proof.
  unfold Os.copy. destruct (Os.read_file m src) as [c|]; [|discriminate].
  destruct (String.eqb_spec src (Os.copy_target m src dst)) as [|Hne];
    [discriminate|].
  destruct (Os.isdir m (Os.copy_target m src dst)) eqn:Hd;
    [discriminate|].
  simpl. destruct (String.eqb _ ""); [discriminate|].
  intros [= <-]. exists c. auto.
Qed.

(** Copying a library into the directory [libdir], under a name that
    was not there, takes that name out of what is missing and adds
    nothing to it. *)
Lemma missing_copy libdir link c (m : filesystem) :
  Os.read_file m link = Some c ->
  m !! OsPath.join libdir (OsPath.basename link) = None ->
  missing libdir
    (<[OsPath.join libdir (OsPath.basename link) := File c]> m)
  ⊂ missing libdir m.
Proof.
  intros Hr Hn. apply read_file_lookup in Hr as [Hne Hl].
  set (t := OsPath.join libdir (OsPath.basename link)) in *.
  assert (OsPath.basename t = OsPath.basename link) as Hbt
      by apply basename_join, basename_no_slash.
  apply elem_of_subset. split.
  - intros s. rewrite !elem_of_missing, !elem_of_file_names.
    intros [(k & c' & Hk & Hb) Hs].
    destruct (decide (OsPath.join libdir s = t)) as [He|Hd].
    { rewrite He, lookup_insert_eq in Hs. discriminate. }
    rewrite lookup_insert_ne in Hs by congruence.
    split; [|assumption].
    destruct (decide (k = t)) as [->|Hkt].
    + exists link, c. split; [assumption | congruence].
    + rewrite lookup_insert_ne in Hk by congruence. eauto.
  - intros Hall. specialize (Hall (OsPath.basename link)).
    rewrite !elem_of_missing in Hall. destruct Hall as [_ H].
    + split; [|assumption]. apply elem_of_file_names. eauto.
    + fold t in H. rewrite lookup_insert_eq in H. discriminate.
Qed.

End FileSystem.

(* ===================================================================== *)
(** ** Termination of the walk                                            *)
(* ===================================================================== *)

Section Termination.

Context (plat : Platform) `{!PlatformLaws plat} (libdir : string).

Lemma relink_kinds f d b w w' p :
  relink plat f d b w = Ok w' ->
  kind_of (fs w' !! p) = kind_of (fs w !! p).
Proof.
  intros H. destruct (decide (p = f)) as [->|Hne].
  - eapply relink_kind; eassumption.
  - erewrite relink_frame; [reflexivity | eassumption | assumption].
Qed.

Lemma relink_each_mono (rec rec' : world -> string -> option (result world))
    tl w r :
  (forall w x r, rec w x = Some r -> rec' w x = Some r) ->
  relink_each rec tl w = Some r -> relink_each rec' tl w = Some r.
Proof.
  intros Hrec. revert w. induction tl as [|x rest IH]; intros w H;
    simpl in *; [assumption|].
  destruct (rec w x) as [[w1|e]|] eqn:Hx; [| |discriminate].
  - rewrite (Hrec _ _ _ Hx). now apply IH.
  - now rewrite (Hrec _ _ _ Hx).
Qed.

Lemma _relink_1_mono n n' sn w f r :
  n <= n' ->
  _relink_1 plat n libdir sn w f = Some r ->
  _relink_1 plat n' libdir sn w f = Some r.
Proof.
  revert n' sn w f r. induction n as [|n IH]; intros n' sn w f r Hle H;
    [discriminate|].
  destruct n' as [|n']; [lia|]. simpl in *.
  destruct (linked plat w f) as [links|]; [|assumption].
  destruct (relink plat f libdir sn w) as [w1|]; [|assumption].
  destruct (copy_missing libdir links w1 []) as [[w2 tl]|]; [|assumption].
  eapply relink_each_mono; [|eassumption].
  intros w0 x r0. apply IH. lia.
Qed.

Lemma copy_missing_dir links w acc w2 tl :
  copy_missing libdir links w acc = Ok (w2, tl) ->
  Os.isdir (fs w) libdir = true ->
  Os.isdir (fs w2) libdir = true /\
  missing libdir (fs w2) ⊆ missing libdir (fs w) /\
  size (missing libdir (fs w2)) + length tl
  <= size (missing libdir (fs w)) + length acc.
Proof.
  revert w acc. induction links as [|link rest IH]; intros w acc H Hd;
    simpl in H.
  - injection H as <- <-. split; [assumption|]. split; [reflexivity | lia].
  - destruct (Os.exists_ (fs w) (OsPath.join libdir (OsPath.basename link)))
      eqn:Hex; simpl in H; [now apply IH|].
    apply exists_lookup in Hex. unfold bind in H.
    destruct (Os.copy link libdir (fs w)) as [m|] eqn:Hc; [|discriminate].
    apply copy_ok in Hc as (c & Hr & -> & _ & _).
    unfold Os.copy_target in *. rewrite Hd in *.
    pose proof (missing_copy libdir link c (fs w) Hr Hex) as Hsub.
    apply IH in H as (Hd2 & Hs2 & Hn2); simpl in *.
    + split; [assumption|]. split.
      * etrans; [eassumption | apply Hsub].
      * apply subset_size in Hsub. rewrite length_app in Hn2.
        simpl in Hn2. lia.
    + unfold Os.isdir in *. rewrite lookup_insert_ne; [assumption|].
      intros Heq. rewrite <- Heq, Hex in Hd. discriminate.
Qed.

Lemma relink_each_dir (rec : world -> string -> option (result world)) n :
  (forall w x,
     Os.isdir (fs w) libdir = true ->
     size (missing libdir (fs w)) < n ->
     exists r, rec w x = Some r /\
       forall w', r = Ok w' ->
         Os.isdir (fs w') libdir = true /\
         missing libdir (fs w') ⊆ missing libdir (fs w)) ->
  forall tl w,
    Os.isdir (fs w) libdir = true ->
    size (missing libdir (fs w)) < n ->
    exists r, relink_each rec tl w = Some r /\
      forall w', r = Ok w' ->
        Os.isdir (fs w') libdir = true /\
        missing libdir (fs w') ⊆ missing libdir (fs w).
Proof.
  intros Hrec tl. induction tl as [|x rest IH]; intros w Hd Hn; simpl.
  - exists (Ok w). split; [reflexivity|]. intros w' [= <-].
    split; [assumption | reflexivity].
  - destruct (Hrec w x Hd Hn) as (r1 & -> & Hpost).
    destruct r1 as [w1|e].
    + destruct (Hpost w1 eq_refl) as [Hd1 Hs1].
      destruct (IH w1 Hd1) as (r & Hr & Hp).
      { apply subseteq_size in Hs1. lia. }
      exists r. split; [assumption|]. intros w' Hw'.
      destruct (Hp w' Hw') as [Hd' Hs']. split; [assumption|].
      etrans; eassumption.
    + exists (Raise e). split; [reflexivity | discriminate].
Qed.

Lemma walk_dir_returns n sn w f :
  Os.isdir (fs w) libdir = true ->
  size (missing libdir (fs w)) < n ->
  exists r, _relink_1 plat n libdir sn w f = Some r /\
    forall w', r = Ok w' ->
      Os.isdir (fs w') libdir = true /\
      missing libdir (fs w') ⊆ missing libdir (fs w).
Proof.
  revert sn w f. induction n as [|n IH]; intros sn w f Hd Hn; [lia|].
  simpl.
  destruct (linked plat w f) as [links|e];
    [|exists (Raise e); split; [reflexivity | discriminate]].
  destruct (relink plat f libdir sn w) as [w1|e] eqn:Hr;
    [|exists (Raise e); split; [reflexivity | discriminate]].
  assert (missing libdir (fs w1) = missing libdir (fs w)) as Hm1
      by (apply missing_kinds; intros p; eapply relink_kinds; eassumption).
  assert (Os.isdir (fs w1) libdir = true) as Hd1.
  { erewrite isdir_kinds; [eassumption|]. eapply relink_kinds; eassumption. }
  destruct (copy_missing libdir links w1 []) as [[w2 tl]|e] eqn:Hc;
    [|exists (Raise e); split; [reflexivity | discriminate]].
  apply copy_missing_dir in Hc as (Hd2 & Hs2 & Hn2); [|assumption].
  rewrite Hm1 in *. simpl in Hn2.
  destruct tl as [|x rest].
  - exists (Ok w2). split; [reflexivity|]. now intros w' [= <-].
  - simpl length in Hn2.
    destruct (relink_each_dir (_relink_1 plat n libdir true) n
                (fun w0 x0 => IH true w0 x0) (x :: rest) w2 Hd2)
      as (r & Hr' & Hp); [lia|].
    exists r. split; [assumption|]. intros w' Hw'.
    destruct (Hp w' Hw') as [Hd' Hs']. split; [assumption|].
    etrans; eassumption.
Qed.

(** When [libdir] is not a directory, [shutil.copy] writes to the path
    [libdir] itself, the queued paths never come to exist, and the
    inspector raises on the first of them. *)
Lemma copy_missing_nodir links w acc w2 tl :
  copy_missing libdir links w acc = Ok (w2, tl) ->
  Os.isdir (fs w) libdir = false ->
  (forall x, x ∈ acc -> x <> libdir /\ fs w !! x = None) ->
  forall x, x ∈ tl -> fs w2 !! x = None.
Proof.
  revert w acc. induction links as [|link rest IH]; intros w acc H Hd Hacc;
    simpl in H.
  - injection H as <- <-. intros x Hx. now apply Hacc.
  - destruct (Os.exists_ (fs w) (OsPath.join libdir (OsPath.basename link)))
      eqn:Hex; simpl in H; [now apply (IH w acc)|].
    apply exists_lookup in Hex. unfold bind in H.
    destruct (Os.copy link libdir (fs w)) as [m|] eqn:Hc; [|discriminate].
    apply copy_ok in Hc as (c & Hr & -> & _ & _).
    unfold Os.copy_target in *. rewrite Hd in *.
    apply read_file_lookup in Hr as [Hne _].
    pose proof (join_basename_neq libdir link Hne) as Hneq.
    apply (IH _ _ H); simpl.
    + unfold Os.isdir. now rewrite lookup_insert_eq.
    + intros x Hx. apply elem_of_app in Hx as [Hx|Hx].
      * destruct (Hacc x Hx) as [Hxl Hxn]. split; [assumption|].
        now rewrite lookup_insert_ne.
      * apply list_elem_of_singleton in Hx. subst x.
        split; [assumption|]. now rewrite lookup_insert_ne.
Qed.

Lemma walk_nodir_returns n sn w f :
  Os.isdir (fs w) libdir = false ->
  exists r, _relink_1 plat (S (S n)) libdir sn w f = Some r.
Proof.
  intros Hd. cbn [_relink_1].
  destruct (linked plat w f) as [links|e]; [|eauto].
  destruct (relink plat f libdir sn w) as [w1|e] eqn:Hr; [|eauto].
  assert (Os.isdir (fs w1) libdir = false) as Hd1.
  { erewrite isdir_kinds; [eassumption|]. eapply relink_kinds; eassumption. }
  destruct (copy_missing libdir links w1 []) as [[w2 tl]|e] eqn:Hc;
    [|eauto].
  destruct tl as [|x rest]; [simpl; eauto|].
  pose proof (copy_missing_nodir _ _ _ _ _ Hc Hd1) as Hnone.
  assert (fs w2 !! x = None) as Hx.
  { apply Hnone; [intros y Hy; inversion Hy | left]. }
  cbn [relink_each].
  destruct (linked plat w2 x) as [l|e] eqn:Hl; [|eauto].
  apply linked_isfile, isfile_read in Hl as [c Hl].
  apply read_file_lookup in Hl as [_ Hl]. congruence.
Qed.

End Termination.

(* ===================================================================== *)
(** ** What the walk leaves alone                                         *)
(* ===================================================================== *)

Section Frame.

Context (plat : Platform) `{!PlatformLaws plat} (libdir : string).

Lemma grows_refl m : grows m m.
Proof. intros p H. exact H. Qed.

Lemma grows_trans m1 m2 m3 : grows m1 m2 -> grows m2 m3 -> grows m1 m3.
Proof. intros H1 H2 p H. apply H2, H1, H. Qed.

Lemma grows_kinds (m m' : filesystem) :
  (forall p, kind_of (m' !! p) = kind_of (m !! p)) -> grows m m'.
Proof.
  intros Hk p [n Hn]. specialize (Hk p). rewrite Hn in Hk.
  destruct (m' !! p) as [n'|]; [eauto|].
  destruct n; discriminate.
Qed.

Lemma grows_same (m m' : filesystem) :
  (forall p, is_Some (m !! p) -> m' !! p = m !! p) -> grows m m'.
Proof. intros H p Hp. rewrite (H p Hp). exact Hp. Qed.

Lemma grows_none (m m' : filesystem) p :
  grows m m' -> m' !! p = None -> m !! p = None.
Proof.
  intros Hg Hn. destruct (m !! p) as [n|] eqn:Hp; [|reflexivity].
  destruct (Hg p) as [n' Hn']; [eauto | congruence].
Qed.

Lemma fresh_copies_nil m m' : fresh_copies libdir m m' [].
Proof. split; [constructor | constructor]. Qed.

Lemma fresh_copies_app m m1 m2 n1 n2 :
  fresh_copies libdir m m1 n1 -> fresh_copies libdir m1 m2 n2 ->
  grows m m1 -> grows m1 m2 ->
  fresh_copies libdir m m2 (n1 ++ n2).
Proof.
  intros [D1 F1] [D2 F2] G1 G2. split.
  - rewrite map_app. apply NoDup_app. split; [assumption|].
    split; [|assumption]. intros t Ht1 Ht2.
    apply list_elem_of_fmap in Ht1 as (st1 & -> & Hin1).
    apply list_elem_of_fmap in Ht2 as (st2 & Heq & Hin2).
    rewrite Forall_forall in F1, F2.
    destruct (F1 st1 Hin1) as (_ & _ & Hs).
    destruct (F2 st2 Hin2) as (_ & Hn & _).
    rewrite <- Heq in Hn. rewrite Hn in Hs. now destruct Hs.
  - apply Forall_app. split.
    + eapply Forall_impl; [exact F1|]. intros st (Ht & Hn & Hs).
      split; [assumption|]. split; [assumption | now apply G2].
    + eapply Forall_impl; [exact F2|]. intros st (Ht & Hn & Hs).
      split; [assumption|]. split; [|assumption].
      eapply grows_none; eassumption.
Qed.

Lemma fresh_copies_kinds m0 m m' new :
  (forall p, kind_of (m !! p) = kind_of (m0 !! p)) ->
  fresh_copies libdir m m' new -> fresh_copies libdir m0 m' new.
Proof.
  intros Hk [D F]. split; [assumption|].
  eapply Forall_impl; [exact F|]. intros st (Ht & Hn & Hs).
  split; [assumption|]. split; [|assumption].
  apply kind_none. rewrite <- Hk. now apply kind_none.
Qed.

Lemma walk_frame_grows f w w' :
  walk_frame libdir f w w' -> grows (fs w) (fs w').
Proof.
  intros (_ & Hf & Hk & _) p Hp.
  destruct (decide (p = f)) as [->|Hne].
  - destruct Hp as [n Hn]. rewrite Hn in Hk.
    destruct (fs w' !! f); [eauto | destruct n; discriminate].
  - now rewrite Hf.
Qed.

Lemma copy_missing_frame links w acc w2 tl :
  copy_missing libdir links w acc = Ok (w2, tl) ->
  Os.isdir (fs w) libdir = true ->
  Os.isdir (fs w2) libdir = true /\
  (forall p, is_Some (fs w !! p) -> fs w2 !! p = fs w !! p) /\
  calls w2 = calls w /\
  exists new,
    copied w2 = copied w ++ new /\
    fresh_copies libdir (fs w) (fs w2) new /\
    tl = acc ++ map snd new.
Proof.
  revert w acc. induction links as [|link rest IH]; intros w acc H Hd;
    simpl in H.
  - injection H as <- <-. split; [assumption|]. split; [auto|].
    split; [reflexivity|]. exists []. rewrite !app_nil_r.
    split; [reflexivity|]. split; [apply fresh_copies_nil | reflexivity].
  - destruct (Os.exists_ (fs w) (OsPath.join libdir (OsPath.basename link)))
      eqn:Hex; simpl in H; [now apply IH|].
    apply exists_lookup in Hex. unfold bind in H.
    destruct (Os.copy link libdir (fs w)) as [m|] eqn:Hc; [|discriminate].
    apply copy_ok in Hc as (c & Hr & -> & _ & _).
    unfold Os.copy_target in *. rewrite Hd in *.
    set (t := OsPath.join libdir (OsPath.basename link)) in *.
    assert (forall p, is_Some (fs w !! p) ->
                      <[t := File c]> (fs w) !! p = fs w !! p) as Hsame.
    { intros p Hp. rewrite lookup_insert_ne; [reflexivity|].
      intros <-. rewrite Hex in Hp. now destruct Hp. }
    apply IH in H as (Hd2 & Hf2 & Hc2 & new & Hn & Hfresh & Htl);
      simpl in *.
    + split; [assumption|]. split.
      { intros p Hp. rewrite Hf2; [now apply Hsame|].
        rewrite Hsame; assumption. }
      split; [assumption|]. exists ((link, t) :: new).
      split; [now rewrite Hn, <- app_assoc|]. split.
      * apply (fresh_copies_app _ (<[t := File c]> (fs w)) _ [(link, t)]).
        -- split; [apply NoDup_singleton|]. constructor; [|constructor].
           simpl. split; [reflexivity|]. split; [assumption|].
           rewrite lookup_insert_eq. eauto.
        -- assumption.
        -- now apply grows_same.
        -- now apply grows_same.
      * rewrite Htl. simpl. now rewrite <- app_assoc.
    + unfold Os.isdir in *. rewrite Hsame; [assumption|].
      destruct (fs w !! libdir); [eauto | discriminate].
Qed.

Lemma relink_each_frame (rec : world -> string -> option (result world)) :
  (forall w x w',
     Os.isdir (fs w) libdir = true -> rec w x = Some (Ok w') ->
     walk_frame libdir x w w') ->
  forall tl w w',
    Os.isdir (fs w) libdir = true ->
    relink_each rec tl w = Some (Ok w') ->
    Os.isdir (fs w') libdir = true /\
    (forall p, p ∉ tl -> is_Some (fs w !! p) -> fs w' !! p = fs w !! p) /\
    grows (fs w) (fs w') /\
    exists new, copied w' = copied w ++ new
                /\ fresh_copies libdir (fs w) (fs w') new.
Proof.
  intros Hrec tl. induction tl as [|x rest IH]; intros w w' Hd H;
    simpl in H.
  - injection H as <-. split; [assumption|]. split; [auto|].
    split; [apply grows_refl|]. exists []. rewrite app_nil_r.
    split; [reflexivity | apply fresh_copies_nil].
  - destruct (rec w x) as [[w1|e]|] eqn:Hx; try discriminate.
    pose proof (Hrec w x w1 Hd Hx) as Hw.
    pose proof (walk_frame_grows _ _ _ Hw) as Hg1.
    destruct Hw as (Hd1 & Hf1 & Hk1 & new1 & Hn1 & Hfr1).
    destruct (IH w1 w' Hd1 H) as (Hd' & Hf' & Hg' & new2 & Hn2 & Hfr2).
    split; [assumption|]. split.
    { intros p Hp Hs. apply not_elem_of_cons in Hp as [Hpx Hpr].
      rewrite Hf'; [now apply Hf1 | assumption |].
      rewrite Hf1; assumption. }
    split; [eapply grows_trans; eassumption|].
    exists (new1 ++ new2). split; [now rewrite Hn2, Hn1, <- app_assoc|].
    now apply (fresh_copies_app _ (fs w1)).
Qed.

(** The walk leaves every path that existed as it was, but for the
    bytes of the file it was started on, and writes each copy under a
    name that [libdir] did not have. *)
Lemma walk_frame_holds fuel sn w f w' :
  Os.isdir (fs w) libdir = true ->
  _relink_1 plat fuel libdir sn w f = Some (Ok w') ->
  walk_frame libdir f w w'.
Proof.
  revert sn w f w'. induction fuel as [|n IH]; intros sn w f w' Hd H;
    [discriminate|].
  simpl in H.
  destruct (linked plat w f) as [links|] eqn:Hl; [|discriminate].
  destruct (relink plat f libdir sn w) as [w1|] eqn:Hr; [|discriminate].
  destruct (copy_missing libdir links w1 []) as [[w2 tl]|] eqn:Hc;
    [|discriminate].
  assert (forall p, kind_of (fs w1 !! p) = kind_of (fs w !! p)) as Hk1
      by (intros p; eapply relink_kinds; eassumption).
  assert (Os.isdir (fs w1) libdir = true) as Hd1
      by (erewrite isdir_kinds; [eassumption | apply Hk1]).
  pose proof (grows_kinds _ _ Hk1) as Hg1.
  apply copy_missing_frame in Hc
    as (Hd2 & Hf2 & _ & new0 & Hn0 & Hfr0 & Htl); [|assumption].
  simpl in Htl. subst tl.
  apply (relink_each_frame _ (fun w0 x w0' => IH true w0 x w0')) in H
    as (Hd' & Hf' & Hg' & new1 & Hn1 & Hfr1); [|assumption].
  assert (forall p, is_Some (fs w1 !! p) -> fs w' !! p = fs w1 !! p) as Hf1.
  { intros p Hp. rewrite Hf'; [now apply Hf2 | | now rewrite Hf2].
    intros Hin. apply list_elem_of_fmap in Hin as (st & -> & Hin).
    destruct Hfr0 as [_ F0]. rewrite Forall_forall in F0.
    destruct (F0 st Hin) as (_ & Hnone & _).
    rewrite Hnone in Hp. now destruct Hp. }
  split; [assumption|]. split.
  { intros p Hne Hp. rewrite Hf1 by now apply Hg1.
    eapply relink_frame; eassumption. }
  split.
  { rewrite Hf1; [apply Hk1|]. apply Hg1.
    apply linked_isfile, isfile_read in Hl as [c Hc].
    apply read_file_lookup in Hc as [_ Hc]. eauto. }
  exists (new0 ++ new1). split.
  { rewrite Hn1, Hn0. erewrite relink_copied by eassumption.
    now rewrite <- app_assoc. }
  apply (fresh_copies_kinds _ (fs w1)); [assumption|].
  apply (fresh_copies_app _ (fs w2)); try assumption.
  now apply grows_same.
Qed.

End Frame.

(* ===================================================================== *)
(** ** Properties of the closure walk                                     *)
(* ===================================================================== *)

(** C2: the walk returns, with a world or with an exception, for every
    binary, every destination and every state of the file system, cyclic
    references included: each library it goes into was copied under a
    base name that [libdir] did not have, and the base names of the
    files on disk are finitely many. *)
Theorem walk_terminates :
  forall plat, PlatformLaws plat ->
  forall libdir set_name w filename,
    walk_returns plat libdir set_name w filename.
Proof.
  intros plat Hlaws libdir sn w f.
  destruct (Os.isdir (fs w) libdir) eqn:Hd.
  - destruct (walk_dir_returns plat libdir
                (S (size (missing libdir (fs w)))) sn w f Hd)
      as (r & Hr & _); [lia|].
    exists (S (size (missing libdir (fs w)))), r. intros n' Hle.
    eapply _relink_1_mono; eassumption.
  - destruct (walk_nodir_returns plat libdir 0 sn w f Hd) as [r Hr].
    exists 2, r. intros n' Hle. eapply _relink_1_mono; eassumption.
Qed.

Lemma walk_terminates_witness :
  walk_returns (linux Sim.tools) Ex.libdir false Ex.cyclic Ex.tool.
Proof.
  apply (walk_terminates (linux Sim.tools) (linux_laws Sim.tools)).
Defined.

Lemma copy_missing_present libdir links w acc :
  Forall (fun link =>
            Os.exists_ (fs w) (OsPath.join libdir (OsPath.basename link))
            = true) links ->
  copy_missing libdir links w acc = Ok (w, acc).
Proof.
  induction 1 as [|link rest Hl _ IH]; [reflexivity|].
  simpl. now rewrite Hl.
Qed.

(** C4: in a walk into a directory, every copy writes a library under its
    base name where [libdir] had nothing when the walk began, and no base
    name is copied twice; a reference whose base name is there is
    neither copied nor queued; and when every reference of the binary is
    there already, the walk copies nothing and leaves every path but the
    binary itself as it was, the binary staying the file it was. *)
Theorem walk_deduplicates :
  forall plat, PlatformLaws plat ->
  forall libdir set_name w filename fuel w',
    Os.isdir (fs w) libdir = true ->
    _relink_1 plat fuel libdir set_name w filename = Some (Ok w') ->
    (exists new,
       copied w' = copied w ++ new /\
       NoDup (map (fun st : string * string => OsPath.basename st.1) new) /\
       Forall (fun st : string * string =>
                 st.2 = OsPath.join libdir (OsPath.basename st.1) /\
                 fs w !! st.2 = None) new) /\
    (forall link rest w0 to_link,
       Os.exists_ (fs w0) (OsPath.join libdir (OsPath.basename link)) = true ->
       copy_missing libdir (link :: rest) w0 to_link
       = copy_missing libdir rest w0 to_link) /\
    (forall links,
       linked plat w filename = Ok links ->
       Forall (fun link =>
                 Os.exists_ (fs w) (OsPath.join libdir (OsPath.basename link))
                 = true) links ->
       copied w' = copied w /\
       (forall p, p <> filename -> fs w' !! p = fs w !! p) /\
       kind_of (fs w' !! filename) = kind_of (fs w !! filename)).
Proof.
  intros plat Hlaws libdir sn w f fuel w' Hd H. split; [|split].
  - apply walk_frame_holds in H as (_ & _ & _ & new & Hn & Hnd & Hf);
      [|assumption..].
    exists new. split; [assumption|].
    assert (map snd new
            = map (OsPath.join libdir)
                (map (fun st : string * string => OsPath.basename st.1) new))
      as Heq.
    { rewrite map_map. apply map_ext_Forall.
      eapply Forall_impl; [exact Hf|]. now intros st (Ht & _). }
    split.
    + rewrite Heq in Hnd. eapply (NoDup_fmap_1 (OsPath.join libdir)).
      exact Hnd.
    + eapply Forall_impl; [exact Hf|]. now intros st (Ht & Hn' & _).
  - intros link rest w0 tl Hex. simpl. now rewrite Hex.
  - intros links Hl Hall. destruct fuel as [|n]; [discriminate|].
    simpl in H. rewrite Hl in H.
    destruct (relink plat f libdir sn w) as [w1|] eqn:Hr; [|discriminate].
    rewrite copy_missing_present in H.
    + injection H as <-. split; [eapply relink_copied; eassumption|].
      split; [|eapply relink_kind; eassumption].
      intros p Hp. eapply relink_frame; eassumption.
    + eapply Forall_impl; [exact Hall|]. intros link Hex.
      unfold Os.exists_ in *.
      pose proof (relink_kinds plat f libdir sn w w1
                    (OsPath.join libdir (OsPath.basename link)) Hr) as Hk.
      destruct (fs w !! _); [|discriminate].
      destruct (fs w1 !! _); [reflexivity|]. destruct n0; discriminate.
Qed.

Lemma walk_deduplicates_witness :
  exists w',
    _relink_1 (linux Sim.tools) 3 Ex.libdir false Ex.diamond Ex.tool
    = Some (Ok w') /\
    exists new,
      copied w' = copied Ex.diamond ++ new /\
      NoDup (map (fun st : string * string => OsPath.basename st.1) new) /\
      Forall (fun st : string * string =>
                st.2 = OsPath.join Ex.libdir (OsPath.basename st.1) /\
                fs Ex.diamond !! st.2 = None) new.
Proof.
  destruct (_relink_1 (linux Sim.tools) 3 Ex.libdir false Ex.diamond Ex.tool)
    as [[w'|e]|] eqn:H; [|vm_compute in H; discriminate..].
  exists w'. split; [reflexivity|].
  apply (walk_deduplicates (linux Sim.tools) (linux_laws Sim.tools)
           Ex.libdir false Ex.diamond Ex.tool 3 w');
    [vm_compute; reflexivity | exact H].
Defined.

(** C10, as it is worded, fails: a library that the walk itself copied
    into [libdir] and queued is there when a later reference with its
    base name is discovered, and is relinked afterwards, when its turn in
    the queue comes.  Here the binary refers to [liba] and [libb], and
    [liba] refers to [libb]: the walk of the copy of [liba] finds the
    copy of [libb] present and leaves it alone, and the walk of the
    binary then relinks it. *)
Lemma queued_library_relinked_after_discovery :
  exists w1 w2 w3 w',
    relink (linux Sim.tools) Ex.tool Ex.libdir false Ex.diamond = Ok w1 /\
    copy_missing Ex.libdir [Ex.liba; Ex.libb] w1 []
    = Ok (w2, ["/opt/app/lib/liba.so"; "/opt/app/lib/libb.so"]) /\
    linked (linux Sim.tools) w2 "/opt/app/lib/liba.so" = Ok [Ex.libb] /\
    Os.exists_ (fs w2) (OsPath.join Ex.libdir (OsPath.basename Ex.libb))
    = true /\
    _relink_1 (linux Sim.tools) 1 Ex.libdir true w2 "/opt/app/lib/liba.so"
    = Some (Ok w3) /\
    fs w3 !! "/opt/app/lib/libb.so" = fs w2 !! "/opt/app/lib/libb.so" /\
    _relink_1 (linux Sim.tools) 2 Ex.libdir false Ex.diamond Ex.tool
    = Some (Ok w') /\
    fs w' !! "/opt/app/lib/libb.so" <> fs w2 !! "/opt/app/lib/libb.so".
Proof.
  do 4 eexists.
  split; [vm_compute; reflexivity|].
  split; [vm_compute; reflexivity|].
  split; [vm_compute; reflexivity|].
  split; [vm_compute; reflexivity|].
  split; [vm_compute; reflexivity|].
  split; [vm_compute; reflexivity|].
  split; [vm_compute; reflexivity|].
  intros H. vm_compute in H. discriminate.
Qed.

(** C10, amended: in a walk into a directory, a path that exists when the
    walk begins, other than the binary the walk is started on, has at
    the end the node and the bytes it had, and no copy of the walk wrote
    to it, whatever the files the references with its base name point
    to. *)
Theorem walk_keeps_present_files :
  forall plat, PlatformLaws plat ->
  forall libdir set_name w filename fuel w' p,
    Os.isdir (fs w) libdir = true ->
    _relink_1 plat fuel libdir set_name w filename = Some (Ok w') ->
    is_Some (fs w !! p) -> p <> filename ->
    fs w' !! p = fs w !! p /\
    exists new, copied w' = copied w ++ new /\ p ∉ map snd new.
Proof.
  intros plat Hlaws libdir sn w f fuel w' p Hd H Hp Hne.
  apply walk_frame_holds in H as (_ & Hf & _ & new & Hn & _ & Hfr);
    [|assumption..].
  split; [now apply Hf|]. exists new. split; [assumption|].
  intros Hin. apply list_elem_of_fmap in Hin as (st & -> & Hin).
  rewrite Forall_forall in Hfr. destruct (Hfr st Hin) as (_ & Hnone & _).
  rewrite Hnone in Hp. now destruct Hp.
Qed.

Lemma walk_keeps_present_files_witness :
  exists w',
    _relink_1 (linux Sim.tools) 3 Ex.libdir false Ex.prefilled Ex.tool
    = Some (Ok w') /\
    fs w' !! "/opt/app/lib/libb.so" = Some (File "kept").
Proof.
  destruct (_relink_1 (linux Sim.tools) 3 Ex.libdir false Ex.prefilled Ex.tool)
    as [[w'|e]|] eqn:H; [|vm_compute in H; discriminate..].
  exists w'. split; [reflexivity|].
  destruct (walk_keeps_present_files (linux Sim.tools) (linux_laws Sim.tools)
              Ex.libdir false Ex.prefilled Ex.tool 3 w'
              "/opt/app/lib/libb.so")
    as [Hkept _];
    [vm_compute; reflexivity | exact H | vm_compute; eauto
    | vm_compute; discriminate |].
  rewrite Hkept. vm_compute. reflexivity.
Defined.

Lemma relinked_app w w1 cs :
  calls w1 = calls w ++ cs ->
  relinked w1
  = relinked w ++ map (fun cmd => List.last cmd "") (List.filter is_rewrite cs).
Proof.
  intros H. unfold relinked. now rewrite H, List.filter_app, map_app.
Qed.

Lemma copy_missing_calls libdir links w acc w2 tl :
  copy_missing libdir links w acc = Ok (w2, tl) -> calls w2 = calls w.
Proof.
  revert w acc. induction links as [|link rest IH]; intros w acc H; simpl in H.
  - now injection H as <- <-.
  - destruct (Os.exists_ (fs w) _); simpl in H; [now apply IH in H|].
    unfold bind in H.
    destruct (Os.copy link libdir (fs w)) as [m|]; [|discriminate].
    now apply IH in H.
Qed.

Lemma copy_missing_relinked libdir links w acc w2 tl :
  copy_missing libdir links w acc = Ok (w2, tl) -> relinked w2 = relinked w.
Proof.
  intros H. apply copy_missing_calls in H. unfold relinked. now rewrite H.
Qed.

Lemma linux_relink_relinked E f libdir sn w w1 :
  _linux_relink E f libdir sn w = Ok w1 -> relinked w1 = relinked w ++ [f].
Proof.
  intros H. apply _linux_relink_calls in H.
  now rewrite (relinked_app _ _ _ H).
Qed.

Lemma relink_each_segments (rec : world -> string -> option (result world))
    tl w w' :
  (forall wa x wb, rec wa x = Some (Ok wb) ->
                   exists tail, relinked wb = relinked wa ++ x :: tail) ->
  relink_each rec tl w = Some (Ok w') ->
  exists segs,
    segments rec tl w segs w' /\
    Forall2 (fun x seg => exists tail, seg = x :: tail) tl segs /\
    relinked w' = relinked w ++ List.concat segs.
Proof.
  intros Hrec. revert w. induction tl as [|x rest IH]; intros w H; simpl in H.
  - injection H as <-. exists []. split; [constructor|].
    split; [constructor|]. simpl. now rewrite app_nil_r.
  - destruct (rec w x) as [[w1|e]|] eqn:Hx; try discriminate.
    destruct (Hrec _ _ _ Hx) as [tail Ht].
    destruct (IH _ H) as (segs & Hs & Hf & Hr).
    exists ((x :: tail) :: segs). split; [econstructor; eassumption|].
    split; [constructor; eauto|].
    rewrite Hr, Ht. simpl. now rewrite <- app_assoc.
Qed.

Lemma linux_walk_relinks_first E libdir fuel sn w f w' :
  _relink_1 (linux E) fuel libdir sn w f = Some (Ok w') ->
  exists tail, relinked w' = relinked w ++ f :: tail.
Proof.
  revert sn w f w'. induction fuel as [|n IH]; intros sn w f w' H;
    [discriminate|].
  simpl in H.
  destruct (_linux_linked E w f) as [links|]; [|discriminate].
  destruct (_linux_relink E f libdir sn w) as [w1|] eqn:Hr; [|discriminate].
  destruct (copy_missing libdir links w1 []) as [[w2 tl]|] eqn:Hc;
    [|discriminate].
  apply linux_relink_relinked in Hr. apply copy_missing_relinked in Hc.
  apply relink_each_segments in H as (segs & _ & _ & Hs);
    [|intros wa x wb; apply IH].
  exists (List.concat segs). rewrite Hs, Hc, Hr. now rewrite <- app_assoc.
Qed.




(* ===================================================================== *)
(** ** The entries of the destination directory                           *)
(* ===================================================================== *)

Section ListDir.

Lemma elem_of_listdir (m : filesystem) d s :
  s ∈ listdir m d <->
  s <> "" /\ no_slash s = true /\ is_Some (m !! OsPath.join d s).
Proof.
  unfold listdir. rewrite elem_of_list_to_set, list_elem_of_omap. split.
  - intros ([k n] & Hin & Hs). apply elem_of_map_to_list in Hin.
    simpl in Hs.
    destruct (String.eqb_spec (OsPath.basename k) "") as [|Hne];
      [discriminate|].
    destruct (String.eqb_spec (OsPath.join d (OsPath.basename k)) k)
      as [Hk|]; [|discriminate].
    simpl in Hs. injection Hs as <-.
    split; [assumption|]. split; [apply basename_no_slash|].
    rewrite Hk. eauto.
  - intros (Hne & Hns & [n Hn]). exists (OsPath.join d s, n).
    split; [now apply elem_of_map_to_list|]. simpl.
    rewrite (basename_join d s Hns).
    destruct (String.eqb_spec s "") as [|_]; [contradiction|].
    now rewrite String.eqb_refl.
Qed.

Lemma listdir_kinds (m m' : filesystem) d :
  (forall p, kind_of (m' !! p) = kind_of (m !! p)) ->
  listdir m' d = listdir m d.
Proof.
  intros Hk. apply set_eq. intros s. rewrite !elem_of_listdir.
  assert (is_Some (m' !! OsPath.join d s) <-> is_Some (m !! OsPath.join d s))
    as ->; [|reflexivity].
  rewrite <- !not_eq_None_Some, <- !kind_none. now rewrite Hk.
Qed.

Lemma join_inj d s s' :
  no_slash s = true -> no_slash s' = true ->
  OsPath.join d s = OsPath.join d s' -> s = s'.
Proof.
  intros Hs Hs' H. apply (f_equal OsPath.basename) in H.
  now rewrite !basename_join in H.
Qed.

Lemma elem_of_listdir_insert (m : filesystem) d s n s' :
  s <> "" -> no_slash s = true ->
  s' ∈ listdir (<[OsPath.join d s := n]> m) d <-> s' = s \/ s' ∈ listdir m d.
Proof.
  intros Hne Hns. rewrite !elem_of_listdir. split.
  - intros (Hne' & Hns' & Hs).
    destruct (decide (s' = s)) as [|Hd]; [now left|]. right.
    rewrite lookup_insert_ne in Hs; [auto|].
    intros Heq. apply Hd. symmetry. now apply (join_inj d).
  - intros [->|(Hne' & Hns' & Hs)].
    + rewrite lookup_insert_eq. eauto.
    + split; [assumption|]. split; [assumption|].
      destruct (decide (OsPath.join d s = OsPath.join d s')) as [->|Hd].
      * rewrite lookup_insert_eq. eauto.
      * now rewrite lookup_insert_ne.
Qed.

Lemma isfile_basename (m : filesystem) p :
  Os.isfile m p = true -> OsPath.basename p <> "".
Proof.
  intros H. apply isfile_read in H as [c H].
  now apply read_file_lookup in H as [Hne _].
Qed.

Lemma read_file_kinds (m m' : filesystem) p :
  kind_of (m' !! p) = kind_of (m !! p) ->
  Os.isfile m p = true -> Os.isfile m' p = true.
Proof.
  intros Hk H. apply isfile_read in H as [c H].
  apply read_file_lookup in H as [Hne Hl].
  rewrite Hl in Hk. apply kind_file in Hk as [c' Hc'].
  apply isfile_read. exists c'. now apply read_file_lookup.
Qed.

End ListDir.

(* ===================================================================== *)
(** ** The walk and the dependency graph                                  *)
(* ===================================================================== *)

Section Closure.

Context (plat : Platform) `{!PlatformLaws plat} `{!StableInspector plat}.
Context (libdir root : string) (w0 : world).

Hypothesis graph_on_disk :
  forall q, reach plat w0 root q -> Os.isfile (fs w0) q = true.
Hypothesis base_names_unique :
  forall p q, reach plat w0 root p -> reach plat w0 root q ->
              OsPath.basename p = OsPath.basename q -> p = q.

Lemma linked_same_lookup w w' p :
  fs w' !! p = fs w !! p -> Os.isfile (fs w) p = true ->
  Os.isfile (fs w') p = true /\ linked plat w' p = linked plat w p.
Proof.
  intros Hl Hf. apply isfile_read in Hf as [c Hc].
  assert (Os.read_file (fs w') p = Some c) as Hc'
      by (unfold Os.read_file in *; now rewrite Hl).
  split; [apply isfile_read; eauto|].
  eapply linked_bytes; eassumption.
Qed.

Lemma linked_after_relink f sn w w1 p :
  relink plat f libdir sn w = Ok w1 -> Os.isfile (fs w) p = true ->
  Os.isfile (fs w1) p = true /\ linked plat w1 p = linked plat w p.
Proof.
  intros Hr Hf. destruct (decide (p = f)) as [->|Hne].
  - split; [|eapply linked_relink; eassumption].
    eapply read_file_kinds; [|eassumption]. eapply relink_kind; eassumption.
  - apply linked_same_lookup; [|assumption].
    eapply relink_frame; eassumption.
Qed.

Lemma inv_relink f sn w w1 :
  walk_inv plat libdir root w0 w -> relink plat f libdir sn w = Ok w1 ->
  walk_inv plat libdir root w0 w1 /\
  listdir (fs w1) libdir = listdir (fs w) libdir.
Proof.
  intros (Hd & Hfiles & Hent) Hr.
  assert (forall p, kind_of (fs w1 !! p) = kind_of (fs w !! p)) as Hk
      by (intros p; eapply relink_kinds; eassumption).
  pose proof (listdir_kinds _ _ libdir Hk) as Hn.
  split; [|assumption]. split; [|split].
  - erewrite isdir_kinds; [eassumption | apply Hk].
  - intros p Hp. destruct (Hfiles p Hp) as [Hf Hl].
    destruct (linked_after_relink _ _ _ _ p Hr Hf) as [Hf1 Hl1].
    split; [assumption | congruence].
  - intros s Hs. rewrite Hn in Hs.
    destruct (Hent s Hs) as (Hf & q & Hq & Hb & Hl).
    destruct (linked_after_relink _ _ _ _ _ Hr Hf) as [Hf1 Hl1].
    split; [assumption|]. exists q. split; [assumption|].
    split; [assumption | congruence].
Qed.

Lemma inv_copy link c w w1 :
  walk_inv plat libdir root w0 w ->
  reach plat w0 root link ->
  Os.read_file (fs w) link = Some c ->
  fs w !! OsPath.join libdir (OsPath.basename link) = None ->
  fs w1 = <[OsPath.join libdir (OsPath.basename link) := File c]> (fs w) ->
  walk_inv plat libdir root w0 w1.
Proof.
  intros (Hd & Hfiles & Hent) Hq Hc Hnone Hfs.
  set (s := OsPath.basename link) in *.
  set (t := OsPath.join libdir s) in *.
  assert (s <> "") as Hne by (now apply read_file_lookup in Hc as [? _]).
  assert (no_slash s = true) as Hns by apply basename_no_slash.
  assert (forall p, is_Some (fs w !! p) -> fs w1 !! p = fs w !! p) as Hsame.
  { intros p Hp. rewrite Hfs, lookup_insert_ne; [reflexivity|].
    intros <-. rewrite Hnone in Hp. now destruct Hp. }
  assert (forall p, Os.isfile (fs w) p = true -> is_Some (fs w !! p)) as Hpres.
  { intros p Hp. apply isfile_read in Hp as [c' Hp].
    apply read_file_lookup in Hp as [_ Hp]. eauto. }
  split; [|split].
  - unfold Os.isdir in *. rewrite Hsame; [assumption|].
    destruct (fs w !! libdir); [eauto | discriminate].
  - intros p Hp. destruct (Hfiles p Hp) as [Hf Hl].
    destruct (linked_same_lookup w w1 p) as [Hf1 Hl1];
      [now apply Hsame, Hpres | assumption |].
    split; [assumption | congruence].
  - intros s' Hs'. rewrite Hfs in Hs'.
    apply elem_of_listdir_insert in Hs' as [->|Hs']; try assumption.
    + assert (Os.read_file (fs w1) t = Some c) as Hc1.
      { apply read_file_lookup. split.
        - unfold t. now rewrite basename_join.
        - now rewrite Hfs, lookup_insert_eq. }
      split; [apply isfile_read; eauto|].
      exists link. split; [assumption|]. split; [reflexivity|].
      rewrite (linked_bytes w1 w t link c Hc1 Hc).
      apply Hfiles. now apply graph_on_disk.
    + destruct (Hent s' Hs') as (Hf & q & Hq' & Hb & Hl).
      destruct (linked_same_lookup w w1 (OsPath.join libdir s')) as [Hf1 Hl1];
        [now apply Hsame, Hpres | assumption |].
      split; [assumption|]. exists q. split; [assumption|].
      split; [assumption | congruence].
Qed.

Lemma copy_missing_closure links w acc w2 tl :
  walk_inv plat libdir root w0 w ->
  (forall q, q ∈ links -> reach plat w0 root q) ->
  copy_missing libdir links w acc = Ok (w2, tl) ->
  walk_inv plat libdir root w0 w2 /\
  (forall s, s ∈ listdir (fs w) libdir -> s ∈ listdir (fs w2) libdir) /\
  (forall q, q ∈ links -> OsPath.basename q ∈ listdir (fs w2) libdir) /\
  exists newn,
    tl = acc ++ map (OsPath.join libdir) newn /\
    (forall s, s ∈ listdir (fs w2) libdir ->
               s ∈ listdir (fs w) libdir \/ s ∈ newn) /\
    (forall s, s ∈ newn -> s ∈ listdir (fs w2) libdir).
Proof.
  revert w acc. induction links as [|link rest IH]; intros w acc Hinv Hreach H;
    simpl in H.
  - injection H as <- <-. split; [assumption|]. split; [auto|].
    split; [intros q Hq; inversion Hq|]. exists []. rewrite app_nil_r.
    split; [reflexivity|]. split; [auto | intros s Hs; inversion Hs].
  - assert (reach plat w0 root link) as Hlink by (apply Hreach; left).
    assert (OsPath.basename link <> "") as Hne
        by (eapply isfile_basename, graph_on_disk; eassumption).
    pose proof (basename_no_slash link) as Hns.
    assert (forall q, q ∈ rest -> reach plat w0 root q) as Hrest
        by (intros q Hq; apply Hreach; now right).
    destruct (Os.exists_ (fs w) (OsPath.join libdir (OsPath.basename link)))
      eqn:Hex; simpl in H.
    + destruct (IH _ _ Hinv Hrest H) as (Hinv2 & Hmono & Hcov & newn & Hn).
      split; [assumption|]. split; [assumption|]. split; [|eauto].
      intros q Hq. apply elem_of_cons in Hq as [->|Hq]; [|now apply Hcov].
      apply Hmono, elem_of_listdir. split; [assumption|].
      split; [assumption|]. unfold Os.exists_ in Hex.
      destruct (fs w !! _); [eauto | discriminate].
    + apply exists_lookup in Hex. unfold bind in H.
      destruct (Os.copy link libdir (fs w)) as [m|] eqn:Hc; [|discriminate].
      apply copy_ok in Hc as (c & Hr & -> & _ & _).
      pose proof Hinv as (Hd & _).
      unfold Os.copy_target in *. rewrite Hd in *.
      match type of H with
      | copy_missing _ _ ?w1 _ = _ =>
          assert (walk_inv plat libdir root w0 w1) as Hinv1
            by (eapply (inv_copy link c w w1); try eassumption; reflexivity);
          destruct (IH _ _ Hinv1 Hrest H)
            as (Hinv2 & Hmono & Hcov & newn & Htl & Hnew & Hin)
      end.
      simpl in Hmono, Hnew.
      split; [assumption|]. split.
      { intros s Hs. apply Hmono, elem_of_listdir_insert; auto. }
      split.
      { intros q Hq. apply elem_of_cons in Hq as [->|Hq]; [|now apply Hcov].
        apply Hmono, elem_of_listdir_insert; auto. }
      exists (OsPath.basename link :: newn). split.
      { rewrite Htl. simpl. now rewrite <- app_assoc. }
      split.
      { intros s Hs. destruct (Hnew s Hs) as [Hs'|Hs'].
        - apply elem_of_listdir_insert in Hs' as [->|Hs']; auto.
          right. left.
        - right. now right. }
      intros s Hs. apply elem_of_cons in Hs as [->|Hs]; [|now apply Hin].
      apply Hmono, elem_of_listdir_insert; auto.
Qed.

Lemma covered_mono w w' q :
  (forall s, s ∈ listdir (fs w) libdir -> s ∈ listdir (fs w') libdir) ->
  covered plat libdir w0 w q -> covered plat libdir w0 w' q.
Proof. intros Hm Hc l q' Hl Hq'. eapply Hm, Hc; eassumption. Qed.

Lemma relink_each_closure n :
  (forall sn w f q0 w',
     walk_inv plat libdir root w0 w -> reach plat w0 root q0 ->
     linked plat w f = linked plat w0 q0 ->
     _relink_1 plat n libdir sn w f = Some (Ok w') ->
     walk_post plat libdir root w0 w q0 w') ->
  forall newn w w',
    walk_inv plat libdir root w0 w ->
    (forall s, s ∈ newn -> s ∈ listdir (fs w) libdir) ->
    relink_each (_relink_1 plat n libdir true)
      (map (OsPath.join libdir) newn) w = Some (Ok w') ->
    walk_inv plat libdir root w0 w' /\
    (forall s, s ∈ listdir (fs w) libdir -> s ∈ listdir (fs w') libdir) /\
    (forall s, s ∈ newn ->
               forall q, reach plat w0 root q -> OsPath.basename q = s ->
                         covered plat libdir w0 w' q) /\
    (forall s, s ∈ listdir (fs w') libdir -> s ∉ listdir (fs w) libdir ->
               forall q, reach plat w0 root q -> OsPath.basename q = s ->
                         covered plat libdir w0 w' q).
Proof.
  intros Hrec newn. induction newn as [|s rest IH]; intros w w' Hinv Hin H;
    simpl in H.
  - injection H as <-. split; [assumption|]. split; [auto|].
    split; [intros s Hs; inversion Hs|]. intros s Hs Hns. contradiction.
  - destruct (_relink_1 plat n libdir true w (OsPath.join libdir s))
      as [[w1|e]|] eqn:Hx; try discriminate.
    destruct Hinv as (Hd & Hfiles & Hent).
    destruct (Hent s) as (_ & q & Hq & Hb & Hl); [apply Hin; left|].
    destruct (Hrec true w _ q w1 (conj Hd (conj Hfiles Hent)) Hq Hl Hx)
      as (Hinv1 & Hm1 & Hc1 & Hnew1).
    rewrite elem_of_subseteq in Hm1.
    destruct (IH w1 w' Hinv1) as (Hinv' & Hm' & Hc' & Hnew'); [|assumption|].
    { intros s' Hs'. apply Hm1, Hin. now right. }
    split; [assumption|]. split; [auto|]. split.
    + intros s' Hs' q' Hq' Hb'.
      apply elem_of_cons in Hs' as [->|Hs']; [|now apply (Hc' s')].
      assert (q' = q) as -> by (apply base_names_unique; congruence).
      now apply (covered_mono w1).
    + intros s' Hs' Hns' q' Hq' Hb'.
      destruct (decide (s' ∈ listdir (fs w1) libdir)) as [Hs1|Hs1].
      * apply (covered_mono w1); [assumption|]. now apply (Hnew1 s').
      * now apply (Hnew' s').
Qed.

(** The walk for a library of the graph, started where the invariant
    holds, keeps it, and leaves in [libdir] the base names of the
    references of that library and of every library it added. *)
Lemma walk_closure fuel sn w f q0 w' :
  walk_inv plat libdir root w0 w ->
  q0 = root \/ reach plat w0 root q0 ->
  linked plat w f = linked plat w0 q0 ->
  _relink_1 plat fuel libdir sn w f = Some (Ok w') ->
  walk_post plat libdir root w0 w q0 w'.
Proof.
  revert sn w f q0 w'. induction fuel as [|n IH];
    intros sn w f q0 w' Hinv Hq0 Hlq H; [discriminate|].
  simpl in H.
  destruct (linked plat w f) as [links|] eqn:Hl; [|discriminate].
  destruct (relink plat f libdir sn w) as [w1|] eqn:Hr; [|discriminate].
  destruct (copy_missing libdir links w1 []) as [[w2 tl]|] eqn:Hc;
    [|discriminate].
  assert (forall q, q ∈ links -> reach plat w0 root q) as Hreach.
  { intros q Hq. destruct Hq0 as [->|Hq0].
    - eapply reach_direct; [symmetry; eassumption | assumption].
    - eapply reach_step; [eassumption | symmetry; eassumption | assumption]. }
  destruct (inv_relink _ _ _ _ Hinv Hr) as [Hinv1 Hn1].
  destruct (copy_missing_closure _ _ _ _ _ Hinv1 Hreach Hc)
    as (Hinv2 & Hm2 & Hcov2 & newn & Htl & Hnew2 & Hin2).
  simpl in Htl. subst tl.
  destruct (relink_each_closure n) with (newn := newn) (w := w2) (w' := w')
    as (Hinv' & Hm' & Hc' & Hnew'); try assumption.
  { intros sn0 wa fa qa wb Ha Hqa. apply IH; auto. }
  rewrite Hn1 in *.
  split; [assumption|]. split; [apply elem_of_subseteq; auto|]. split.
  - intros l q' Hl0 Hq'. rewrite <- Hlq in Hl0. injection Hl0 as <-.
    now apply Hm', Hcov2.
  - intros s Hs Hns q Hq Hb.
    destruct (decide (s ∈ listdir (fs w2) libdir)) as [Hs2|Hs2].
    + destruct (Hnew2 s Hs2) as [|Hs']; [contradiction|].
      now apply (Hc' s).
    + now apply (Hnew' s).
Qed.

End Closure.

(* ===================================================================== *)
(** ** Closure completeness                                               *)
(* ===================================================================== *)

Section SimStable.

Lemma split_header_one_line x b :
  Sim.split_header (Sim.one_line x +:+ Str.LF +:+ b) = (Sim.one_line x, b).
Proof.
  induction x as [|c x IH]; [reflexivity|].
  simpl Sim.one_line. destruct (Nat.eqb (Str.ord c) 10) eqn:Hc; [exact IH|].
  rewrite append_cons. simpl. now rewrite Hc, IH.
Qed.

Lemma body_rewrite cmd c : Sim.body (Sim.rewrite cmd c) = Sim.body c.
Proof.
  unfold Sim.body at 1, Sim.rewrite. now rewrite split_header_one_line.
Qed.

Lemma read_file_insert (m : filesystem) f x :
  OsPath.basename f <> "" -> Os.read_file (<[f := File x]> m) f = Some x.
Proof.
  intros Hne. apply read_file_lookup. split; [assumption|].
  now rewrite lookup_insert_eq.
Qed.

Lemma sim_linux_linked w f :
  _linux_linked Sim.tools w f
  = match Os.read_file (fs w) f with
    | Some c =>
        linux_lines (libc6_filter Sim.dpkg_out) (Str.splitlines (Sim.body c)) []
    | None => Raise (CalledProcessError ["ldd"; f])
    end.
Proof.
  unfold _linux_linked, _libc6_links, check_output, bind. simpl.
  now destruct (Os.read_file (fs w) f).
Qed.

(** The simulated [ldd] reads the bytes of the file only, and the
    simulated [patchelf] leaves what it prints alone. *)
Global Instance sim_linux_stable : StableInspector (linux Sim.tools).
Proof.
  split; simpl.
  - intros w w' f f' c H H'. rewrite !sim_linux_linked. now rewrite H, H'.
  - intros f d b w w' H. unfold _linux_relink, check_call in H. simpl in H.
    unfold Sim.call in H. simpl in H.
    destruct (Os.read_file (fs w) f) as [c|] eqn:Hc; [|discriminate].
    injection H as <-. rewrite !sim_linux_linked. simpl. rewrite Hc.
    apply read_file_lookup in Hc as [Hne Hl].
    rewrite read_file_insert by assumption.
    now rewrite body_rewrite.
Qed.

End SimStable.

(** Membership in a list that is written out. *)
Ltac list_cases H :=
  repeat (apply elem_of_cons in H as [->|H]); [..|now inversion H].

Ltac in_list := apply list_elem_of_In; simpl; auto 10.

Lemma collision_graph q :
  reach (linux Sim.tools) Ex.collision Ex.tool q ->
  q ∈ [Ex.libx1; Ex.libx2; Ex.liby; Ex.libz].
Proof.
  induction 1 as [l q Hl Hq | p l q _ IH Hl Hq].
  - vm_compute in Hl. injection Hl as <-. list_cases Hq; in_list.
  - list_cases IH; vm_compute in Hl; injection Hl as <-; list_cases Hq;
      in_list.
Qed.



Lemma nested_graph q :
  reach (linux Sim.tools) Ex.nested Ex.tool q ->
  q ∈ [Ex.liba; Ex.libb; Ex.libc].
Proof.
  induction 1 as [l q Hl Hq | p l q _ IH Hl Hq].
  - vm_compute in Hl. injection Hl as <-. list_cases Hq; in_list.
  - list_cases IH; vm_compute in Hl; injection Hl as <-; list_cases Hq;
      in_list.
Qed.


(* ===================================================================== *)
(** ** Versions                                                           *)
(* ===================================================================== *)

Section Versions.

Lemma all_chars_append P a b :
  all_chars P (a +:+ b) = all_chars P a && all_chars P b.
Proof.
  induction a as [|c a IH]; [reflexivity|].
  rewrite append_cons. simpl. now rewrite IH, andb_assoc.
Qed.

Lemma all_chars_impl (P Q : ascii -> bool) s :
  (forall c, P c = true -> Q c = true) ->
  all_chars P s = true -> all_chars Q s = true.
Proof.
  intros HPQ. induction s as [|c s IH]; [reflexivity|]. simpl.
  intros H. apply andb_prop in H as [Hc Hs]. now rewrite (HPQ c Hc), IH.
Qed.

Lemma lstrip_no_space s :
  all_chars (fun c => negb (Str.is_space c)) s = true -> Str.lstrip s = s.
Proof.
  destruct s as [|c s]; [reflexivity|]. simpl. intros H.
  apply andb_prop in H as [Hc _]. now destruct (Str.is_space c).
Qed.

Lemma rstrip_no_space s :
  all_chars (fun c => negb (Str.is_space c)) s = true -> Str.rstrip s = s.
Proof.
  induction s as [|c s IH]; [reflexivity|]. simpl. intros H.
  apply andb_prop in H as [Hc Hs]. rewrite (IH Hs).
  destruct (Str.is_space c); [discriminate|]. now rewrite andb_false_r.
Qed.

Lemma strip_no_space s :
  all_chars (fun c => negb (Str.is_space c)) s = true -> Str.strip s = s.
Proof.
  intros H. unfold Str.strip. rewrite (lstrip_no_space s H).
  now apply rstrip_no_space.
Qed.

Lemma digit_cases c :
  Py.is_digit c = true ->
  Str.is_space c = false /\ Py.is_underscore c = false /\
  Ascii.eqb c "-" = false /\ Ascii.eqb c "+" = false /\
  Ascii.eqb c "." = false.
Proof.
  unfold Py.is_digit, Str.is_space, Py.is_underscore, Str.ord.
  intros H. apply andb_prop in H as [H1 H2].
  apply Nat.leb_le in H1, H2.
  assert (forall d, nat_of_ascii d < 48 \/ 57 < nat_of_ascii d ->
                    Ascii.eqb c d = false) as Hne.
  { intros d Hd. apply Ascii.eqb_neq. intros ->. lia. }
  repeat split; try (apply Hne; vm_compute; lia).
  repeat match goal with
         | |- context [Nat.leb ?a ?b] =>
             destruct (Nat.leb_spec a b); try lia
         | |- context [Nat.eqb ?a ?b] =>
             destruct (Nat.eqb_spec a b); try lia
         end; reflexivity.
Qed.

Lemma uint_string_digits d :
  all_chars Py.is_digit (DecimalString.NilEmpty.string_of_uint d) = true.
Proof. induction d; simpl; auto. Qed.

Lemma digits_ok_all_digits s b :
  all_chars Py.is_digit s = true -> s <> "" \/ b = true ->
  Py.digits_ok s b = true.
Proof.
  revert b. induction s as [|c s IH]; intros b H Hb; simpl in *.
  - destruct Hb; congruence.
  - apply andb_prop in H as [Hc Hs]. rewrite Hc. apply IH; auto.
Qed.

Lemma without_underscores_digits s :
  all_chars Py.is_digit s = true -> Py.without_underscores s = s.
Proof.
  induction s as [|c s IH]; [reflexivity|]. simpl. intros H.
  apply andb_prop in H as [Hc Hs].
  destruct (digit_cases c Hc) as (_ & -> & _). now rewrite IH.
Qed.

Lemma digits_value_uint d :
  d <> Decimal.Nil ->
  Py.digits_value (DecimalString.NilEmpty.string_of_uint d)
  = Some (Z.of_uint d).
Proof.
  intros Hd. unfold Py.digits_value.
  pose proof (uint_string_digits d) as Hall.
  rewrite digits_ok_all_digits; [|assumption|].
  - rewrite without_underscores_digits by assumption.
    now rewrite DecimalString.NilEmpty.usu.
  - left. destruct d; simpl; congruence.
Qed.

(** What [str] prints for a positive number. *)
Lemma str_pos p :
  exists c r,
    DecimalString.NilEmpty.string_of_uint (Pos.to_uint p) = String c r /\
    Py.is_digit c = true /\ all_chars Py.is_digit r = true.
Proof.
  pose proof (uint_string_digits (Pos.to_uint p)) as Hall.
  pose proof (DecimalPos.Unsigned.to_uint_nonnil p) as Hn.
  destruct (DecimalString.NilEmpty.string_of_uint (Pos.to_uint p))
    as [|c r] eqn:Hs.
  - destruct (Pos.to_uint p); simpl in Hs; congruence.
  - simpl in Hall. apply andb_prop in Hall as [Hc Hr]. eauto.
Qed.

Lemma nilzero_pos p :
  DecimalString.NilZero.string_of_uint (Pos.to_uint p)
  = DecimalString.NilEmpty.string_of_uint (Pos.to_uint p).
Proof.
  pose proof (DecimalPos.Unsigned.to_uint_nonnil p) as Hn.
  now destruct (Pos.to_uint p).
Qed.

Lemma of_uint_pos p : Z.of_uint (Pos.to_uint p) = Z.pos p.
Proof.
  unfold Z.of_uint. now rewrite DecimalPos.Unsigned.of_to.
Qed.

Lemma digits_no_space s :
  all_chars Py.is_digit s = true ->
  all_chars (fun c => negb (Str.is_space c)) s = true.
Proof.
  apply all_chars_impl. intros c Hc.
  now destruct (digit_cases c Hc) as (-> & _).
Qed.

(** [int(str(n)) == n] *)
Lemma int_str n : Py.int (Py.str n) = Some n.
Proof.
  destruct n as [|p|p]; [reflexivity| |]; unfold Py.str, Py.int; simpl;
    rewrite nilzero_pos;
    destruct (str_pos p) as (c & r & Hs & Hc & Hr);
    pose proof (digits_value_uint (Pos.to_uint p)
                  (DecimalPos.Unsigned.to_uint_nonnil p)) as Hv;
    rewrite Hs in *; rewrite of_uint_pos in Hv.
  - rewrite strip_no_space
      by (simpl; rewrite (digits_no_space r Hr);
          now destruct (digit_cases c Hc) as (-> & _)).
    destruct (digit_cases c Hc) as (_ & _ & -> & -> & _). exact Hv.
  - rewrite strip_no_space
      by (simpl; rewrite (digits_no_space r Hr);
          now destruct (digit_cases c Hc) as (-> & _)).
    simpl. now rewrite Hv.
Qed.

(** [str(n)] has no dot and no slash. *)
Lemma str_chars n :
  all_chars (fun c => Py.is_digit c || Ascii.eqb c "-") (Py.str n) = true.
Proof.
  assert (forall s, all_chars Py.is_digit s = true ->
            all_chars (fun c => Py.is_digit c || Ascii.eqb c "-") s = true)
    as Himp by (intros s; apply all_chars_impl; intros c ->; reflexivity).
  destruct n as [|p|p]; [reflexivity| |]; unfold Py.str; simpl;
    rewrite nilzero_pos; [|simpl]; apply Himp, uint_string_digits.
Qed.

Lemma split_from_no_sep sep s cur :
  all_chars (fun c => negb (Ascii.eqb c sep)) s = true ->
  Py.split_from sep s cur = [cur +:+ s].
Proof.
  revert cur. induction s as [|c s IH]; intros cur H; simpl in *.
  - now rewrite append_empty_r.
  - apply andb_prop in H as [Hc Hs].
    destruct (Ascii.eqb c sep); [discriminate|].
    rewrite IH by assumption. unfold Str.snoc. now rewrite append_assoc.
Qed.

Lemma split_from_sep sep a rest cur :
  all_chars (fun c => negb (Ascii.eqb c sep)) a = true ->
  Py.split_from sep (a +:+ String sep rest) cur
  = (cur +:+ a) :: Py.split_from sep rest "".
Proof.
  revert cur. induction a as [|c a IH]; intros cur H.
  - simpl. rewrite Ascii.eqb_refl. now rewrite append_empty_r.
  - rewrite append_cons. simpl in *. apply andb_prop in H as [Hc Ha].
    destruct (Ascii.eqb c sep); [discriminate|].
    rewrite IH by assumption. unfold Str.snoc. now rewrite append_assoc.
Qed.

Lemma str_no_dot n :
  all_chars (fun c => negb (Ascii.eqb c ".")) (Py.str n) = true.
Proof.
  eapply all_chars_impl; [|apply str_chars]. intros c Hc. simpl in Hc.
  apply orb_prop in Hc as [Hc|Hc].
  - now destruct (digit_cases c Hc) as (_ & _ & _ & _ & ->).
  - apply Ascii.eqb_eq in Hc. now subst c.
Qed.

End Versions.

Section VersionFacts.

Lemma split_from_length sep s cur :
  length (Py.split_from sep s cur) = S (count_char sep s).
Proof.
  revert cur. induction s as [|c s IH]; intros cur; [reflexivity|].
  simpl. destruct (Ascii.eqb c sep); simpl; now rewrite IH.
Qed.

Lemma split_from_cons sep s cur :
  exists x xs, Py.split_from sep s cur = x :: xs.
Proof.
  revert cur. induction s as [|c s IH]; intros cur; simpl; [eauto|].
  destruct (Ascii.eqb c sep); eauto.
Qed.

Lemma append_inv_l (a b c : string) : a +:+ b = a +:+ c -> b = c.
Proof.
  induction a as [|x a IH]; [auto|]. rewrite !append_cons.
  intros [= H]. auto.
Qed.

Lemma append_inv_r (a b c : string) : a +:+ c = b +:+ c -> a = b.
Proof.
  revert b. induction a as [|x a IH]; intros [|y b] H.
  - reflexivity.
  - apply (f_equal String.length) in H.
    rewrite append_nil_l, length_append in H. simpl in H. lia.
  - apply (f_equal String.length) in H.
    rewrite append_nil_l, length_append in H. simpl in H. lia.
  - rewrite !append_cons in H. injection H as -> H. f_equal. now apply IH.
Qed.

Lemma dot_append (x : string) : "." +:+ x = String "." x.
Proof. reflexivity. Qed.

Lemma version_split v :
  Py.split "." (Version_s v)
  = [Py.str (major v); Py.str (minor v); Py.str (patch v)].
Proof.
  unfold Py.split, Version_s. rewrite !dot_append.
  rewrite split_from_sep by apply str_no_dot.
  rewrite split_from_sep by apply str_no_dot.
  now rewrite split_from_no_sep by apply str_no_dot.
Qed.

End VersionFacts.


(** X2: [Version.parse] raises [ValueError] on every text that does not
    have exactly two dots. *)
Theorem version_parse_two_dots :
  forall s, count_char "." s <> 2 -> Version_parse s = Throws ValueError.
Proof.
  intros s Hn. unfold Version_parse.
  pose proof (split_from_length "." s "") as Hlen. fold (Py.split "." s) in Hlen.
  destruct (Py.split "." s) as [|a [|b [|c [|d rest]]]]; try reflexivity.
  simpl in Hlen. lia.
Qed.

Lemma version_parse_two_dots_witness :
  Version_parse "3.8" = Throws ValueError.
Proof. apply version_parse_two_dots. vm_compute. discriminate. Defined.

Lemma version_s_injective v1 v2 : Version_s v1 = Version_s v2 -> v1 = v2.
Proof.
  intros H. apply (f_equal Version_parse) in H.
  destruct v1 as [a1 b1 c1], v2 as [a2 b2 c2]. unfold Version_parse in H.
  rewrite !version_split in H. simpl in H. rewrite !int_str in H. congruence.
Qed.

(** X3: on one platform, two versions never get the same archive name,
    on Linux and on Darwin. *)
Theorem archive_name_injective :
  forall libc macos machine v1 v2,
    (_linux_archive_name libc machine v1 = _linux_archive_name libc machine v2
     -> v1 = v2) /\
    (forall name,
       _darwin_archive_name macos machine v1 = Returns name ->
       _darwin_archive_name macos machine v2 = Returns name ->
       v1 = v2).
Proof.
  intros libc macos machine v1 v2. split.
  - unfold _linux_archive_name. intros H.
    apply append_inv_l in H. rewrite <- !append_assoc in H.
    repeat apply append_inv_r in H. now apply version_s_injective.
  - unfold _darwin_archive_name. intros name H1 H2.
    destruct (Py.split "." macos) as [|mj [|mn rest]]; try discriminate.
    destruct (Py.int mj) as [n|]; [|discriminate].
    rewrite <- H1 in H2. injection H2 as H.
    apply append_inv_l in H. rewrite <- !append_assoc in H.
    repeat apply append_inv_r in H. symmetry. now apply version_s_injective.
Qed.

Lemma archive_name_injective_witness :
  _linux_archive_name "2.35" "x86_64" (MkVersion 3 8 13)
  <> _linux_archive_name "2.35" "x86_64" (MkVersion 3 9 13).
Proof.
  intros H.
  apply (proj1 (archive_name_injective "2.35" "12.4" "x86_64"
                  (MkVersion 3 8 13) (MkVersion 3 9 13))) in H.
  discriminate.
Defined.



(* ===================================================================== *)
(** ** What the patterns match                                            *)
(* ===================================================================== *)

Section Regex.

Lemma rmatch_lit c r d s :
  Re.rmatch (Re.Lit c :: r) (String d s)
  = if Ascii.eqb c d then Re.rmatch r s else None.
Proof. reflexivity. Qed.

Lemma rmatch_plus cls r d s :
  Re.rmatch (Re.Plus cls :: r) (String d s)
  = if cls d then Re.greedy cls (Re.rmatch r) s else None.
Proof. reflexivity. Qed.

Lemma rmatch_group cls r d s :
  Re.rmatch (Re.GroupPlus cls :: r) (String d s)
  = if cls d then Re.greedy_cap cls (Re.rmatch r) s (String d "") else None.
Proof. reflexivity. Qed.

Lemma rmatch_lits l r s g :
  Re.rmatch (Re.lits l ++ r) s = Some g <->
  exists s', s = l +:+ s' /\ Re.rmatch r s' = Some g.
Proof.
  revert s. induction l as [|c l IH]; intros s.
  - simpl. split; [intros H; now exists s | now intros (s' & -> & H)].
  - simpl Re.lits. simpl app. destruct s as [|d s].
    + split; [discriminate|]. intros (s' & H & _).
      rewrite append_cons in H. discriminate.
    + rewrite rmatch_lit. destruct (Ascii.eqb_spec c d) as [->|Hne].
      * rewrite IH. split; intros (s' & Hs & H); exists s'.
        -- split; [now rewrite append_cons, Hs | assumption].
        -- rewrite append_cons in Hs. injection Hs as ->. auto.
      * split; [discriminate|]. intros (s' & Hs & _).
        rewrite append_cons in Hs. congruence.
Qed.

Lemma greedy_sound cls k s g :
  Re.greedy cls k s = Some g ->
  exists t r, s = t +:+ r /\ all_chars cls t = true /\ k r = Some g.
Proof.
  induction s as [|d s IH]; simpl; intros H.
  - exists "", "". auto.
  - destruct (cls d) eqn:Hd; [|exists "", (String d s); auto].
    destruct (Re.greedy cls k s) as [g'|] eqn:Hg.
    + injection H as <-. destruct (IH eq_refl) as (t & r & -> & Ht & Hk).
      exists (String d t), r. rewrite append_cons. simpl. rewrite Hd. auto.
    + exists "", (String d s). auto.
Qed.

Lemma greedy_cap_sound cls k s acc g :
  Re.greedy_cap cls k s acc = Some g ->
  exists t r, s = t +:+ r /\ all_chars cls t = true /\ g = acc +:+ t
              /\ is_Some (k r).
Proof.
  revert acc. induction s as [|d s IH]; simpl; intros acc H.
  - destruct (k "") eqn:Hk; [|discriminate]. injection H as <-.
    exists "", "". repeat split; rewrite ?append_empty_r, ?Hk; eauto.
  - assert (match k (String d s) with Some _ => Some acc | None => None end
            = Some g ->
            exists t r, String d s = t +:+ r /\ all_chars cls t = true /\
                        g = acc +:+ t /\ is_Some (k r)) as Hstop.
    { destruct (k (String d s)) eqn:Hk; [|discriminate]. intros [= <-].
      exists "", (String d s).
      repeat split; rewrite ?append_empty_r, ?Hk; eauto. }
    destruct (cls d) eqn:Hd; [|auto].
    destruct (Re.greedy_cap cls k s (Str.snoc acc d)) as [g'|] eqn:Hg; [|auto].
    injection H as <-. destruct (IH _ Hg) as (t & r & -> & Ht & -> & Hk).
    exists (String d t), r. rewrite append_cons. simpl. rewrite Hd.
    unfold Str.snoc. rewrite append_assoc. repeat split; auto.
Qed.

Lemma greedy_stop cls k t r g :
  all_chars cls t = true -> stops cls r -> k r = Some g ->
  Re.greedy cls k (t +:+ r) = Some g.
Proof.
  intros Ht Hr Hk. induction t as [|c t IH].
  - rewrite append_nil_l. destruct r as [|d r]; [exact Hk|].
    simpl in *. now rewrite Hr.
  - rewrite append_cons. simpl in *. apply andb_prop in Ht as [Hc Ht].
    now rewrite Hc, IH.
Qed.

Lemma greedy_cap_stop cls k t r acc :
  all_chars cls t = true -> stops cls r -> is_Some (k r) ->
  Re.greedy_cap cls k (t +:+ r) acc = Some (acc +:+ t).
Proof.
  intros Ht Hr [g Hk]. revert acc. induction t as [|c t IH]; intros acc.
  - rewrite append_nil_l, append_empty_r. destruct r as [|d r]; simpl.
    + now rewrite Hk.
    + simpl in Hr. now rewrite Hr, Hk.
  - rewrite append_cons. simpl in *. apply andb_prop in Ht as [Hc Ht].
    rewrite Hc, IH by assumption. unfold Str.snoc. now rewrite append_assoc.
Qed.

Lemma greedy_some cls k t r :
  all_chars cls t = true -> is_Some (k r) ->
  is_Some (Re.greedy cls k (t +:+ r)).
Proof.
  intros Ht Hk. induction t as [|c t IH].
  - rewrite append_nil_l. destruct r as [|d r]; [exact Hk|]. simpl.
    destruct (cls d); [|exact Hk].
    destruct (Re.greedy cls k r); [eauto | exact Hk].
  - rewrite append_cons. simpl in *. apply andb_prop in Ht as [Hc Ht].
    rewrite Hc. destruct (IH Ht) as [g ->]. eauto.
Qed.

Lemma rmatch_dollar s g :
  Re.rmatch [Re.Dollar] s = Some g <-> (s = "" \/ s = Str.LF) /\ g = "".
Proof.
  change (Re.rmatch [Re.Dollar] s)
    with (if String.eqb s "" || String.eqb s Str.LF then Some "" else None).
  destruct (String.eqb_spec s "") as [->|H1]; simpl.
  - split; [intros [= <-]; auto | now intros [_ ->]].
  - destruct (String.eqb_spec s Str.LF) as [->|H2].
    + split; [intros [= <-]; auto | now intros [_ ->]].
    + split; [discriminate | intros [[|] _]; congruence].
Qed.

End Regex.

Section LddLine.

Lemma rmatch_plus_inv cls r s g :
  Re.rmatch (Re.Plus cls :: r) s = Some g ->
  exists d t rest,
    s = String d t +:+ rest /\ cls d = true /\ all_chars cls t = true /\
    Re.rmatch r rest = Some g.
Proof.
  destruct s as [|d s]; [discriminate|]. rewrite rmatch_plus.
  destruct (cls d) eqn:Hd; [|discriminate]. intros H.
  apply greedy_sound in H as (t & rest & -> & Ht & Hk).
  exists d, t, rest. now rewrite append_cons.
Qed.

Lemma rmatch_group_inv cls r s g :
  Re.rmatch (Re.GroupPlus cls :: r) s = Some g ->
  exists d t rest,
    s = String d t +:+ rest /\ cls d = true /\ all_chars cls t = true /\
    g = String d t /\ is_Some (Re.rmatch r rest).
Proof.
  destruct s as [|d s]; [discriminate|]. rewrite rmatch_group.
  destruct (cls d) eqn:Hd; [|discriminate]. intros H.
  apply greedy_cap_sound in H as (t & rest & -> & Ht & -> & Hk).
  exists d, t, rest. now rewrite append_cons.
Qed.

Lemma LDD_LINE_atoms :
  LDD_LINE
  = Re.Plus Re.not_space
    :: (Re.lits " => "
        ++ Re.GroupPlus Re.not_space
           :: (Re.lits " ("
               ++ Re.Plus Re.not_lparen :: (Re.lits ")" ++ [Re.Dollar]))).
Proof. reflexivity. Qed.

Lemma stops_space s : stops Re.not_space (" " +:+ s).
Proof. reflexivity. Qed.

(** What a match of [LDD_LINE] says about the line. *)
Lemma LDD_LINE_shape line path :
  Re.rmatch LDD_LINE line = Some path -> ldd_arrow_line line path.
Proof.
  rewrite LDD_LINE_atoms. intros H.
  apply rmatch_plus_inv in H as (d1 & t1 & r1 & -> & Hd1 & Ht1 & H).
  apply rmatch_lits in H as (r2 & -> & H).
  apply rmatch_group_inv in H as (d2 & t2 & r3 & -> & Hd2 & Ht2 & -> & [g H]).
  apply rmatch_lits in H as (r4 & -> & H).
  apply rmatch_plus_inv in H as (d3 & t3 & r5 & -> & Hd3 & Ht3 & H).
  apply rmatch_lits in H as (r6 & -> & H).
  apply rmatch_dollar in H as [Htail _].
  exists (String d1 t1), (String d3 t3), r6.
  split; [reflexivity|]. split; [assumption|].
  simpl. rewrite Hd1, Hd2, Hd3, Ht1, Ht2, Ht3. repeat split; congruence.
Qed.

End LddLine.

(** X5: [LDD_LINE] matches a line exactly when the line is a name, [ => ],
    a path, a space and an address in brackets, the name and the path
    non-empty and free of spaces and the address non-empty and free of
    opening brackets; the group is then that path. *)
Theorem LDD_LINE_matches :
  forall line path,
    Re.rmatch LDD_LINE line = Some path <-> ldd_arrow_line line path.
Proof.
  intros line path. split; [apply LDD_LINE_shape|].
  rewrite LDD_LINE_atoms.
  - intros (name & addr & tail & -> & Htail & Hn & Hns & Hp & Hps & Ha & Has).
    destruct name as [|d1 t1]; [congruence|].
    destruct path as [|d2 t2]; [congruence|].
    destruct addr as [|d3 t3]; [congruence|].
    simpl in Hns, Hps, Has.
    apply andb_prop in Hns as [Hd1 Ht1], Hps as [Hd2 Ht2], Has as [Hd3 Ht3].
    rewrite append_cons, rmatch_plus, Hd1.
    apply greedy_stop; [assumption | apply stops_space|].
    apply rmatch_lits. eexists. split; [reflexivity|].
    rewrite append_cons, rmatch_group, Hd2.
    change (String d2 t2) with (String d2 "" +:+ t2).
    apply greedy_cap_stop; [assumption | apply stops_space|].
    assert (is_Some (Re.rmatch [Re.Dollar] tail)) as Hdollar.
    { exists "". apply rmatch_dollar. auto. }
    destruct (greedy_some Re.not_lparen
                (Re.rmatch (Re.lits ")" ++ [Re.Dollar])) t3 (")" +:+ tail) Ht3)
      as [g Hg].
    { destruct Hdollar as [g Hg]. exists g. apply rmatch_lits. eauto. }
    exists g. apply rmatch_lits. eexists. split; [reflexivity|].
    now rewrite append_cons, rmatch_plus, Hd3.
Qed.

(** X6: what [_linux_linked] returns are non-empty paths without a
    space, in the order of the lines that name them. *)
Theorem linux_linked_paths :
  forall E w f l,
    _linux_linked E w f = Ok l ->
    Forall (fun p => p <> "" /\ all_chars Re.not_space p = true) l /\
    exists dpkg out,
      dpkg_L_libc6 E = Some dpkg /\
      tool_output E ["ldd"; f] (fs w) = Some out /\
      l = flat_map (arrow_target (libc6_filter dpkg)) (Str.splitlines out).
Proof.
  intros E w f l H.
  apply _linux_linked_ok in H as (dpkg & Hd & out & Ho & ->).
  split; [|eauto]. apply Forall_forall. intros p Hp.
  apply elem_of_flat_map in Hp as (line0 & _ & Hp).
  apply arrow_target_elem in Hp as [Hm _].
  apply LDD_LINE_shape in Hm
    as (name & addr & tail & _ & _ & _ & _ & Hne & Hns & _).
  auto.
Qed.

Lemma linux_linked_paths_witness :
  Forall (fun p => p <> "" /\ all_chars Re.not_space p = true)
    ["/usr/local/lib/libz.so.1"; "/usr/local/lib/libffi.so.8"].
Proof.
  apply (linux_linked_paths Sim.tools Ex.two_libs Ex.tool).
  vm_compute. reflexivity.
Defined.

Lemma rmatch_star_inv cls r s g :
  Re.rmatch (Re.Star cls :: r) s = Some g ->
  exists t rest,
    s = t +:+ rest /\ all_chars cls t = true /\ Re.rmatch r rest = Some g.
Proof.
  change (Re.rmatch (Re.Star cls :: r) s) with (Re.greedy cls (Re.rmatch r) s).
  apply greedy_sound.
Qed.

Lemma OTOOL_L_LINE_atoms :
  OTOOL_L_LINE
  = Re.Plus Str.is_space
    :: Re.GroupPlus Re.dot
    :: (Re.lits " (compatibility "
        ++ Re.Star Re.dot
           :: (Re.lits ", current "
               ++ Re.Star Re.dot :: (Re.lits ")" ++ [Re.Dollar]))).
Proof. reflexivity. Qed.

(** X7: a line that [OTOOL_L_LINE] matches begins with white space, and
    the group is a non-empty path that is followed, up to the end of the
    line, by [ (compatibility ..., current ...)]. *)
Theorem OTOOL_L_LINE_sound :
  forall line path,
    Re.rmatch OTOOL_L_LINE line = Some path -> otool_load_line line path.
Proof.
  intros line path H. rewrite OTOOL_L_LINE_atoms in H.
  apply rmatch_plus_inv in H as (d1 & t1 & r1 & -> & Hd1 & Ht1 & H).
  apply rmatch_group_inv in H as (d2 & t2 & r2 & -> & Hd2 & Ht2 & -> & [g H]).
  apply rmatch_lits in H as (r3 & -> & H).
  apply rmatch_star_inv in H as (t3 & r4 & -> & Ht3 & H).
  apply rmatch_lits in H as (r5 & -> & H).
  apply rmatch_star_inv in H as (t4 & r6 & -> & Ht4 & H).
  apply rmatch_lits in H as (r7 & -> & H).
  apply rmatch_dollar in H as [Htail _].
  exists (String d1 t1), t3, t4, r7.
  split; [reflexivity|]. split; [assumption|].
  simpl. rewrite Hd1, Hd2, Ht1, Ht2. repeat split; congruence.
Qed.

Lemma OTOOL_L_LINE_sound_witness :
  otool_load_line
    (Str.TAB +:+ "/usr/lib/libSystem.B.dylib"
     +:+ " (compatibility version 1.0.0, current version 1311.100.3)")
    "/usr/lib/libSystem.B.dylib".
Proof. apply OTOOL_L_LINE_sound. vm_compute. reflexivity. Defined.

(* ===================================================================== *)
(** ** The vendored set is closed under references                        *)
(* ===================================================================== *)

Section Closed.

Context (plat : Platform) `{!PlatformLaws plat} `{!StableInspector plat}.
Context (libdir : string).

Lemma inspection_kept_trans w1 w2 w3 :
  inspection_kept plat w1 w2 -> inspection_kept plat w2 w3 ->
  inspection_kept plat w1 w3.
Proof.
  intros H12 H23 p Hp. destruct (H12 p Hp) as [Hf2 Hl2].
  destruct (H23 p Hf2) as [Hf3 Hl3]. split; [assumption | congruence].
Qed.

Lemma inspection_kept_same w w' :
  (forall p, is_Some (fs w !! p) -> fs w' !! p = fs w !! p) ->
  inspection_kept plat w w'.
Proof.
  intros Hsame p Hp. apply (linked_same_lookup plat w w' p); [|exact Hp].
  apply Hsame. apply isfile_read in Hp as [c Hc].
  apply read_file_lookup in Hc as [_ Hc]. eauto.
Qed.

Lemma exists_grows (m m' : filesystem) p :
  grows m m' -> Os.exists_ m p = true -> Os.exists_ m' p = true.
Proof.
  unfold Os.exists_. intros Hg Hp.
  destruct (m !! p) as [n|] eqn:Hn; [|discriminate].
  destruct (Hg p) as [n' ->]; eauto.
Qed.

Lemma references_present_later w w' x :
  inspection_kept plat w w' -> grows (fs w) (fs w') ->
  Os.isfile (fs w) x = true ->
  references_present plat libdir w x -> references_present plat libdir w' x.
Proof.
  intros Hk Hg Hx Hr l link Hl Hin. destruct (Hk x Hx) as [_ Heq].
  rewrite Heq in Hl. eapply exists_grows; [eassumption|].
  eapply Hr; eassumption.
Qed.

Lemma copy_missing_closed links w acc w2 tl :
  copy_missing libdir links w acc = Ok (w2, tl) ->
  Os.isdir (fs w) libdir = true ->
  (forall link, link ∈ links ->
     Os.exists_ (fs w2) (OsPath.join libdir (OsPath.basename link)) = true) /\
  exists new,
    copied w2 = copied w ++ new /\ tl = acc ++ map snd new /\
    Forall (fun st : string * string => Os.isfile (fs w2) st.2 = true) new.
Proof.
  revert w acc. induction links as [|link rest IH]; intros w acc H Hd.
  - simpl in H. injection H as <- <-. split; [intros l Hl; inversion Hl|].
    exists []. rewrite !app_nil_r. auto.
  - pose proof H as Hall. simpl in H.
    destruct (Os.exists_ (fs w) (OsPath.join libdir (OsPath.basename link)))
      eqn:Hex; simpl in H.
    + destruct (IH _ _ H Hd) as (Hcov & new & Hn).
      apply copy_missing_frame in H as (_ & Hsame & _); [|assumption].
      split; [|eauto]. intros l Hl.
      apply elem_of_cons in Hl as [->|Hl]; [|now apply Hcov].
      eapply exists_grows; [apply grows_same; eassumption | assumption].
    + apply exists_lookup in Hex. unfold bind in H.
      destruct (Os.copy link libdir (fs w)) as [m|] eqn:Hc; [|discriminate].
      apply copy_ok in Hc as (c & Hr & -> & _ & _).
      unfold Os.copy_target in *. rewrite Hd in *.
      set (t := OsPath.join libdir (OsPath.basename link)) in *.
      assert (Os.isdir (<[t := File c]> (fs w)) libdir = true) as Hd1.
      { unfold Os.isdir in *. rewrite lookup_insert_ne; [assumption|].
        intros Heq. rewrite <- Heq, Hex in Hd. discriminate. }
      assert (Os.isfile (<[t := File c]> (fs w)) t = true) as Hft.
      { apply isfile_read. exists c. apply read_file_insert.
        unfold t. rewrite basename_join by apply basename_no_slash.
        now apply read_file_lookup in Hr as [? _]. }
      destruct (IH _ _ H Hd1) as (Hcov & new & Hn & Htl & Hfiles).
      apply copy_missing_frame in H as (_ & Hsame & _); [|assumption].
      simpl in *.
      assert (forall p, Os.isfile (<[t := File c]> (fs w)) p = true ->
                        Os.isfile (fs w2) p = true) as Hkeep.
      { intros p Hp. apply isfile_read in Hp as [c' Hp].
        apply isfile_read. exists c'. unfold Os.read_file in *.
        destruct (String.eqb (OsPath.basename p) ""); [discriminate|].
        rewrite Hsame; [assumption|].
        destruct (<[t := File c]> (fs w) !! p); [eauto | discriminate]. }
      split.
      * intros l Hl. apply elem_of_cons in Hl as [->|Hl]; [|now apply Hcov].
        fold t. apply Hkeep in Hft. unfold Os.isfile, Os.read_file in Hft.
        unfold Os.exists_.
        destruct (String.eqb (OsPath.basename t) ""); [discriminate|].
        destruct (fs w2 !! t); [reflexivity | discriminate].
      * exists ((link, t) :: new). split; [now rewrite Hn, <- app_assoc|].
        split; [rewrite Htl; simpl; now rewrite <- app_assoc|].
        constructor; [now apply Hkeep | assumption].
Qed.

Lemma relink_each_closed (rec : world -> string -> option (result world)) :
  (forall w x w',
     Os.isdir (fs w) libdir = true -> rec w x = Some (Ok w') ->
     walk_frame libdir x w w' /\
     Os.isfile (fs w) x = true /\
     inspection_kept plat w w' /\
     references_present plat libdir w' x /\
     exists new,
       copied w' = copied w ++ new /\
       Forall (fun st : string * string =>
                 Os.isfile (fs w') st.2 = true /\
                 references_present plat libdir w' st.2) new) ->
  forall tl w w',
    Os.isdir (fs w) libdir = true ->
    relink_each rec tl w = Some (Ok w') ->
    Os.isdir (fs w') libdir = true /\
    grows (fs w) (fs w') /\
    inspection_kept plat w w' /\
    Forall (references_present plat libdir w') tl /\
    exists new,
      copied w' = copied w ++ new /\
      Forall (fun st : string * string =>
                Os.isfile (fs w') st.2 = true /\
                references_present plat libdir w' st.2) new.
Proof.
  intros Hrec tl. induction tl as [|x rest IH]; intros w w' Hd H;
    simpl in H.
  - injection H as <-. split; [assumption|]. split; [apply grows_refl|].
    split; [intros p Hp; auto|]. split; [constructor|].
    exists []. rewrite app_nil_r. auto.
  - destruct (rec w x) as [[w1|e]|] eqn:Hx; try discriminate.
    destruct (Hrec _ _ _ Hd Hx)
      as (Hfr & Hfx & Hk1 & Hx1 & new1 & Hn1 & Hnew1).
    pose proof (walk_frame_grows _ _ _ _ Hfr) as Hg1.
    destruct Hfr as (Hd1 & _).
    destruct (IH w1 w' Hd1 H)
      as (Hd' & Hg' & Hk' & Hrest & new2 & Hn2 & Hnew2).
    split; [assumption|]. split; [eapply grows_trans; eassumption|].
    split; [eapply inspection_kept_trans; eassumption|]. split.
    + constructor; [|assumption].
      eapply references_present_later; try eassumption. now apply Hk1.
    + exists (new1 ++ new2). split; [now rewrite Hn2, Hn1, <- app_assoc|].
      apply Forall_app. split; [|assumption].
      eapply Forall_impl; [exact Hnew1|]. intros st [Hf Hr].
      split; [now apply Hk'|].
      eapply references_present_later; eassumption.
Qed.

Lemma walk_closed fuel sn w f w' :
  Os.isdir (fs w) libdir = true ->
  _relink_1 plat fuel libdir sn w f = Some (Ok w') ->
  Os.isfile (fs w) f = true /\
  inspection_kept plat w w' /\
  references_present plat libdir w' f /\
  exists new,
    copied w' = copied w ++ new /\
    Forall (fun st : string * string =>
              Os.isfile (fs w') st.2 = true /\
              references_present plat libdir w' st.2) new.
Proof.
  revert sn w f w'. induction fuel as [|n IH]; intros sn w f w' Hd H;
    [discriminate|].
  simpl in H.
  destruct (linked plat w f) as [links|] eqn:Hl; [|discriminate].
  destruct (relink plat f libdir sn w) as [w1|] eqn:Hr; [|discriminate].
  destruct (copy_missing libdir links w1 []) as [[w2 tl]|] eqn:Hc;
    [|discriminate].
  pose proof (linked_isfile _ _ _ Hl) as Hff.
  assert (inspection_kept plat w w1) as Hk1
      by (intros p Hp; eapply linked_after_relink; eassumption).
  assert (Os.isdir (fs w1) libdir = true) as Hd1.
  { erewrite isdir_kinds; [eassumption|]. eapply relink_kinds; eassumption. }
  destruct (copy_missing_closed _ _ _ _ _ Hc Hd1)
    as (Hcov & new0 & Hn0 & Htl & Hfiles0).
  apply copy_missing_frame in Hc as (Hd2 & Hsame2 & _); [|assumption].
  simpl in Htl. subst tl.
  pose proof (inspection_kept_same _ _ Hsame2) as Hk2.
  destruct (relink_each_closed (_relink_1 plat n libdir true)) with
    (tl := map snd new0) (w := w2) (w' := w')
    as (Hd' & Hg' & Hk' & Hrefs & new1 & Hn1 & Hnew1); try assumption.
  { intros wa x wb Hda Hx. split; [eapply walk_frame_holds; eassumption|].
    now apply (IH true). }
  assert (inspection_kept plat w w') as Hk.
  { eapply inspection_kept_trans; [eassumption|].
    eapply inspection_kept_trans; eassumption. }
  split; [assumption|]. split; [assumption|]. split.
  - intros l link Hl' Hin. destruct (Hk f Hff) as [_ Heq].
    rewrite Heq, Hl in Hl'. injection Hl' as <-.
    eapply exists_grows; [eassumption | now apply Hcov].
  - exists (new0 ++ new1). split.
    { rewrite Hn1, Hn0. erewrite relink_copied by eassumption.
      now rewrite <- app_assoc. }
    apply Forall_app. split; [|assumption].
    rewrite Forall_forall in Hrefs. rewrite Forall_forall in Hfiles0.
    apply Forall_forall.
    intros st Hst. split; [now apply Hk', Hfiles0|].
    apply Hrefs. apply list_elem_of_fmap. eauto.
Qed.

End Closed.



(* ===================================================================== *)
(** ** Each copy is relinked once                                         *)
(* ===================================================================== *)

Section Once.

Context (E : env) `{!EnvLaws E} (libdir : string).

Lemma relink_each_once (rec : world -> string -> option (result world)) :
  (forall w x w',
     Os.isdir (fs w) libdir = true -> rec w x = Some (Ok w') ->
     Os.isdir (fs w') libdir = true /\
     exists new rel,
       copied w' = copied w ++ new /\
       relinked w' = relinked w ++ x :: rel /\
       Permutation rel (map snd new)) ->
  forall tl w w',
    Os.isdir (fs w) libdir = true ->
    relink_each rec tl w = Some (Ok w') ->
    exists new rel,
      copied w' = copied w ++ new /\
      relinked w' = relinked w ++ rel /\
      Permutation rel (tl ++ map snd new).
Proof.
  intros Hrec tl. induction tl as [|x rest IH]; intros w w' Hd H; simpl in H.
  - injection H as <-. exists [], []. now rewrite !app_nil_r.
  - destruct (rec w x) as [[w1|e]|] eqn:Hx; try discriminate.
    destruct (Hrec _ _ _ Hd Hx) as (Hd1 & new1 & rel1 & Hn1 & Hr1 & Hp1).
    destruct (IH _ _ Hd1 H) as (new2 & rel2 & Hn2 & Hr2 & Hp2).
    exists (new1 ++ new2), ((x :: rel1) ++ rel2).
    split; [now rewrite Hn2, Hn1, <- app_assoc|].
    split; [now rewrite Hr2, Hr1, <- app_assoc|].
    rewrite map_app. simpl. apply perm_skip. rewrite Hp1, Hp2.
    rewrite !app_assoc. apply Permutation_app_tail, Permutation_app_comm.
Qed.

Lemma linux_walk_once fuel sn w f w' :
  Os.isdir (fs w) libdir = true ->
  _relink_1 (linux E) fuel libdir sn w f = Some (Ok w') ->
  exists new rel,
    copied w' = copied w ++ new /\
    relinked w' = relinked w ++ f :: rel /\
    Permutation rel (map snd new).
Proof.
  revert sn w f w'. induction fuel as [|n IH]; intros sn w f w' Hd H;
    [discriminate|].
  simpl in H.
  destruct (_linux_linked E w f) as [links|] eqn:Hl; [|discriminate].
  destruct (_linux_relink E f libdir sn w) as [w1|] eqn:Hr; [|discriminate].
  destruct (copy_missing libdir links w1 []) as [[w2 tl]|] eqn:Hc;
    [|discriminate].
  assert (Os.isdir (fs w1) libdir = true) as Hd1.
  { erewrite isdir_kinds; [eassumption|].
    apply (relink_kinds (linux E) f libdir sn w w1 libdir Hr). }
  pose proof (linux_relink_relinked _ _ _ _ _ _ Hr) as Hr1.
  pose proof (check_call_copied _ _ _ _ Hr) as Hc1.
  pose proof (copy_missing_relinked _ _ _ _ _ _ Hc) as Hr2.
  apply copy_missing_frame in Hc as (Hd2 & _ & _ & new0 & Hn0 & _ & Htl);
    [|assumption].
  simpl in Htl. subst tl.
  destruct (relink_each_once (_relink_1 (linux E) n libdir true))
    with (tl := map snd new0) (w := w2) (w' := w')
    as (new1 & rel1 & Hn1 & Hrel1 & Hp1); try assumption.
  { intros wa x wb Hda Hx. split; [|now apply (IH true)].
    now apply (walk_frame_holds (linux E) libdir n true wa x wb Hda) in Hx
      as (? & _). }
  exists (new0 ++ new1), rel1.
  split; [now rewrite Hn1, Hn0, Hc1, <- app_assoc|].
  split; [rewrite Hrel1, Hr2, Hr1; now rewrite <- app_assoc|].
  now rewrite map_app.
Qed.

End Once.

(** X9: on Linux, a walk into a directory that returns normally has
    relinked the binary first and then every library it copied, each
    one exactly once, under the path it was copied to, and nothing
    else. *)
Theorem linux_walk_relinks_each_copy_once :
  forall E, EnvLaws E ->
  forall libdir set_name w filename fuel w',
    Os.isdir (fs w) libdir = true ->
    _relink_1 (linux E) fuel libdir set_name w filename = Some (Ok w') ->
    exists new rel,
      copied w' = copied w ++ new /\
      relinked w' = relinked w ++ filename :: rel /\
      Permutation rel (map snd new) /\ NoDup rel.
Proof.
  intros E Hlaws libdir sn w f fuel w' Hd H.
  destruct (linux_walk_once E libdir fuel sn w f w' Hd H)
    as (new & rel & Hn & Hr & Hp).
  exists new, rel. repeat split; try assumption.
  apply (walk_frame_holds (linux E)) in H
    as (_ & _ & _ & new' & Hn' & Hnd & _); [|assumption].
  rewrite Hn in Hn'. apply app_inv_head in Hn'. subst new'.
  rewrite Hp. exact Hnd.
Qed.

Lemma linux_walk_relinks_each_copy_once_witness :
  exists w' new rel,
    _relink_1 (linux Sim.tools) 3 Ex.libdir false Ex.nested Ex.tool
    = Some (Ok w') /\
    copied w' = copied Ex.nested ++ new /\
    relinked w' = relinked Ex.nested ++ Ex.tool :: rel /\
    Permutation rel (map snd new) /\ NoDup rel.
Proof.
  destruct (_relink_1 (linux Sim.tools) 3 Ex.libdir false Ex.nested Ex.tool)
    as [[w'|e]|] eqn:Hw; [|vm_compute in Hw; discriminate..].
  destruct (linux_walk_relinks_each_copy_once Sim.tools sim_laws
              Ex.libdir false Ex.nested Ex.tool 3 w')
    as (new & rel & H); [vm_compute; reflexivity | exact Hw |].
  exists w', new, rel. split; [reflexivity | exact H].
Defined.

(* ===================================================================== *)
(** ** [_relink]                                                          *)
(* ===================================================================== *)

Section Relink.

Lemma relink_each_map (rec : world -> string -> option (result world))
    (g : string -> string) l w :
  relink_each (fun w0 x => rec w0 (g x)) l w = relink_each rec (map g l) w.
Proof.
  revert w. induction l as [|x l IH]; intros w; [reflexivity|]. simpl.
  destruct (rec w (g x)) as [[w1|e]|]; auto.
Qed.

Lemma relink_each_returns
    (rec : nat -> world -> string -> option (result world)) :
  (forall w x, exists n r, forall n', n <= n' -> rec n' w x = Some r) ->
  forall tl w,
    exists n r, forall n', n <= n' -> relink_each (rec n') tl w = Some r.
Proof.
  intros Hrec tl. induction tl as [|x rest IH]; intros w.
  - exists 0, (Ok w). reflexivity.
  - destruct (Hrec w x) as (n1 & r1 & H1). destruct r1 as [w1|e].
    + destruct (IH w1) as (n2 & r2 & H2). exists (Nat.max n1 n2), r2.
      intros n' Hn. simpl. rewrite H1 by lia. apply H2. lia.
    + exists n1, (Raise e). intros n' Hn. simpl. now rewrite H1.
Qed.

Lemma listdir_grows (m m' : filesystem) d s :
  grows m m' -> s ∈ listdir m d -> s ∈ listdir m' d.
Proof.
  intros Hg. rewrite !elem_of_listdir. intros (H1 & H2 & H3). auto.
Qed.

(** Every walk returns. *)
Lemma walk_always_returns (plat : Platform) (Hlaws : PlatformLaws plat)
    libdir set_name w filename :
  walk_returns plat libdir set_name w filename.
Proof.
  destruct (Os.isdir (fs w) libdir) eqn:Hd.
  - destruct (walk_dir_returns plat libdir
                (S (size (missing libdir (fs w)))) set_name w filename Hd)
      as (r & Hr & _); [lia|].
    exists (S (size (missing libdir (fs w)))), r. intros n' Hle.
    eapply _relink_1_mono; eassumption.
  - destruct (walk_nodir_returns plat libdir 0 set_name w filename Hd)
      as [r Hr].
    exists 2, r. intros n' Hle. eapply _relink_1_mono; eassumption.
Qed.

End Relink.

(** X10: [_relink] returns, with a world or with an exception, for every
    prefix, version and state of the file system. *)
Theorem relink_terminates :
  forall plat, PlatformLaws plat ->
  forall prefix version w,
    exists fuel r,
      forall fuel', fuel <= fuel' ->
        _relink plat fuel' prefix version w = Some r.
Proof.
  intros plat Hlaws prefix version w. unfold _relink.
  destruct (walk_always_returns plat Hlaws (OsPath.join prefix "lib") false w
              (interpreter prefix version)) as (n1 & r1 & H1).
  destruct r1 as [w1|e].
  - destruct (os_listdir (fs w1) (dyn_dir prefix version)) as [sos|e] eqn:Hls.
    + destruct (relink_each_returns
                  (fun n w0 so =>
                     _relink_1 plat n (OsPath.join prefix "lib") false w0
                       (OsPath.join (dyn_dir prefix version) so))
                  (fun w0 so =>
                     walk_always_returns plat Hlaws _ false w0 _) sos w1)
        as (n2 & r2 & H2).
      exists (Nat.max n1 n2),
        (match r2 with
         | Ok w' => Returns w'
         | Raise e => Throws (WalkError e)
         end).
      intros n' Hn. rewrite H1 by lia. rewrite Hls, H2 by lia.
      now destruct r2.
    + exists n1, (Throws e).
      intros n' Hn. rewrite H1 by lia. now rewrite Hls.
  - exists n1, (Throws (WalkError e)). intros n' Hn. now rewrite H1.
Qed.


Lemma relink_terminates_witness :
  exists fuel r,
    forall fuel', fuel <= fuel' ->
      _relink (linux Sim.tools) fuel' Prefix.prefix Prefix.version
        Prefix.installed = Some r.
Proof.
  apply (relink_terminates (linux Sim.tools) (linux_laws Sim.tools)).
Defined.


(* ===================================================================== *)
(** ** The environment of the build                                       *)
(* ===================================================================== *)

Lemma sanitize_lookup (e : gmap string string) (k : string) :
  _sanitize_environ e !! k =
    if decide (k = "PATH") then Some "/usr/bin:/bin:/usr/sbin:/sbin"
    else if decide (k = "HOMEBREW_NO_AUTO_UPDATE") then Some "1"
    else if decide (k ∈ ["CFLAGS"; "CPPFLAGS"; "LDFLAGS"; "PKG_CONFIG_PATH"])
         then None
         else e !! k.
Proof.
  unfold _sanitize_environ. cbn [foldl].
  destruct (decide (k = "PATH")) as [->|H1]; [now rewrite lookup_insert_eq|].
  rewrite lookup_insert_ne by congruence.
  destruct (decide (k = "HOMEBREW_NO_AUTO_UPDATE")) as [->|H2];
    [now rewrite lookup_insert_eq|].
  rewrite lookup_insert_ne by congruence.
  destruct (decide (k ∈ ["CFLAGS"; "CPPFLAGS"; "LDFLAGS"; "PKG_CONFIG_PATH"]))
    as [Hin|Hin].
  - rewrite !elem_of_cons, elem_of_nil in Hin.
    destruct Hin as [->|[->|[->|[->|[]]]]];
      rewrite ?lookup_delete_eq; try reflexivity;
      repeat (rewrite lookup_delete_ne by discriminate);
      now rewrite ?lookup_delete_eq.
  - rewrite !not_elem_of_cons in Hin. destruct Hin as (?&?&?&?&_).
    now rewrite !lookup_delete_ne by congruence.
Qed.

Lemma sanitize_frame (e : gmap string string) (k : string) :
  k ∉ sanitized_variables -> _sanitize_environ e !! k = e !! k.
Proof.
  intros Hk. unfold sanitized_variables in Hk.
  rewrite !not_elem_of_cons in Hk. destruct Hk as (?&?&?&?&?&?&_).
  rewrite sanitize_lookup. repeat case_decide; try congruence.
  exfalso. rewrite !elem_of_cons, elem_of_nil in *. intuition congruence.
Qed.

Lemma sanitize_agree (e1 e2 : gmap string string) :
  (forall k, k ∉ sanitized_variables -> e1 !! k = e2 !! k) ->
  _sanitize_environ e1 = _sanitize_environ e2.
Proof.
  intros Hagree. apply map_eq. intros k. rewrite !sanitize_lookup.
  repeat case_decide; try reflexivity.
  apply Hagree. unfold sanitized_variables.
  rewrite !elem_of_cons, elem_of_nil in *. intuition congruence.
Qed.

(** X12: what the build sees of the environment does not depend on the
    caller's [CFLAGS], [CPPFLAGS], [LDFLAGS], [PKG_CONFIG_PATH],
    [HOMEBREW_NO_AUTO_UPDATE] and [PATH]: two environments that differ
    in these variables only are the same after [_sanitize_environ], and
    so after [_darwin_modify_env], which runs [brew] in that environment;
    and when [_darwin_modify_env] returns, [CFLAGS] is unset and every
    other variable of the caller's is as it was. *)
Theorem build_environ_forgets :
  forall run machine (e1 e2 : gmap string string),
    (forall k, k ∉ sanitized_variables -> e1 !! k = e2 !! k) ->
    _sanitize_environ e1 = _sanitize_environ e2 /\
    build_environ (_darwin_modify_env run machine) e1
    = build_environ (_darwin_modify_env run machine) e2 /\
    forall e',
      build_environ (_darwin_modify_env run machine) e1 = Returns e' ->
      e' !! "CFLAGS" = None /\
      forall k, k ∉ sanitized_variables -> e' !! k = e1 !! k.
Proof.
  intros run machine e1 e2 Hagree.
  pose proof (sanitize_agree e1 e2 Hagree) as Heq.
  split; [exact Heq|]. split; [unfold build_environ; now rewrite Heq|].
  intros e' H. unfold build_environ, _darwin_modify_env in H.
  destruct (_brew_paths run machine BREW_LIBS (_sanitize_environ e1))
    as [paths|err]; [|discriminate].
  injection H as <-. split.
  - repeat (rewrite lookup_insert_ne by discriminate).
    rewrite sanitize_lookup. reflexivity.
  - intros k Hk. pose proof Hk as Hk'. unfold sanitized_variables in Hk'.
    rewrite !not_elem_of_cons in Hk'. destruct Hk' as (?&?&?&?&?&?&_).
    repeat (rewrite lookup_insert_ne by congruence).
    now apply sanitize_frame.
Qed.

Lemma build_environ_forgets_witness :
  exists e',
    build_environ (_darwin_modify_env Build.brew "arm64") Build.caller
    = Returns e' /\
    build_environ (_darwin_modify_env Build.brew "arm64") Build.other_caller
    = Returns e' /\
    e' !! "CFLAGS" = None /\ e' !! "HOME" = Some "/root".
Proof.
  destruct (build_environ_forgets Build.brew "arm64"
              Build.caller Build.other_caller) as (_ & Heq & H).
  - intros k Hk. unfold sanitized_variables in Hk.
    rewrite !not_elem_of_cons in Hk. destruct Hk as (?&?&?&?&_).
    unfold Build.caller, Build.other_caller.
    destruct (decide (k = "HOME")) as [->|Hne]; [reflexivity|].
    rewrite !lookup_insert_ne by congruence.
    now rewrite !lookup_singleton_ne by congruence.
  - eexists. split; [reflexivity|]. split; [now rewrite <- Heq|].
    edestruct H as (H1 & H2); [reflexivity|]. split; [exact H1|].
    rewrite H2; [reflexivity|]. unfold sanitized_variables.
    rewrite !not_elem_of_cons. repeat split; try discriminate.
    apply not_elem_of_nil.
Defined.

(* ===================================================================== *)
(** ** [_clean]                                                           *)
(* ===================================================================== *)

Section Clean.

Lemma startswith_append (a s p : string) :
  Str.startswith (a +:+ s) (a +:+ p) = Str.startswith s p.
Proof.
  induction a as [|x a IH]; [now rewrite !append_nil_l|].
  rewrite !append_cons. simpl. now rewrite Ascii.eqb_refl.
Qed.

Lemma eqb_append (a s p : string) :
  String.eqb (a +:+ s) (a +:+ p) = String.eqb s p.
Proof.
  destruct (String.eqb_spec s p) as [->|Hne].
  - apply String.eqb_refl.
  - apply String.eqb_neq. intros H. now apply append_inv_l in H.
Qed.

Lemma append_nonempty_r (a b : string) : b <> "" -> a +:+ b <> "".
Proof.
  intros Hb H. apply (f_equal String.length) in H.
  rewrite length_append in H. destruct b; [congruence|simpl in H; lia].
Qed.

Lemma ends_with_slash_append (a b : string) :
  b <> "" -> OsPath.ends_with_slash (a +:+ b) = OsPath.ends_with_slash b.
Proof.
  intros Hb. induction a as [|x a IH]; [now rewrite append_nil_l|].
  rewrite append_cons. pose proof (append_nonempty_r a b Hb) as Hne.
  simpl. destruct (a +:+ b); [congruence|exact IH].
Qed.

Lemma join_plain (a b : string) :
  a <> "" -> OsPath.ends_with_slash a = false ->
  Str.startswith b "/" = false ->
  OsPath.join a b = a +:+ "/" +:+ b.
Proof.
  intros Ha He Hb. unfold OsPath.join. rewrite Hb, He.
  apply String.eqb_neq in Ha. now rewrite Ha.
Qed.

Lemma str_last n :
  Py.str n <> "" /\ OsPath.ends_with_slash (Py.str n) = false.
Proof.
  pose proof (str_chars n) as Hc.
  assert (Py.str n <> "") as Hne.
  { destruct n as [|p|p]; [discriminate| |]; unfold Py.str; simpl;
      rewrite ?nilzero_pos; destruct (str_pos p) as (c & r & -> & _);
      discriminate. }
  split; [exact Hne|].
  induction (Py.str n) as [|x s IH]; [congruence|].
  simpl in Hc. apply andb_prop in Hc as [Hx Hs].
  simpl. destruct s as [|y s].
  - unfold OsPath.is_slash. destruct (Ascii.eqb_spec x "/") as [->|]; [|easy].
    discriminate.
  - apply IH; [exact Hs|discriminate].
Qed.

(** The directories that [_clean] removes all lie in one directory. *)
Lemma mod_dirs_shape prefix version :
  exists base,
    List.map (mod_dir prefix version) clean_mod_paths
    = List.map (fun s => base +:+ s)
        ["/idlelib"; "/tkinter"; "/test"; "/ctypes/test"; "/distutils/tests";
         "/lib2to3/tests"; "/unittest/test"; "/sqlite3/test"].
Proof.
  set (base := joins prefix ["lib"; py_minor version]).
  exists base.
  assert (base <> "" /\ OsPath.ends_with_slash base = false) as [Hne He].
  { unfold base, joins. cbn [foldl].
    set (L := OsPath.join prefix "lib").
    assert (exists x, L = x +:+ "lib") as [x HL].
    { unfold L, OsPath.join.
      change (Str.startswith "lib" "/") with false. cbv iota.
      destruct (String.eqb prefix "" || OsPath.ends_with_slash prefix);
        [now exists prefix|].
      exists (prefix +:+ "/"). now rewrite append_assoc. }
    assert (Str.startswith (py_minor version) "/" = false) as Hp.
    { unfold py_minor. now rewrite append_cons. }
    destruct (str_last (minor version)) as [Hm1 Hm2].
    rewrite join_plain; [| |  |exact Hp].
    - unfold py_minor. rewrite <- !append_assoc. split.
      + now apply append_nonempty_r.
      + now rewrite ends_with_slash_append.
    - rewrite HL. now apply append_nonempty_r.
    - rewrite HL. now rewrite ends_with_slash_append. }
  assert (forall s b,
            s <> "" -> OsPath.ends_with_slash s = false ->
            Str.startswith b "/" = false ->
            OsPath.join (base +:+ s) b = base +:+ (s +:+ "/" +:+ b)) as Hj.
  { intros s b Hs Hes Hb. rewrite join_plain; [now rewrite append_assoc| | |exact Hb].
    - now apply append_nonempty_r.
    - now rewrite ends_with_slash_append. }
  unfold clean_mod_paths, mod_dir, joins. cbn [List.map foldl]. fold base.
  change (foldl OsPath.join prefix ["lib"; py_minor version]) with base.
  rewrite !(join_plain base) by (assumption || reflexivity).
  rewrite !Hj by (discriminate || reflexivity).
  reflexivity.
Qed.

Lemma below_suffix (base s t : string) :
  s <> "" -> OsPath.ends_with_slash s = false ->
  below (base +:+ s) (base +:+ t)
  = (String.eqb t s || Str.startswith t (s +:+ "/")).
Proof.
  intros Hs He. unfold below.
  rewrite join_plain; [| | |reflexivity].
  - rewrite append_empty_r, append_assoc.
    now rewrite eqb_append, startswith_append.
  - now apply append_nonempty_r.
  - now rewrite ends_with_slash_append.
Qed.

Lemma filter_below_lookup (path : string) (m : filesystem) (k : string) :
  filter (fun kn : string * node => below path kn.1 = false) m !! k
  = if below path k then None else m !! k.
Proof.
  destruct (below path k) eqn:Hb.
  - apply map_lookup_filter_None. right. intros x _. simpl. congruence.
  - apply option_eq. intros x. rewrite map_lookup_filter_Some. simpl.
    intuition.
Qed.

Lemma rmtrees_all (ds : list string) :
  forall m : filesystem,
    ForallOrdPairs (fun d d' => below d d' = false) ds ->
    Forall (fun d => m !! d = Some Dir) ds ->
    exists m',
      rmtrees ds m = Returns m' /\
      forall k, m' !! k
                = if existsb (fun d => below d k) ds then None else m !! k.
Proof.
  induction ds as [|d ds IH]; intros m Hp Hd.
  - exists m. split; reflexivity.
  - inversion Hp as [|? ? Hd1 Hp']; subst.
    inversion Hd as [|? ? Hdir Hd']; subst.
    simpl. unfold rmtree. rewrite Hdir.
    destruct (IH (filter (fun kn : string * node => below d kn.1 = false) m)
                Hp') as (m' & Hm' & Hl).
    + rewrite List.Forall_forall in *. intros d' Hin.
      rewrite filter_below_lookup, (Hd1 d' Hin). now apply Hd'.
    + exists m'. split; [exact Hm'|]. intros k. rewrite Hl.
      rewrite filter_below_lookup.
      destruct (below d k); simpl;
        now destruct (existsb (fun d0 => below d0 k) ds).
Qed.

Lemma rmtrees_first_missing (pre : list string) :
  forall (m : filesystem) d post,
    ForallOrdPairs (fun d d' => below d d' = false) (pre ++ d :: post) ->
    Forall (fun d => m !! d = Some Dir) pre ->
    m !! d <> Some Dir ->
    rmtrees (pre ++ d :: post) m
    = Throws (match m !! d with
              | Some (File _) => NotADirectoryError d
              | _ => FileNotFoundError d
              end).
Proof.
  induction pre as [|a pre IH]; intros m d post Hp Hd Hm.
  - simpl. unfold rmtree. destruct (m !! d) as [[|c]|]; congruence.
  - inversion Hp as [|? ? Ha Hp']; subst.
    inversion Hd as [|? ? Hdir Hd']; subst.
    simpl. unfold rmtree at 1. rewrite Hdir.
    assert (below a d = false) as Had.
    { rewrite List.Forall_forall in Ha. apply Ha.
      apply in_or_app. right. now left. }
    rewrite (IH _ d post Hp').
    + now rewrite filter_below_lookup, Had.
    + rewrite List.Forall_forall in *. intros d' Hin.
      rewrite filter_below_lookup.
      rewrite (Ha d') by (apply in_or_app; now left). now apply Hd'.
    + now rewrite filter_below_lookup, Had.
Qed.

Lemma mod_dirs_apart prefix version :
  ForallOrdPairs (fun d d' => below d d' = false)
    (List.map (mod_dir prefix version) clean_mod_paths).
Proof.
  destruct (mod_dirs_shape prefix version) as (base & ->).
  cbn [List.map].
  repeat (constructor;
          [repeat (constructor;
                   [rewrite below_suffix by (discriminate || reflexivity);
                    reflexivity|]);
           constructor|]).
  constructor.
Qed.

End Clean.



(* ===================================================================== *)
(** ** The order of [arcs.sort()]                                         *)
(* ===================================================================== *)

Section Order.

Lemma ascii_compare_refl (c : ascii) : Ascii.compare c c = Eq.
Proof. apply N.compare_refl. Qed.

Lemma ascii_compare_lt_trans (a b c : ascii) :
  Ascii.compare a b = Lt -> Ascii.compare b c = Lt -> Ascii.compare a c = Lt.
Proof.
  unfold Ascii.compare. rewrite !N.compare_lt_iff. apply N.lt_trans.
Qed.

Lemma compare_refl (s : string) : String.compare s s = Eq.
Proof.
  induction s as [|c s IH]; [reflexivity|].
  simpl. now rewrite ascii_compare_refl.
Qed.

Lemma compare_eq (a b : string) : String.compare a b = Eq <-> a = b.
Proof.
  split; [apply String.compare_eq_iff|]. intros ->. apply compare_refl.
Qed.

Lemma compare_gt_lt (a b : string) :
  String.compare a b = Gt <-> String.compare b a = Lt.
Proof.
  rewrite (String.compare_antisym a b).
  destruct (String.compare b a); simpl; split; congruence.
Qed.

Lemma compare_lt_trans (a : string) :
  forall b c,
    String.compare a b = Lt -> String.compare b c = Lt ->
    String.compare a c = Lt.
Proof.
  induction a as [|x a IH]; intros [|y b] [|z c]; simpl; try congruence.
  destruct (Ascii.compare x y) eqn:Hxy; try discriminate.
  - apply Ascii.compare_eq_iff in Hxy. subst y.
    destruct (Ascii.compare x z); try congruence. apply IH.
  - intros _. destruct (Ascii.compare y z) eqn:Hyz; try discriminate.
    + apply Ascii.compare_eq_iff in Hyz. subst z. now rewrite Hxy.
    + now rewrite (ascii_compare_lt_trans x y z).
Qed.

(** A string comes before each of its proper extensions. *)
Lemma compare_prefix (n s : string) :
  s <> "" -> String.compare n (n +:+ s) = Lt.
Proof.
  intros Hs. induction n as [|c n IH].
  - rewrite append_nil_l. destruct s; [congruence|reflexivity].
  - rewrite append_cons. simpl. now rewrite ascii_compare_refl.
Qed.

Lemma str_le_trans (a b c : string) :
  str_le a b -> str_le b c -> str_le a c.
Proof.
  unfold str_le, String.leb. intros Hab Hbc.
  destruct (String.compare a b) eqn:H1; try discriminate.
  - apply compare_eq in H1. now subst b.
  - destruct (String.compare b c) eqn:H2; try discriminate.
    + apply compare_eq in H2. subst c. now rewrite H1.
    + now rewrite (compare_lt_trans a b c).
Qed.

#[local] Instance arc_le_transitive : Transitive arc_le.
Proof.
  intros [x1 x2] [y1 y2] [z1 z2]. unfold arc_le, arc_leb. simpl.
  destruct (String.compare x1 y1) eqn:H1; try discriminate.
  - apply compare_eq in H1. subst y1.
    destruct (String.compare x1 z1); try congruence.
    apply str_le_trans.
  - intros _. destruct (String.compare y1 z1) eqn:H2; try discriminate.
    + apply compare_eq in H2. subst z1. now rewrite H1.
    + now rewrite (compare_lt_trans x1 y1 z1).
Qed.

#[local] Instance arc_le_total : Total arc_le.
Proof.
  intros [x1 x2] [y1 y2]. unfold arc_le, arc_leb. simpl.
  rewrite (String.compare_antisym y1 x1).
  destruct (String.compare x1 y1); simpl; auto.
  apply String.leb_total.
Qed.

#[local] Instance arc_le_antisymm : AntiSymm (=) arc_le.
Proof.
  intros [x1 x2] [y1 y2]. unfold arc_le, arc_leb. simpl.
  rewrite (String.compare_antisym y1 x1).
  destruct (String.compare x1 y1) eqn:H1; simpl; try discriminate.
  apply compare_eq in H1. subst y1. intros H2 H3.
  now rewrite (String.leb_antisym x2 y2).
Qed.

Lemma arcs_sorted (l : list (string * string)) :
  StronglySorted arc_le (merge_sort arc_le l).
Proof. apply StronglySorted_merge_sort; apply _. Qed.

(** The sorted list is the same for every order of the elements. *)
Lemma sort_permutation (l1 l2 : list (string * string)) :
  l1 ≡ₚ l2 -> merge_sort arc_le l1 = merge_sort arc_le l2.
Proof.
  intros Hp. apply (Sorted_unique arc_le).
  - apply Sorted_merge_sort, _.
  - apply Sorted_merge_sort, _.
  - now rewrite !merge_sort_Permutation.
Qed.

Lemma sorted_lookup (l : list (string * string)) :
  StronglySorted arc_le l ->
  forall i j x y,
    l !! i = Some x -> l !! j = Some y -> i < j -> arc_le x y.
Proof.
  induction 1 as [|a l Hs IH Ha]; intros i j x y Hi Hj Hlt;
    [now rewrite lookup_nil in Hi|].
  destruct j as [|j]; [lia|]. simpl in Hj. destruct i as [|i].
  - injection Hi as <-. rewrite List.Forall_forall in Ha. apply Ha.
    apply list_elem_of_In. eapply list_elem_of_lookup_2. exact Hj.
  - simpl in Hi. apply (IH i j); [assumption..|lia].
Qed.

End Order.

(* ===================================================================== *)
(** ** [_archive]                                                         *)
(* ===================================================================== *)

Section ArchiveFacts.

Variable os_abspath : string -> string.
Variable E : env.

Lemma archive_found_entries walk name src :
  archive_found os_abspath E walk name src
  = (name, src) ::
    List.map (fun rf : string * string =>
                let abspath := os_abspath (OsPath.join rf.1 rf.2) in
                (OsPath.join name (relpath E abspath src), abspath))
             (walk_entries walk).
Proof.
  unfold archive_found, walk_entries. f_equal.
  induction walk as [|[[root dirs] filenames] walk IH]; [reflexivity|].
  simpl. rewrite IH.
  rewrite (List.map_app _ (List.map _ (dirs ++ filenames))).
  now rewrite List.map_map.
Qed.

(** When the first element found is below every other one, it is the
    first of the sorted list. *)
Lemma sort_least (x : string * string) (xs : list (string * string)) :
  Forall (arc_le x) xs ->
  exists rest, merge_sort arc_le (x :: xs) = x :: rest /\ rest ≡ₚ xs.
Proof.
  intros Hle.
  pose proof (arcs_sorted (x :: xs)) as Hs.
  pose proof (merge_sort_Permutation arc_le (x :: xs)) as Hp.
  destruct (merge_sort arc_le (x :: xs)) as [|h t] eqn:Hm.
  { now apply Permutation_nil_cons in Hp. }
  assert (h = x) as ->.
  { apply StronglySorted_inv in Hs as [_ Hh].
    rewrite List.Forall_forall in Hh. rewrite List.Forall_forall in Hle.
    assert (h ∈ x :: xs) as Hin by (rewrite <- Hp; left).
    assert (x ∈ h :: t) as Hin' by (rewrite Hp; left).
    apply elem_of_cons in Hin as [->|Hin]; [reflexivity|].
    apply elem_of_cons in Hin' as [->|Hin']; [reflexivity|].
    apply arc_le_antisymm.
    - apply Hh. now apply list_elem_of_In.
    - apply Hle. now apply list_elem_of_In. }
  exists t. split; [reflexivity|]. now apply Permutation_cons_inv in Hp.
Qed.

End ArchiveFacts.

(** X14: the members of the archive and their order do not depend on the
    order in which [os.walk] yields the directories and their entries. *)
Theorem archive_order_independent :
  forall os_abspath E walk1 walk2 src dest,
    walk_entries walk1 ≡ₚ walk_entries walk2 ->
    archive_arcs os_abspath E walk1 src dest
    = archive_arcs os_abspath E walk2 src dest.
Proof.
  intros os_abspath E walk1 walk2 src dest Hp. unfold archive_arcs.
  apply sort_permutation. rewrite !archive_found_entries.
  apply Permutation_cons; [reflexivity|]. now apply Permutation_map.
Qed.

(** X15: in the archive, a member whose name is a proper beginning of
    the name of another member comes before it: a directory is added
    before everything in it. *)
Theorem archive_parents_first :
  forall os_abspath E walk src dest i j n1 a1 n2 a2 s,
    archive_arcs os_abspath E walk src dest !! i = Some (n1, a1) ->
    archive_arcs os_abspath E walk src dest !! j = Some (n2, a2) ->
    s <> "" -> n2 = n1 +:+ s ->
    i < j.
Proof.
  intros os_abspath E walk src dest i j n1 a1 n2 a2 s Hi Hj Hs ->.
  pose proof (compare_prefix n1 s Hs) as Hlt.
  destruct (Nat.lt_trichotomy i j) as [H|[->|H]]; [exact H| |].
  - rewrite Hi in Hj. injection Hj as Hn _.
    apply (f_equal (String.compare n1)) in Hn.
    rewrite compare_refl, Hlt in Hn. discriminate.
  - pose proof (sorted_lookup _ (arcs_sorted _) j i _ _ Hj Hi H) as Hle.
    unfold arc_le, arc_leb in Hle. simpl in Hle.
    apply compare_gt_lt in Hlt. rewrite Hlt in Hle. discriminate.
Qed.

Lemma archive_order_independent_witness :
  archive_arcs Build.abspath Build.tools Build.walk Prefix.prefix Build.dest
  = archive_arcs Build.abspath Build.tools Build.other_walk Prefix.prefix
      Build.dest.
Proof.
  apply archive_order_independent.
  unfold walk_entries, Build.walk, Build.other_walk. simpl.
  etransitivity; [apply perm_swap|].
  do 2 apply perm_skip. apply perm_swap.
Defined.

Lemma archive_parents_first_witness :
  exists a1 a2,
    archive_arcs Build.abspath Build.tools Build.walk Prefix.prefix Build.dest
      !! 1 = Some ("python-3.8.13-manylinux_2_28_x86_64/bin", a1) /\
    archive_arcs Build.abspath Build.tools Build.walk Prefix.prefix Build.dest
      !! 2 = Some ("python-3.8.13-manylinux_2_28_x86_64/bin/python3.8", a2) /\
    1 < 2.
Proof.
  exists "/tmp/prefix/bin", "/tmp/prefix/bin/python3.8".
  assert (archive_arcs Build.abspath Build.tools Build.walk Prefix.prefix
            Build.dest !! 1
          = Some ("python-3.8.13-manylinux_2_28_x86_64/bin",
                  "/tmp/prefix/bin")) as H1 by (vm_compute; reflexivity).
  assert (archive_arcs Build.abspath Build.tools Build.walk Prefix.prefix
            Build.dest !! 2
          = Some ("python-3.8.13-manylinux_2_28_x86_64/bin/python3.8",
                  "/tmp/prefix/bin/python3.8")) as H2
      by (vm_compute; reflexivity).
  split; [exact H1|]. split; [exact H2|].
  apply (archive_parents_first _ _ _ _ _ 1 2 _ _ _ _ "/python3.8" H1 H2);
    [discriminate|reflexivity].
Defined.

(* ===================================================================== *)
(** ** [os.path.splitext] and the name of the top-level directory         *)
(* ===================================================================== *)

Section Splitext.

Lemma rfind_no_slash (s : string) :
  no_slash s = true -> PosixPath.rfind "/" s = 0.
Proof.
  induction s as [|c s IH]; [reflexivity|]. simpl. intros H.
  apply andb_prop in H as [Hc Hs]. rewrite (IH Hs).
  unfold OsPath.is_slash in Hc. now destruct (Ascii.eqb c "/").
Qed.

Lemma rfind_le (c : ascii) (s : string) :
  PosixPath.rfind c s <= String.length s.
Proof.
  induction s as [|a s IH]; [reflexivity|]. simpl.
  destruct (PosixPath.rfind c s); [destruct (Ascii.eqb a c)|]; lia.
Qed.

Lemma rfind_last (c : ascii) (a b : string) :
  PosixPath.rfind c b = 0 ->
  PosixPath.rfind c (a +:+ String c b) = S (String.length a).
Proof.
  intros Hb. induction a as [|x a IH].
  - rewrite append_nil_l. simpl. now rewrite Hb, Ascii.eqb_refl.
  - rewrite append_cons. simpl. now rewrite IH.
Qed.

Lemma substring_all (s : string) : String.substring 0 (String.length s) s = s.
Proof. induction s as [|c s IH]; [reflexivity|]. simpl. now rewrite IH. Qed.

Lemma substring_split (p : string) :
  forall n, n <= String.length p ->
    String.substring 0 n p +:+ String.substring n (String.length p - n) p = p.
Proof.
  induction p as [|c p IH]; intros [|n] Hn; simpl in *; try reflexivity;
    try lia.
  - rewrite append_nil_l. now rewrite substring_all.
  - rewrite append_cons. now rewrite IH by lia.
Qed.

(** The two parts of [os.path.splitext] make up the path. *)
Lemma splitext_join (p : string) :
  (PosixPath.splitext p).1 +:+ (PosixPath.splitext p).2 = p.
Proof.
  unfold PosixPath.splitext.
  destruct (Nat.ltb _ _); [|apply append_empty_r].
  destruct (PosixPath.other_than_dot _ _ _); [|apply append_empty_r].
  simpl. apply substring_split.
  pose proof (rfind_le "." p). lia.
Qed.

Lemma splitext_stem (p : string) :
  p <> "" -> (PosixPath.splitext p).1 <> "".
Proof.
  intros Hp. unfold PosixPath.splitext.
  destruct (Nat.ltb _ _); [|exact Hp].
  destruct (PosixPath.other_than_dot _ _ _) eqn:Ho; [|exact Hp].
  simpl. destruct (PosixPath.rfind "." p - 1) as [|n] eqn:Hn.
  - simpl in Ho. discriminate.
  - destruct p; [congruence|]. simpl. discriminate.
Qed.

Lemma no_slash_ends (s : string) :
  no_slash s = true -> OsPath.ends_with_slash s = false.
Proof.
  induction s as [|c s IH]; [reflexivity|]. simpl. intros H.
  apply andb_prop in H as [Hc Hs]. destruct s as [|d s].
  - now destruct (OsPath.is_slash c).
  - now apply IH.
Qed.

Lemma partition_slash_append (a b : string) :
  no_slash a = true ->
  PosixPath.partition_slash (a +:+ String "/" b) = (a, "/", b).
Proof.
  induction a as [|c a IH]; intros H.
  - now rewrite append_nil_l.
  - simpl in H. apply andb_prop in H as [Hc Ha]. rewrite append_cons.
    simpl. rewrite (IH Ha). now destruct (OsPath.is_slash c).
Qed.

Lemma partition_no_slash (a : string) :
  no_slash a = true -> PosixPath.partition_slash a = (a, "", "").
Proof.
  induction a as [|c a IH]; intros H; [reflexivity|].
  simpl in H. apply andb_prop in H as [Hc Ha].
  simpl. rewrite (IH Ha). now destruct (OsPath.is_slash c).
Qed.

Lemma substring_prefix (a b : string) :
  String.substring 0 (String.length a) (a +:+ b) = a.
Proof.
  induction a as [|c a IH]; [rewrite append_nil_l; now destruct b|].
  rewrite append_cons. simpl. now rewrite IH.
Qed.

Lemma substring_suffix (a b : string) (m : nat) :
  String.substring (String.length a) m (a +:+ b) = String.substring 0 m b.
Proof.
  induction a as [|c a IH]; [now rewrite append_nil_l|].
  rewrite append_cons. simpl. exact IH.
Qed.

(** An extension without a dot, after a name without a slash that does
    not begin with a dot, is what [os.path.splitext] splits off. *)
Lemma splitext_ext (c : ascii) (r ext : string) :
  Ascii.eqb c "." = false ->
  no_slash (String c r +:+ String "." ext) = true ->
  PosixPath.rfind "." ext = 0 ->
  PosixPath.splitext (String c r +:+ String "." ext)
  = (String c r, String "." ext).
Proof.
  intros Hc Hs He. unfold PosixPath.splitext.
  rewrite (rfind_no_slash _ Hs), (rfind_last "." (String c r) ext He).
  change (Nat.ltb 0 (S (String.length (String c r)))) with true. cbv iota.
  replace (S (String.length (String c r)) - 1 - 0)
    with (S (String.length r)) by (simpl; lia).
  replace (S (String.length (String c r)) - 1)
    with (String.length (String c r)) by (simpl; lia).
  rewrite length_append.
  replace (String.length (String c r) + String.length (String "." ext)
           - String.length (String c r))
    with (String.length (String "." ext)) by lia.
  rewrite substring_prefix, substring_suffix, substring_all.
  rewrite append_cons. cbn [PosixPath.other_than_dot String.get].
  now rewrite Hc.
Qed.

End Splitext.

Section ArchiveNames.

Lemma str_no_slash n : no_slash (Py.str n) = true.
Proof.
  pose proof (str_chars n) as H.
  induction (Py.str n) as [|c s IH]; [reflexivity|].
  simpl in H. apply andb_prop in H as [Hc Hs]. simpl. rewrite (IH Hs).
  rewrite andb_true_r. unfold OsPath.is_slash.
  destruct (Ascii.eqb_spec c "/") as [->|]; [discriminate|reflexivity].
Qed.

Lemma version_s_no_slash v : no_slash (Version_s v) = true.
Proof.
  unfold Version_s. rewrite !no_slash_append, !str_no_slash. reflexivity.
Qed.

Lemma replace_no_slash s :
  no_slash s = true -> no_slash (Py.replace "." "_" s) = true.
Proof.
  induction s as [|c s IH]; [reflexivity|]. simpl. intros H.
  apply andb_prop in H as [Hc Hs]. rewrite (IH Hs), andb_true_r.
  destruct (Ascii.eqb c "."); [reflexivity|exact Hc].
Qed.

Lemma split_from_no_slash sep s :
  forall cur,
    no_slash s = true -> no_slash cur = true ->
    List.Forall (fun x => no_slash x = true) (Py.split_from sep s cur).
Proof.
  induction s as [|c s IH]; intros cur Hs Hcur; simpl.
  - constructor; [exact Hcur|constructor].
  - simpl in Hs. apply andb_prop in Hs as [Hc Hs].
    destruct (Ascii.eqb c sep).
    + constructor; [exact Hcur|]. now apply IH.
    + apply IH; [exact Hs|]. unfold Str.snoc.
      rewrite no_slash_append, Hcur. simpl. now rewrite Hc.
Qed.

Lemma python_tgz tmpdir rest :
  no_slash rest = true ->
  PosixPath.splitext
    (OsPath.basename (OsPath.join tmpdir ("python-" +:+ rest +:+ ".tgz")))
  = ("python-" +:+ rest, ".tgz").
Proof.
  intros Hr.
  assert (no_slash ("python-" +:+ rest +:+ ".tgz") = true) as Hn.
  { rewrite !no_slash_append, Hr. reflexivity. }
  rewrite (basename_join _ _ Hn).
  rewrite <- append_assoc in Hn |- *. rewrite append_cons in Hn |- *.
  now apply splitext_ext.
Qed.

End ArchiveNames.

(** X16: when the relative paths that [os.path.relpath] gives for the
    entries found do not begin with a slash, the first member of the archive is the directory
    [src] itself under the name of [dest] without its extension, and
    every other member is named by that name, a slash, and the path of
    the file relative to [src], which is the path that [_extract_strip_1]
    extracts a member of that name to. *)
Theorem archive_top_level :
  forall os_abspath E walk src dest,
    OsPath.basename dest <> "" ->
    List.Forall
      (fun rf : string * string =>
         Str.startswith
           (relpath E (os_abspath (OsPath.join rf.1 rf.2)) src) "/" = false)
      (walk_entries walk) ->
    let name := (PosixPath.splitext (OsPath.basename dest)).1 in
    exists rest,
      archive_arcs os_abspath E walk src dest = (name, src) :: rest /\
      List.Forall (fun arc : string * string =>
                     arc.1 = name +:+ "/" +:+ relpath E arc.2 src /\
                     strip_1 arc.1 = relpath E arc.2 src) rest.
Proof.
  intros os_abspath E walk src dest Hb Hrel name.
  assert (no_slash name = true) as Hn.
  { pose proof (basename_no_slash dest) as H.
    rewrite <- (splitext_join (OsPath.basename dest)) in H.
    rewrite no_slash_append in H. now apply andb_prop in H as [H _]. }
  pose proof (splitext_stem _ Hb) as Hne. fold name in Hne.
  rewrite List.Forall_forall in Hrel.
  assert (forall rel, Str.startswith rel "/" = false ->
            OsPath.join name rel = name +:+ String "/" rel) as Hj.
  { intros rel Hr. rewrite join_plain; [|exact Hne| |exact Hr].
    - now rewrite append_cons, append_nil_l.
    - now apply no_slash_ends. }
  unfold archive_arcs. fold name. rewrite archive_found_entries.
  match goal with
  | |- context [merge_sort arc_le (?x :: ?xs)] =>
      destruct (sort_least x xs) as (rest & Hm & Hp)
  end.
  - apply List.Forall_forall. intros y Hin.
    apply List.in_map_iff in Hin as (rf & <- & Hrf).
    unfold arc_le, arc_leb. simpl. rewrite Hj by now apply Hrel.
    now rewrite compare_prefix.
  - exists rest. split; [exact Hm|].
    apply List.Forall_forall. intros y Hin.
    apply list_elem_of_In in Hin. rewrite Hp in Hin.
    apply list_elem_of_In, List.in_map_iff in Hin as (rf & <- & Hrf).
    simpl. rewrite Hj by now apply Hrel. split.
    + now rewrite append_cons, append_nil_l.
    + unfold strip_1. now rewrite partition_slash_append.
Qed.

(** X17: the archive that [main] writes for a version has one top-level
    directory, named as the archive without [.tgz], on Linux and on
    macOS alike, when the C library version, the macOS version and the
    machine name contain no slash. *)
Theorem archive_name_top_level :
  forall tmpdir libc macos machine version archive_name,
    no_slash machine = true ->
    (no_slash libc = true /\
     archive_name = _linux_archive_name libc machine version) \/
    (no_slash macos = true /\
     _darwin_archive_name macos machine version = Returns archive_name) ->
    exists name,
      archive_name = name +:+ ".tgz" /\
      PosixPath.splitext
        (OsPath.basename (OsPath.join tmpdir archive_name))
      = (name, ".tgz").
Proof.
  intros tmpdir libc macos machine version archive_name Hm
    [[Hl ->]|[Hmac Hd]].
  - unfold _linux_archive_name.
    exists ("python-" +:+ Version_s version +:+ "-manylinux_"
            +:+ Py.replace "." "_" libc +:+ "_" +:+ machine).
    rewrite <- (python_tgz tmpdir).
    + now rewrite !append_assoc.
    + rewrite !no_slash_append, version_s_no_slash, Hm.
      now rewrite (replace_no_slash libc Hl).
  - unfold _darwin_archive_name in Hd.
    pose proof (split_from_no_slash "." macos "" Hmac eq_refl) as Hs.
    fold (Py.split "." macos) in Hs.
    destruct (Py.split "." macos) as [|major [|minor rest]];
      try discriminate.
    destruct (Py.int major) as [n|]; [|discriminate].
    injection Hd as <-.
    apply List.Forall_cons_iff in Hs as [Hmaj Hs].
    apply List.Forall_cons_iff in Hs as [Hmin _].
    exists ("python-" +:+ Version_s version +:+ "-macosx_"
            +:+ (major +:+ "_" +:+ (if Z.leb 11 n then "0" else minor))
            +:+ "_" +:+ machine).
    rewrite <- (python_tgz tmpdir).
    + now rewrite !append_assoc.
    + rewrite !no_slash_append, version_s_no_slash, Hm, Hmaj.
      now destruct (Z.leb 11 n); rewrite ?Hmin.
Qed.

Lemma archive_top_level_witness :
  exists rest,
    archive_arcs Build.abspath Build.tools Build.walk Prefix.prefix Build.dest
    = ("python-3.8.13-manylinux_2_28_x86_64", Prefix.prefix) :: rest /\
    List.Forall (fun arc : string * string =>
                   arc.1 = "python-3.8.13-manylinux_2_28_x86_64" +:+ "/"
                           +:+ relpath Build.tools arc.2 Prefix.prefix /\
                   strip_1 arc.1 = relpath Build.tools arc.2 Prefix.prefix)
                rest.
Proof.
  apply (archive_top_level Build.abspath Build.tools Build.walk Prefix.prefix
           Build.dest).
  - vm_compute. discriminate.
  - repeat constructor.
Defined.

Lemma archive_name_top_level_witness :
  exists name,
    _linux_archive_name "2.28" "x86_64" Prefix.version = name +:+ ".tgz" /\
    PosixPath.splitext
      (OsPath.basename
         (OsPath.join "/tmp/tmpdir"
            (_linux_archive_name "2.28" "x86_64" Prefix.version)))
    = (name, ".tgz").
Proof.
  apply (archive_name_top_level "/tmp/tmpdir" "2.28" "" "x86_64"
           Prefix.version); [reflexivity|].
  left. split; reflexivity.
Defined.

(* ===================================================================== *)
(** ** The commands of a walk on macOS                                    *)
(* ===================================================================== *)

Section DarwinWalk.

Context (E : env) `{!EnvLaws E} (libdir : string).

Lemma relink_each_jobs (rec : world -> string -> option (result world)) :
  (forall w x w',
     Os.isdir (fs w) libdir = true -> rec w x = Some (Ok w') ->
     Os.isdir (fs w') libdir = true /\
     exists new links jobs,
       copied w' = copied w ++ new /\
       calls w' = calls w
                  ++ flat_map (darwin_commands E libdir)
                       ((x, true, links) :: jobs) /\
       Permutation (List.map (fun j => j.1.1) jobs) (List.map snd new) /\
       List.Forall (fun j : string * bool * list string => j.1.2 = true)
         jobs) ->
  forall tl w w',
    Os.isdir (fs w) libdir = true ->
    relink_each rec tl w = Some (Ok w') ->
    exists new jobs,
      copied w' = copied w ++ new /\
      calls w' = calls w ++ flat_map (darwin_commands E libdir) jobs /\
      Permutation (List.map (fun j => j.1.1) jobs) (tl ++ List.map snd new) /\
      List.Forall (fun j : string * bool * list string => j.1.2 = true) jobs.
Proof.
  intros Hrec tl. induction tl as [|x rest IH]; intros w w' Hd H; simpl in H.
  - injection H as <-. exists [], []. rewrite !app_nil_r.
    repeat split; constructor.
  - destruct (rec w x) as [[w1|e]|] eqn:Hx; try discriminate.
    destruct (Hrec _ _ _ Hd Hx)
      as (Hd1 & new1 & links1 & jobs1 & Hn1 & Hc1 & Hp1 & Hf1).
    destruct (IH _ _ Hd1 H) as (new2 & jobs2 & Hn2 & Hc2 & Hp2 & Hf2).
    exists (new1 ++ new2), (((x, true, links1) :: jobs1) ++ jobs2).
    split; [now rewrite Hn2, Hn1, <- app_assoc|].
    split; [rewrite Hc2, Hc1, flat_map_app; now rewrite <- app_assoc|].
    split.
    + rewrite !List.map_app. simpl. apply perm_skip. rewrite Hp1, Hp2.
      rewrite !app_assoc. apply Permutation_app_tail, Permutation_app_comm.
    + apply List.Forall_app. split; [|exact Hf2].
      constructor; [reflexivity|exact Hf1].
Qed.

Lemma darwin_walk_jobs fuel sn w f w' :
  Os.isdir (fs w) libdir = true ->
  _relink_1 (darwin E) fuel libdir sn w f = Some (Ok w') ->
  exists new links jobs,
    copied w' = copied w ++ new /\
    calls w' = calls w
               ++ flat_map (darwin_commands E libdir) ((f, sn, links) :: jobs) /\
    Permutation (List.map (fun j => j.1.1) jobs) (List.map snd new) /\
    List.Forall (fun j : string * bool * list string => j.1.2 = true) jobs.
Proof.
  revert sn w f w'. induction fuel as [|n IH]; intros sn w f w' Hd H;
    [discriminate|].
  simpl in H.
  destruct (_darwin_linked E w f) as [links|] eqn:Hl; [|discriminate].
  destruct (_darwin_relink E f libdir sn w) as [w1|] eqn:Hr; [|discriminate].
  destruct (copy_missing libdir links w1 []) as [[w2 tl]|] eqn:Hc;
    [|discriminate].
  assert (Os.isdir (fs w1) libdir = true) as Hd1.
  { erewrite isdir_kinds; [eassumption|].
    apply (relink_kinds (darwin E) f libdir sn w w1 libdir Hr). }
  assert (copied w1 = copied w) as Hc1
    by (apply (relink_copied (plat := darwin E) f libdir sn w w1 Hr)).
  apply _darwin_relink_calls in Hr as (w0 & links0 & _ & _ & Hcalls).
  pose proof (copy_missing_calls _ _ _ _ _ _ Hc) as Hc2.
  apply copy_missing_frame in Hc as (Hd2 & _ & _ & new0 & Hn0 & _ & Htl);
    [|assumption].
  simpl in Htl. subst tl.
  destruct (relink_each_jobs (_relink_1 (darwin E) n libdir true))
    with (tl := List.map snd new0) (w := w2) (w' := w')
    as (new1 & jobs1 & Hn1 & Hcalls1 & Hp1 & Hf1); try assumption.
  { intros wa x wb Hda Hx. split; [|now apply (IH true)].
    now apply (walk_frame_holds (darwin E) libdir n true wa x wb Hda) in Hx
      as (? & _). }
  exists (new0 ++ new1), links0, jobs1.
  split; [now rewrite Hn1, Hn0, Hc1, <- app_assoc|].
  split.
  - rewrite Hcalls1, Hc2, Hcalls. simpl. now rewrite <- !app_assoc.
  - split; [now rewrite List.map_app|exact Hf1].
Qed.

End DarwinWalk.


